(** * fpgm_collocation.h: the flat-plate glider model and its trapezoidal
      collocation, as a shallow embedding.

    Numbers.  A C++ [double] is idealised as a real number, together with
    the three values of IEEE 754 arithmetic that are no numbers: the two
    infinities and not-a-number.  On finite values an operation is the
    operation of the reals; rounding and overflow are outside this model.
    The division is the one of IEEE 754: a non-zero dividend over zero is an
    infinity, zero over zero is not-a-number, and what a division produces
    flows on through the later operations as the standard prescribes (the
    source has no test on any quotient).  The reals have one zero: it stands
    for the positive zero of the doubles, so that the negative zero, and
    whatever depends on the sign of a zero, are outside the model.

    Arrays.  A C array or a [std::vector] is a list; a read or a write
    outside the list is an out-of-bounds access, which the model reports
    as the failure [None] of the enclosing function.

    Integers.  Loop counters and sizes are natural numbers or integers
    without wrap-around, with two exceptions that are written out: the
    conversion [(int)x.size()], reduced modulo 2^32, and the [int]
    arithmetic of the driver, whose overflow is undefined behaviour and is
    reported as a failure like an access out of bounds. *)

From Stdlib Require Import Reals Lra Lia ZArith List.
From stdpp Require Import base option list.

Open Scope R_scope.

(** ** Numbers: the reals, the infinities and not-a-number *)

Inductive num : Type :=
  | inj (r : R)    (* a finite value *)
  | pinf           (* +infinity *)
  | ninf           (* -infinity *)
  | undef.         (* not-a-number *)

Coercion inj : R >-> num.

Definition nopp (a : num) : num :=
  match a with
  | inj u => inj (- u)
  | pinf => ninf
  | ninf => pinf
  | undef => undef
  end.

Definition nadd (a b : num) : num :=
  match a, b with
  | inj u, inj v => inj (u + v)
  | inj _, pinf => pinf
  | inj _, ninf => ninf
  | pinf, inj _ => pinf
  | pinf, pinf => pinf
  | pinf, ninf => undef
  | ninf, inj _ => ninf
  | ninf, ninf => ninf
  | ninf, pinf => undef
  | undef, _ => undef
  | _, undef => undef
  end.

Definition nsub (a b : num) : num :=
  match a, b with
  | inj u, inj v => inj (u - v)
  | _, _ => nadd a (nopp b)
  end.

(** The infinity [i] times the real [v]: the sign of [v] decides, and an
    infinity times zero is not-a-number. *)
Definition inf_scale (i : num) (v : R) : num :=
  if Rlt_dec 0 v then i else if Rlt_dec v 0 then nopp i else undef.

Definition nmul (a b : num) : num :=
  match a, b with
  | inj u, inj v => inj (u * v)
  | inj u, pinf => inf_scale pinf u
  | inj u, ninf => inf_scale ninf u
  | pinf, inj v => inf_scale pinf v
  | ninf, inj v => inf_scale ninf v
  | pinf, pinf => pinf
  | ninf, ninf => pinf
  | pinf, ninf => ninf
  | ninf, pinf => ninf
  | undef, _ => undef
  | _, undef => undef
  end.

(** [a / b] of the source.  A finite quotient is the quotient of the reals;
    a non-zero real over zero is the infinity of its sign, zero over zero
    is not-a-number. *)
Definition ndiv (a b : num) : num :=
  match a, b with
  | inj u, inj v =>
      if Req_dec_T v 0 then
        (if Rlt_dec 0 u then pinf else if Rlt_dec u 0 then ninf else undef)
      else inj (u / v)
  | inj _, pinf => inj 0
  | inj _, ninf => inj 0
  | pinf, inj v => if Rlt_dec v 0 then ninf else pinf
  | ninf, inj v => if Rlt_dec v 0 then pinf else ninf
  | pinf, pinf => undef
  | pinf, ninf => undef
  | ninf, pinf => undef
  | ninf, ninf => undef
  | undef, _ => undef
  | _, undef => undef
  end.

(** [sin], [cos] and [atan] of <math.h>: the sine and the cosine of an
    infinity are not-a-number, the arctangent of an infinity is a quarter
    turn. *)
Definition nsin (a : num) : num :=
  match a with inj u => inj (sin u) | _ => undef end.

Definition ncos (a : num) : num :=
  match a with inj u => inj (cos u) | _ => undef end.

Definition natan (a : num) : num :=
  match a with
  | inj u => inj (atan u)
  | pinf => inj (PI / 2)
  | ninf => inj (- (PI / 2))
  | undef => undef
  end.

(** [pow(a, n)] of <math.h> for an integral exponent [n]. *)
Definition npow (a : num) (n : nat) : num :=
  match a, n with
  | inj u, _ => inj (u ^ n)
  | _, O => inj 1
  | pinf, _ => pinf
  | ninf, _ => if Nat.even n then pinf else ninf
  | undef, _ => undef
  end.

(** The comparison [a <= b]; it is false when a side is not-a-number. *)
Definition nle (a b : num) : Prop :=
  match a, b with
  | inj u, inj v => u <= v
  | undef, _ => False
  | _, undef => False
  | ninf, _ => True
  | _, pinf => True
  | _, _ => False
  end.

(** [abs] on a [double]. *)
Definition nabs (a : num) : num :=
  match a with
  | inj u => inj (Rabs u)
  | pinf => pinf
  | ninf => pinf
  | undef => undef
  end.

Declare Scope num_scope.
Delimit Scope num_scope with num.
Bind Scope num_scope with num.

Notation "a + b" := (nadd a b) : num_scope.
Notation "a - b" := (nsub a b) : num_scope.
Notation "a * b" := (nmul a b) : num_scope.
Notation "a / b" := (ndiv a b) : num_scope.
Notation "- a" := (nopp a) : num_scope.
Notation "a <= b" := (nle a b) : num_scope.

(** ** Eigen vectors and matrices

    [Eigen::Vector2d] is a pair, [Eigen::VectorXd] a list of coefficients,
    and [Eigen::MatrixXd] is given by its coefficient function [Q(a, b)];
    the weight matrix of the cost is 7 x 7. *)

Definition Vector2d : Type := (num * num)%type.

Definition Vector2d_ (a b : num) : Vector2d := (a, b).

Definition v2_add (u v : Vector2d) : Vector2d :=
  ((fst u + fst v)%num, (snd u + snd v)%num).
Definition v2_sub (u v : Vector2d) : Vector2d :=
  ((fst u - fst v)%num, (snd u - snd v)%num).
(** [s * v], scalar on the left. *)
Definition v2_scale (s : num) (v : Vector2d) : Vector2d :=
  ((s * fst v)%num, (s * snd v)%num).
(** [v / s]. *)
Definition v2_div (v : Vector2d) (s : num) : Vector2d :=
  ((fst v / s)%num, (snd v / s)%num).

Abbreviation VectorXd := (list num).

Definition vx_add (u v : VectorXd) : VectorXd := zip_with nadd u v.
Definition vx_sub (u v : VectorXd) : VectorXd := zip_with nsub u v.
Definition vx_scale (s : num) (v : VectorXd) : VectorXd := map (nmul s) v.

(** [v[j]] on a vector of [length v] coefficients. *)
Definition coeff (v : VectorXd) (j : nat) : option num := v !! j.

Definition MatrixXd : Type := nat -> nat -> R.

(** ** class equations_and_helper *)

Module fpgm_param.
Record fpgm_param : Type := mk {
  l_w : R; l_e : R; l : R;
  s_w : R; s_e : R;
  mass : R;
  I : R;
  h : R;
  Q : MatrixXd;
  R : R
}.
End fpgm_param.
Abbreviation fpgm_param := fpgm_param.fpgm_param.

Module optimization_constrain.
Record optimization_constrain : Type := mk {
  v_c : R;
  t_c : R;
  p_c : R;
  td_c : R;
  pd_c : R;
  ix : list R;
  iz : list R
}.
End optimization_constrain.
Abbreviation optimization_constrain := optimization_constrain.optimization_constrain.

Module combined_param.
Record combined_param : Type := mk {
  fp : fpgm_param;
  oc : optimization_constrain
}.
End combined_param.
Abbreviation combined_param := combined_param.combined_param.

Definition cl (aoa : num) : num := (2 * nsin aoa * ncos aoa)%num.

Definition cd (aoa : num) : num := (2 * npow (nsin aoa) 2)%num.

Definition two_d_cross (v1 v2 : Vector2d) : num :=
  (fst v1 * snd v2 - snd v1 * fst v2)%num.

(** *** fpgm_dynamics

    Each local variable of the function is a definition of the same name,
    over the arguments it is computed from. *)

Definition g : R := 9.81.
Definition p : R := 1.225.

Definition n_w (theta : R) : Vector2d :=
  Vector2d_ (- sin theta) (cos theta).

Definition n_e (theta phi : R) : Vector2d :=
  Vector2d_ (- sin (theta + phi)) (cos (theta + phi)).

Definition x_w (parameter : fpgm_param) (x z theta : R) : Vector2d :=
  Vector2d_
    (x - fpgm_param.l_w parameter * cos theta)
    (z - fpgm_param.l_w parameter * sin theta).

Definition x_e (parameter : fpgm_param) (x z theta phi : R) : Vector2d :=
  Vector2d_
    (x - fpgm_param.l parameter * cos theta
       - fpgm_param.l_e parameter * cos (theta + phi))
    (z - fpgm_param.l parameter * sin theta
       - fpgm_param.l_e parameter * sin (theta + phi)).

Definition x_w_dot (parameter : fpgm_param)
    (theta xdot zdot thetadot : R) : Vector2d :=
  Vector2d_
    (xdot + fpgm_param.l_w parameter * thetadot * sin theta)
    (zdot - fpgm_param.l_w parameter * thetadot * cos theta).

Definition x_e_dot (parameter : fpgm_param)
    (theta phi xdot zdot thetadot phidot : R) : Vector2d :=
  Vector2d_
    (xdot + fpgm_param.l parameter * thetadot * sin theta
       + fpgm_param.l_e parameter * (thetadot + phidot) * sin (theta + phi))
    (zdot - fpgm_param.l parameter * thetadot * cos theta
       - fpgm_param.l_e parameter * (thetadot + phidot) * cos (theta + phi)).

Definition alpha_w (parameter : fpgm_param)
    (theta xdot zdot thetadot : R) : num :=
  let x_w_dot := x_w_dot parameter theta xdot zdot thetadot in
  (theta - natan (snd x_w_dot / fst x_w_dot))%num.

Definition alpha_e (parameter : fpgm_param)
    (theta phi xdot zdot thetadot phidot : R) : num :=
  let x_e_dot := x_e_dot parameter theta phi xdot zdot thetadot phidot in
  (theta + phi - natan (snd x_e_dot / fst x_e_dot))%num.

Definition force_w (parameter : fpgm_param)
    (theta xdot zdot thetadot : R) : Vector2d :=
  let x_w_dot := x_w_dot parameter theta xdot zdot thetadot in
  let alpha_w := alpha_w parameter theta xdot zdot thetadot in
  v2_scale
    (0.5 * p * (npow (fst x_w_dot) 2 + npow (snd x_w_dot) 2) *
     fpgm_param.s_w parameter * (cl alpha_w + cd alpha_w))%num
    (n_w theta).

Definition force_e (parameter : fpgm_param)
    (theta phi xdot zdot thetadot phidot : R) : Vector2d :=
  let x_e_dot := x_e_dot parameter theta phi xdot zdot thetadot phidot in
  let alpha_e := alpha_e parameter theta phi xdot zdot thetadot phidot in
  v2_scale
    (0.5 * p * (npow (fst x_e_dot) 2 + npow (snd x_e_dot) 2) *
     fpgm_param.s_e parameter * (cl alpha_e + cd alpha_e))%num
    (n_e theta phi).

Definition pos_dotdot (parameter : fpgm_param)
    (theta phi xdot zdot thetadot phidot : R) : Vector2d :=
  let force_w := force_w parameter theta xdot zdot thetadot in
  let force_e := force_e parameter theta phi xdot zdot thetadot phidot in
  v2_div
    (v2_sub (v2_add force_w force_e)
            (Vector2d_ 0 (fpgm_param.mass parameter * g)))
    (fpgm_param.mass parameter).

Definition theta_dotdot (parameter : fpgm_param)
    (theta phi xdot zdot thetadot phidot : R) : num :=
  let force_w := force_w parameter theta xdot zdot thetadot in
  let force_e := force_e parameter theta phi xdot zdot thetadot phidot in
  ((two_d_cross (Vector2d_ (fpgm_param.l_w parameter) 0) force_w +
    two_d_cross
      (Vector2d_
         (- fpgm_param.l parameter - fpgm_param.l_e parameter * cos theta)
         (- fpgm_param.l parameter + fpgm_param.l_e parameter * sin theta))
      force_e) / fpgm_param.I parameter)%num.

Definition fpgm_dynamics
    (x z theta phi xdot zdot thetadot phidot : R)
    (parameter : fpgm_param) : VectorXd :=
  let x_w := x_w parameter x z theta in
  let x_e := x_e parameter x z theta phi in
  let pos_dotdot := pos_dotdot parameter theta phi xdot zdot thetadot phidot in
  let theta_dotdot :=
    theta_dotdot parameter theta phi xdot zdot thetadot phidot in
  [ inj xdot; inj zdot; inj thetadot; inj phidot;
    fst pos_dotdot; snd pos_dotdot; theta_dotdot ].

Definition std_vector_to_eigen_vector (x : list R) : VectorXd := map inj x.

(** [x[k]] on an array of [length x] doubles. *)
Definition read (x : list R) (k : nat) : option R := x !! k.

(** [result[index] = v] on an array of [length result] cells. *)
Definition store (result : list num) (index : nat) (v : num)
    : option (list num) :=
  if decide (index < length result)%nat
  then Some (<[index := v]> result)
  else None.

Definition set_bounded_constrains
    (result : list num) (index : nat) (x bound : num) : option (list num) :=
  (* fc(x) <= 0 *)
  result ← store result index (- x - bound)%num;   (* -bound <= x *)
  store result (index + 1) (x - bound)%num.         (* x <= bound *)

(** ** class fpgm_collocation *)

(** [for (int i = lo; i < lo + count; i++) body], threading the state the
    body updates; an out-of-bounds access in the body ends the run. *)
Fixpoint for_loop {St : Type} (i count : nat)
    (body : nat -> St -> option St) (s : St) : option St :=
  match count with
  | O => Some s
  | S count' => s ← body i s; for_loop (S i) count' body s
  end.

(** One pass of the body of the knot loop of [collocation_eq_constraints]
    ([i] is the loop counter). *)
Definition collocation_knot
    (fpgm : fpgm_param) (boundary : optimization_constrain)
    (state_input_length : nat) (x : list R)
    (i : nat) (result : list num) : option (list num) :=
  (* Since for dynamics we do not have a state after this *)
  result ←
    (if decide (i < state_input_length - 1)%nat then
       (* current state *)
       x1_0 ← read x (0+8*i); x1_1 ← read x (1+8*i);
       x1_2 ← read x (2+8*i); x1_3 ← read x (3+8*i);
       x1_4 ← read x (4+8*i); x1_5 ← read x (5+8*i);
       x1_6 ← read x (6+8*i);
       let x1 := [x1_0; x1_1; x1_2; x1_3; x1_4; x1_5; x1_6] in
       (* future state *)
       x2_0 ← read x (0+8*(i+1)); x2_1 ← read x (1+8*(i+1));
       x2_2 ← read x (2+8*(i+1)); x2_3 ← read x (3+8*(i+1));
       x2_4 ← read x (4+8*(i+1)); x2_5 ← read x (5+8*(i+1));
       x2_6 ← read x (6+8*(i+1));
       let x2 := [x2_0; x2_1; x2_2; x2_3; x2_4; x2_5; x2_6] in
       (* current dynamics *)
       u1 ← read x (7+8*i);
       let f_k :=
         fpgm_dynamics x1_0 x1_1 x1_2 x1_3 x1_4 x1_5 x1_6 u1 fpgm in
       (* future dynamics *)
       u2 ← read x (7+8*(i+1));
       let f_k_1 :=
         fpgm_dynamics x2_0 x2_1 x2_2 x2_3 x2_4 x2_5 x2_6 u2 fpgm in
       let x_k := std_vector_to_eigen_vector x1 in
       let x_k_1 := std_vector_to_eigen_vector x2 in
       let single_results_vector :=
         vx_add (vx_sub x_k x_k_1)
                (vx_scale (inj (fpgm_param.h fpgm / 2)) (vx_add f_k f_k_1)) in
       (* (0 to 13) constrains dynamic feasibility *)
       for_loop 0 7
         (fun j result =>
            let tolerance := 0.01 in
            d ← coeff single_results_vector j;
            set_bounded_constrains result (j*2 + i*26) d tolerance)
         result
     else Some result);
  (* (14 & 15) theta constrains for lower and upper bound *)
  x_2 ← read x (2+i*8);
  result ← set_bounded_constrains result (0 + 14 + i*26) (inj x_2)
             (optimization_constrain.t_c boundary);
  (* (16 & 17) phi constrains for lower and upper bound *)
  x_3 ← read x (3+i*8);
  result ← set_bounded_constrains result (2 + 14 + i*26) (inj x_3)
             (optimization_constrain.p_c boundary);
  (* (18 & 19) velocity x, (20 & 21) velocity z *)
  x_4 ← read x (4+i*8);
  result ← set_bounded_constrains result (4 + 14 + i*26) (inj x_4)
             (optimization_constrain.v_c boundary);
  x_5 ← read x (5+i*8);
  result ← set_bounded_constrains result (6 + 14 + i*26) (inj x_5)
             (optimization_constrain.v_c boundary);
  (* (22 & 23) thetadot constrains for lower and upper bound *)
  x_6 ← read x (6+i*8);
  result ← set_bounded_constrains result (8 + 14 + i*26) (inj x_6)
             (optimization_constrain.td_c boundary);
  (* (24 & 25) phidot constrains for lower and upper bound *)
  x_7 ← read x (7+i*8);
  set_bounded_constrains result (10 + 14 + i*26) (inj x_7)
    (optimization_constrain.pd_c boundary).

(** [collocation_eq_constraints(m, result, n, x, grad, data)]: [result] is
    the caller's array (its length is what the caller allocated; the
    function never looks at [m]), [x] the decision vector of [n] doubles;
    [grad] is not used.  The value is the array after the call. *)
Definition collocation_eq_constraints
    (m : nat) (result : list num) (n : nat) (x : list R)
    (data : combined_param) : option (list num) :=
  let params := data in
  let fpgm := combined_param.fp params in
  let boundary := combined_param.oc params in
  let state_input_length := (n / 8)%nat in
  result ←
    for_loop 0 state_input_length
      (collocation_knot fpgm boundary state_input_length x) result;
  x_0 ← read x 0;
  ix_0 ← read (optimization_constrain.ix boundary) 0;
  result ← set_bounded_constrains result (0 + state_input_length * 26)
             (inj x_0) (inj ix_0);
  x_1 ← read x 1;
  iz_0 ← read (optimization_constrain.iz boundary) 0;
  set_bounded_constrains result (2 + state_input_length * 26)
    (inj x_1) (inj iz_0).

(** [f 0 + ... + f (n - 1)]. *)
Definition sum_upto (n : nat) (f : nat -> R) : R :=
  fold_right Rplus 0 (map f (seq 0 n)).

(** [x1.transpose() * Q * x1] for a vector of 7 coefficients: the row
    vector [x1^T Q] first, then its product with [x1]. *)
Definition quadratic_form (Q : MatrixXd) (x1 : list R) : R :=
  sum_upto 7 (fun b => sum_upto 7 (fun a => nth a x1 0 * Q a b) * nth b x1 0).

(** [control_effort_objective(n, x, grad, data)]; [grad] is not used, and
    [abs] is the overload for [double] ([using namespace std]). *)
Definition control_effort_objective
    (n : nat) (x : list R) (data : combined_param) : option R :=
  let params := data in
  let fpgm := combined_param.fp params in
  let boundary := combined_param.oc params in
  (* Assuming h_k = uniform, timestep is uniform *)
  let factor := fpgm_param.h fpgm in
  let cost := 0 in
  let state_input_length := (n / 8)%nat in
  cost ←
    for_loop 0 state_input_length
      (fun i cost =>
         x1_0 ← read x (0+8*i); x1_1 ← read x (1+8*i);
         x1_2 ← read x (2+8*i); x1_3 ← read x (3+8*i);
         x1_4 ← read x (4+8*i); x1_5 ← read x (5+8*i);
         x1_6 ← read x (6+8*i);
         let x1 := [x1_0; x1_1; x1_2; x1_3; x1_4; x1_5; x1_6] in
         let state_term := quadratic_form (fpgm_param.Q fpgm) x1 in
         u ← read x (7+8*i);
         let input_term := u * fpgm_param.R fpgm * u in
         Some (cost + (state_term + input_term)))
      cost;
  x_0 ← read x 0;
  ix_0 ← read (optimization_constrain.ix boundary) 0;
  x_1 ← read x 1;
  iz_0 ← read (optimization_constrain.iz boundary) 0;
  let start_constrain := Rabs (x_0 - ix_0) + Rabs (x_1 - iz_0) in
  Some (cost * factor + 1e6 * start_constrain).

Module control_state.
(** Using 6 control parameters for flight control *)
Record control_state : Type := mk {
  x : list R;
  z : list R;
  theta : list R;
  phi : list R;
  vx : list R;
  vz : list R
}.
End control_state.
Abbreviation control_state := control_state.control_state.

(** The private members of the class. *)
Module fpgm_collocation.
Record fpgm_collocation : Type := mk {
  param : fpgm_param;
  boundary : optimization_constrain;
  N : Z;
  guess : list R
}.
End fpgm_collocation.
Abbreviation fpgm_collocation := fpgm_collocation.fpgm_collocation.

(** [(int)s] for a size [s]: reduction into the 32-bit signed range. *)
Definition to_int (s : Z) : Z := ((s + 2 ^ 31) mod 2 ^ 32 - 2 ^ 31)%Z.

(** [remainder(x, y)] of <math.h> for integral [x] and [y > 0]: [x - k*y]
    with [k] the integer nearest to [x/y], the even one on a tie. *)
Definition remainder (x y : Z) : Z :=
  let q := (x / y)%Z in
  let r := (x mod y)%Z in
  if (2 * r <? y)%Z then r
  else if (y <? 2 * r)%Z then (r - y)%Z
  else if Z.even q then r else (r - y)%Z.

Definition load_initial_guess (x : list R) (self : fpgm_collocation)
    : bool * fpgm_collocation :=
  (* guess.clear(); guess = x; *)
  let self :=
    fpgm_collocation.mk (fpgm_collocation.param self)
      (fpgm_collocation.boundary self) (fpgm_collocation.N self) [] in
  let self :=
    fpgm_collocation.mk (fpgm_collocation.param self)
      (fpgm_collocation.boundary self) (fpgm_collocation.N self) x in
  if decide (remainder (to_int (Z.of_nat (length x))) 8 <> 0%Z) then
    (false, self)
  else
    let self :=
      fpgm_collocation.mk (fpgm_collocation.param self)
        (fpgm_collocation.boundary self)
        (to_int (Z.of_nat (length x)) ÷ 8)%Z
        (fpgm_collocation.guess self) in
    (true, self).

(** The NLopt object the driver configures.  The library is not part of
    the repository: its setters are modelled as recording their arguments,
    and the solve itself is a parameter of the driver. *)
Module nlopt.
Definition objective : Type := nat -> list R -> option R.
Definition mconstraint : Type :=
  nat -> list num -> nat -> list R -> option (list num).

Record nlopt_opt : Type := mk {
  n : nat;
  min_objective : option objective;
  ftol_abs : option R;
  xtol_rel : option R;
  maxeval : option Z;
  maxtime : option R;
  inequality_mconstraints : list (nat * mconstraint * list R)
}.

Definition nlopt_create (n : nat) : nlopt_opt :=
  mk n None None None None None [].
Definition nlopt_set_min_objective (opt : nlopt_opt) (f : objective)
    : nlopt_opt :=
  mk (n opt) (Some f) (ftol_abs opt) (xtol_rel opt) (maxeval opt)
     (maxtime opt) (inequality_mconstraints opt).
Definition nlopt_set_ftol_abs (opt : nlopt_opt) (tol : R) : nlopt_opt :=
  mk (n opt) (min_objective opt) (Some tol) (xtol_rel opt) (maxeval opt)
     (maxtime opt) (inequality_mconstraints opt).
Definition nlopt_set_xtol_rel (opt : nlopt_opt) (tol : R) : nlopt_opt :=
  mk (n opt) (min_objective opt) (ftol_abs opt) (Some tol) (maxeval opt)
     (maxtime opt) (inequality_mconstraints opt).
Definition nlopt_set_maxeval (opt : nlopt_opt) (k : Z) : nlopt_opt :=
  mk (n opt) (min_objective opt) (ftol_abs opt) (xtol_rel opt) (Some k)
     (maxtime opt) (inequality_mconstraints opt).
Definition nlopt_set_maxtime (opt : nlopt_opt) (t : R) : nlopt_opt :=
  mk (n opt) (min_objective opt) (ftol_abs opt) (xtol_rel opt) (maxeval opt)
     (Some t) (inequality_mconstraints opt).
Definition nlopt_add_inequality_mconstraint (opt : nlopt_opt) (m : nat)
    (fc : mconstraint) (tol : list R) : nlopt_opt :=
  mk (n opt) (min_objective opt) (ftol_abs opt) (xtol_rel opt) (maxeval opt)
     (maxtime opt) (inequality_mconstraints opt ++ [(m, fc, tol)]).
End nlopt.

(** The value of an [int] expression of the driver: the number when 32
    bits can hold it.  Signed overflow is undefined behaviour; it is
    reported as the failure [None]. *)
Definition checked_int (z : Z) : option Z :=
  if decide (- 2 ^ 31 <= z < 2 ^ 31)%Z then Some z else None.

Section nlopt_optimization.

(** [nlopt_optimize(opt, x, &cost)]: the array [x] after the solve.  The
    source passes an array of [guess.size()] doubles; the reads that follow
    the solve are checked against the length of what comes back. *)
Variable nlopt_optimize : nlopt.nlopt_opt -> list R -> list R.

(** The value is the returned [control_state] ([None] for an
    out-of-bounds read, an overflow of the [int] arithmetic or an array of
    non-positive size) and the calls made to [nlopt_optimize], each with
    the object and the start vector it was given. *)
Definition nlopt_optimization (self : fpgm_collocation)
    : option control_state * list (nlopt.nlopt_opt * list R) :=
  let guess := fpgm_collocation.guess self in
  let N := fpgm_collocation.N self in
  let final_vector := control_state.mk [] [] [] [] [] [] in
  if decide (guess = []) then (Some final_vector, [])
  else
    match
      dimension ← checked_int (N * 8);
      (* inequality_dimension =
         dimension * 2[from upper and lower bound] *)
      product ← checked_int (N * 26);
      checked_int (4 + product)
    with
    | None => (None, [])
    | Some inequality_dimension =>
    (* double tol_ineq[inequality_dimension] = {tolerance}; *)
    if decide (inequality_dimension <= 0)%Z then (None, [])
    else
    let tolerance := 1e-8 in
    (* The callbacks read their [data] as a combined_param.  The
       constraint block is given [&cp]; the objective is given [&param],
       behind which the member [boundary] follows as [oc] does in [cp]. *)
    let cp :=
      combined_param.mk (fpgm_collocation.param self)
                        (fpgm_collocation.boundary self) in
    let tol_ineq :=
      take (Z.to_nat inequality_dimension)
           (tolerance :: replicate (Z.to_nat inequality_dimension - 1) 0) in
    let opt := nlopt.nlopt_create (length guess) in
    let opt :=
      nlopt.nlopt_set_min_objective opt
        (fun n x => control_effort_objective n x cp) in
    let opt := nlopt.nlopt_set_ftol_abs opt 1e-6 in
    let opt := nlopt.nlopt_set_xtol_rel opt 1e-4 in
    let opt := nlopt.nlopt_set_maxeval opt 1000 in
    let opt := nlopt.nlopt_set_maxtime opt 0.5 in
    (* Using inequality constrains to encompass the equality constrains *)
    let opt :=
      nlopt.nlopt_add_inequality_mconstraint opt
        (Z.to_nat inequality_dimension)
        (fun m result n x => collocation_eq_constraints m result n x cp)
        tol_ineq in
    let x := guess in
    let x := nlopt_optimize opt x in
    (( (* guess-difference *)
       _ ← for_loop 0 (Z.to_nat N)
             (fun i _ =>
                for_loop 0 8
                  (fun j _ =>
                     x_ji ← read x (j+i*8);
                     guess_ji ← read guess (j+i*8);
                     Some tt)
                  tt)
             tt;
       (* conversion back to control states format *)
       for_loop 0 (Z.to_nat N)
         (fun i final_vector =>
            x_0 ← read x (0+i*8);
            x_1 ← read x (1+i*8);
            x_2 ← read x (2+i*8);
            x_3 ← read x (3+i*8);
            x_4 ← read x (4+i*8);
            x_5 ← read x (5+i*8);
            Some (control_state.mk
                    (control_state.x final_vector ++ [x_0])
                    (control_state.z final_vector ++ [x_1])
                    (control_state.theta final_vector ++ [x_2])
                    (control_state.phi final_vector ++ [x_3])
                    (control_state.vx final_vector ++ [x_4])
                    (control_state.vz final_vector ++ [x_5])))
         final_vector),
     [(opt, guess)])
    end.

End nlopt_optimization.

(** *** differential_flat_estimated_rotation

    [Eigen::Vector3d] is a triple of reals and [Eigen::Matrix3d] a function
    of the row and the column; [cross], [squaredNorm] and [normalized] are
    Eigen's, [atan2] is the one of <math.h>. *)

Definition Vector3d : Type := R * R * R.
Definition Vector3d_ (x y z : R) : Vector3d := (x, y, z).

(** [v(0)], [v(1)], [v(2)]. *)
Definition v3_x (v : Vector3d) : R := fst (fst v).
Definition v3_y (v : Vector3d) : R := snd (fst v).
Definition v3_z (v : Vector3d) : R := snd v.

Definition v3_add (u v : Vector3d) : Vector3d :=
  (v3_x u + v3_x v, v3_y u + v3_y v, v3_z u + v3_z v).

(** [u.cross(v)]. *)
Definition cross (u v : Vector3d) : Vector3d :=
  (v3_y u * v3_z v - v3_z u * v3_y v,
   v3_z u * v3_x v - v3_x u * v3_z v,
   v3_x u * v3_y v - v3_y u * v3_x v).

Definition squaredNorm (v : Vector3d) : R :=
  v3_x v * v3_x v + v3_y v * v3_y v + v3_z v * v3_z v.

(** [v.normalized()] as Eigen 3.3 and later define it: the vector over its
    norm, and the vector itself when its squared norm is not positive
    (earlier releases divide without the test). *)
Definition normalized (v : Vector3d) : Vector3d :=
  let z := squaredNorm v in
  if Rlt_dec 0 z
  then (v3_x v / sqrt z, v3_y v / sqrt z, v3_z v / sqrt z)
  else v.

Definition Matrix3d : Type := nat -> nat -> R.

Definition v3_coeff (v : Vector3d) (i : nat) : R :=
  match i with 0%nat => v3_x v | 1%nat => v3_y v | _ => v3_z v end.

(** The matrix whose columns 0, 1 and 2 are [c0], [c1] and [c2]. *)
Definition Matrix3d_cols (c0 c1 c2 : Vector3d) : Matrix3d :=
  fun i j =>
    v3_coeff (match j with 0%nat => c0 | 1%nat => c1 | _ => c2 end) i.

(** [atan2(y, x)] on the reals: the angle in (-PI, PI] of the point
    [(x, y)], and 0 at the origin.  The reals have one zero, which stands
    for the positive zero: for [y = 0] and [x < 0] the value is [PI], where
    the C function returns [-PI] for a negative zero [y]. *)
Definition atan2 (y x : R) : R :=
  if Rlt_dec 0 x then atan (y / x)
  else if Rlt_dec x 0 then
    (if Rle_dec 0 y then atan (y / x) + PI else atan (y / x) - PI)
  else if Rlt_dec 0 y then PI / 2
  else if Rlt_dec y 0 then - (PI / 2)
  else 0.

Definition differential_flat_estimated_rotation (a : Vector3d) (y : R)
    : Vector3d :=
  let alpha := v3_add a (Vector3d_ 0 0 9.81) in
  let xC := Vector3d_ (cos y) (sin y) 0 in
  let yC := Vector3d_ (- sin y) (cos y) 0 in
  let xB := normalized (cross yC alpha) in
  let yB := normalized (cross alpha xB) in
  let zB := cross xB yB in
  let R := Matrix3d_cols xB yB zB in
  let yaw := atan2 (R 1 0)%nat (R 0 0)%nat in
  let pitch :=
    atan2 (- R 2 0)%nat (sqrt ((R 2 1)%nat ^ 2 + (R 2 2)%nat ^ 2)) in
  let roll := atan2 (R 2 1)%nat (R 2 2)%nat in
  Vector3d_ roll pitch yaw.

(** * Definitions for the properties *)

(** ** Quantities of the specification *)

(** The angle of attack of a surface with offset angle [o] whose centroid
    moves at [(vx, vz)]: [o] minus the arctangent of the quotient [vz / vx],
    by cases on the quotient. *)
Definition angle_of_attack (o vx vz : R) : num :=
  if Req_dec_T vx 0 then
    if Rlt_dec 0 vz then inj (o - PI / 2)
    else if Rlt_dec vz 0 then inj (o + PI / 2)
    else undef
  else inj (o - atan (vz / vx)).

(** The magnitude of the force on a surface of area [S] that moves at
    [(vx, vz)] under the angle of attack [a]:
    1/2 rho |v|^2 S (Cl + Cd) with rho = 1.225,
    Cl = 2 sin(a) cos(a) and Cd = 2 sin^2(a). *)
Definition force_magnitude (vx vz S a : R) : R :=
  0.5 * 1.225 * (vx ^ 2 + vz ^ 2) * S * (2 * sin a * cos a + 2 * sin a ^ 2).

(** Entry [j] of knot [i] of a decision vector: [j < 7] for the state,
    [j = 7] for the control. *)
Definition knot (x : list R) (i j : nat) : R := nth (j + 8 * i) x 0.

Definition state (x : list R) (i : nat) : list R :=
  [knot x i 0; knot x i 1; knot x i 2; knot x i 3;
   knot x i 4; knot x i 5; knot x i 6].

Definition control (x : list R) (i : nat) : R := knot x i 7.

(** The dynamics model at knot [i]. *)
Definition deriv (fpgm : fpgm_param) (x : list R) (i : nat) : VectorXd :=
  fpgm_dynamics (knot x i 0) (knot x i 1) (knot x i 2) (knot x i 3)
    (knot x i 4) (knot x i 5) (knot x i 6) (control x i) fpgm.

(** The trapezoidal defect of the pair of knots [(i, i+1)], component by
    component:
    state(i)_j - state(i+1)_j + (h/2) (deriv(i)_j + deriv(i+1)_j). *)
Definition defect_component (fpgm : fpgm_param) (x : list R) (i j : nat)
    : num :=
  (inj (knot x i j) - inj (knot x (i + 1) j)
   + inj (fpgm_param.h fpgm / 2)
     * (nth j (deriv fpgm x i) undef + nth j (deriv fpgm x (i + 1)) undef))%num.

Definition defect (fpgm : fpgm_param) (x : list R) (i : nat) : VectorXd :=
  map (defect_component fpgm x i) (seq 0 7).

(** The bounds of the six box pairs of a knot, in the order of the
    entries 2..7 they apply to. *)
Definition box_bounds (boundary : optimization_constrain) : list R :=
  [ optimization_constrain.t_c boundary; optimization_constrain.p_c boundary;
    optimization_constrain.v_c boundary; optimization_constrain.v_c boundary;
    optimization_constrain.td_c boundary; optimization_constrain.pd_c boundary ].

(** The quadratic form in the words of the specification:
    the double sum of [s_a Q(a,b) s_b]. *)
Definition spec_quadratic (Q : MatrixXd) (s : list R) : R :=
  sum_upto 7 (fun a => sum_upto 7 (fun b => nth a s 0 * Q a b * nth b s 0)).

(** The weight matrix is diagonal; its diagonal is non-negative; it is
    positive definite. *)
Definition diagonal (Q : MatrixXd) : Prop :=
  forall a b : nat, (a < 7)%nat -> (b < 7)%nat -> a <> b -> Q a b = 0.

Definition nonnegative_diagonal (Q : MatrixXd) : Prop :=
  forall c : nat, (c < 7)%nat -> 0 <= Q c c.

Definition positive_definite (Q : MatrixXd) : Prop :=
  forall s : list R,
    length s = 7%nat -> (exists c, (c < 7)%nat /\ nth c s 0 <> 0) ->
    0 < quadratic_form Q s.

(** What makes a call of the builder well formed for [N] knots: [n]
    doubles in [x], a multiple of 8, and at least one target in each of the
    two target sequences. *)
Definition well_formed (N : nat) (n : nat) (x : list R) (data : combined_param)
    : Prop :=
  n = length x /\ n = (8 * N)%nat /\ (1 <= N)%nat
  /\ optimization_constrain.ix (combined_param.oc data) <> []
  /\ optimization_constrain.iz (combined_param.oc data) <> [].

(** The anchor residuals of an array are all [<= 0]; the first knot is
    within [tau] of the targets on both axes. *)
Definition anchors_nonpositive (N : nat) (r : list num) : Prop :=
  Forall (fun v => (v <= inj 0)%num) (drop (26 * N) r).

Definition anchored_within (tau : R) (x : list R)
    (boundary : optimization_constrain) : Prop :=
  Rabs (nth 0 x 0 - nth 0 (optimization_constrain.ix boundary) 0) <= tau
  /\ Rabs (nth 1 x 0 - nth 0 (optimization_constrain.iz boundary) 0) <= tau.

(** The layout of the residual array: the pair of residuals for a quantity
    and a bound; the seven defect pairs and the six box pairs of a knot; the
    block of knot [i], 26 wide, whose first 14 cells keep what the array held
    when the knot has no successor; the anchor pairs; the blocks of the [N]
    knots followed by the anchors. *)
Definition pair_of (q bound : num) : list num :=
  [(- q - bound)%num; (q - bound)%num].

Definition dyn_block (fpgm : fpgm_param) (x : list R) (i : nat) : list num :=
  concat (map (fun j => pair_of (nth j (defect fpgm x i) undef) (inj 0.01))
              (seq 0 7)).

Definition box_block (boundary : optimization_constrain) (x : list R)
    (i : nat) : list num :=
  concat (map (fun b => pair_of (inj (knot x i (b + 2)))
                                (inj (nth b (box_bounds boundary) 0)))
              (seq 0 6)).

Definition knot_block (data : combined_param) (N : nat) (x : list R)
    (result : list num) (i : nat) : list num :=
  (if decide (i < N - 1)%nat
   then dyn_block (combined_param.fp data) x i
   else take 14 (drop (26 * i) result))
  ++ box_block (combined_param.oc data) x i.

Definition anchor_block (data : combined_param) (x : list R) : list num :=
  pair_of (inj (knot x 0 0))
          (inj (nth 0 (optimization_constrain.ix (combined_param.oc data)) 0))
  ++ pair_of (inj (knot x 0 1))
             (inj (nth 0 (optimization_constrain.iz (combined_param.oc data)) 0)).

Definition residual_layout (data : combined_param) (N : nat) (x : list R)
    (result : list num) : list num :=
  concat (map (knot_block data N x result) (seq 0 N)) ++ anchor_block data x.

(** ** Closed forms of the arrays and values the code computes *)

(** The array after the two stores of [set_bounded_constrains]. *)
Definition set_pair (result : list num) (index : nat) (x bound : num)
    : list num :=
  <[(index + 1)%nat := (x - bound)%num]> (<[index := (- x - bound)%num]> result).

(** The array after the seven pairs of the defect, after the six box pairs
    of a knot, and after the whole pass for knot [i]. *)
Definition dyn_pure (srv : VectorXd) (i : nat) (r : list num) : list num :=
  fold_left
    (fun r j => set_pair r (j*2 + i*26) (nth j srv undef) (inj 0.01))
    (seq 0 7) r.

Definition box_pure (boundary : optimization_constrain) (x : list R)
    (i : nat) (r : list num) : list num :=
  fold_left
    (fun r b =>
       set_pair r (2*b + 14 + i*26) (inj (knot x i (b + 2)))
                (inj (nth b (box_bounds boundary) 0)))
    (seq 0 6) r.

Definition knot_pure (fpgm : fpgm_param) (boundary : optimization_constrain)
    (state_input_length : nat) (x : list R) (i : nat) (r : list num)
    : list num :=
  box_pure boundary x i
    (if decide (i < state_input_length - 1)%nat
     then dyn_pure (defect fpgm x i) i r else r).

(** The array after the passes for the knots [i, ..., i + count - 1]. *)
Definition knots_pure (fpgm : fpgm_param) (boundary : optimization_constrain)
    (state_input_length : nat) (x : list R) (i count : nat) (r : list num)
    : list num :=
  fold_left (fun r i => knot_pure fpgm boundary state_input_length x i r)
            (seq i count) r.

(** The residual array the builder leaves, for a decision vector [x] and
    an array [result] that can hold it. *)
Definition residuals (data : combined_param) (x : list R) (result : list num)
    : list num :=
  let fpgm := combined_param.fp data in
  let boundary := combined_param.oc data in
  let N := (length x / 8)%nat in
  let r := knots_pure fpgm boundary N x 0 N result in
  let r :=
    set_pair r (0 + N*26) (inj (nth 0 x 0))
      (inj (nth 0 (optimization_constrain.ix boundary) 0)) in
  set_pair r (2 + N*26) (inj (nth 1 x 0))
    (inj (nth 0 (optimization_constrain.iz boundary) 0)).

(** The cost of knot [i] as the evaluator accumulates it. *)
Definition knot_cost (fpgm : fpgm_param) (x : list R) (i : nat) : R :=
  quadratic_form (fpgm_param.Q fpgm) (state x i)
  + control x i * fpgm_param.R fpgm * control x i.

(** The value the evaluator returns for [N] knots: [cost * factor +
    1E6 * start_constrain] after the loop. *)
Definition cost_value (data : combined_param) (N : nat) (x : list R) : R :=
  let fpgm := combined_param.fp data in
  let boundary := combined_param.oc data in
  sum_upto N (knot_cost fpgm x) * fpgm_param.h fpgm
  + 1e6 * (Rabs (nth 0 x 0 - nth 0 (optimization_constrain.ix boundary) 0)
           + Rabs (nth 1 x 0 - nth 0 (optimization_constrain.iz boundary) 0)).

(** ** Data for the concrete evaluations *)

(** A glider for the concrete evaluations: unit lengths, areas, mass and
    inertia, timestep 1, identity weight matrix and unit control weight. *)
Definition unit_glider : fpgm_param :=
  fpgm_param.mk 1 1 1 1 1 1 1 1 (fun a b => if (a =? b)%nat then 1 else 0) 1.

(** A positive-definite weight matrix that is not diagonal: 4 on the
    diagonal, -1 between pitch and elevator angle. *)
Definition coupled_weights : MatrixXd :=
  fun a b =>
    if (a =? b)%nat then 4
    else if ((a =? 2) && (b =? 3) || (a =? 3) && (b =? 2))%nat%bool then -1
    else 0.

(** The unit glider with the coupled weight matrix, and with a negative
    timestep. *)
Definition coupled_glider : fpgm_param :=
  fpgm_param.mk 1 1 1 1 1 1 1 1 coupled_weights 1.

Definition reversed_glider : fpgm_param :=
  fpgm_param.mk 1 1 1 1 1 1 1 (-1) (fpgm_param.Q unit_glider) 1.

(** A boundary specification with zero bounds and the given targets, and
    an object over the unit glider that holds no guess yet. *)
Definition targets (ix iz : list R) : optimization_constrain :=
  optimization_constrain.mk 0 0 0 0 0 ix iz.

Definition fresh_object : fpgm_collocation :=
  fpgm_collocation.mk unit_glider (targets [0] [1]) 0 [].

(** A decision vector of one knot, all zero. *)
Definition one_knot : list R := replicate 8 0.

(** The unit glider with a timestep of one millisecond, and bounds that
    admit a unit velocity and nothing else, with the targets (0, 0). *)
Definition fine_glider : fpgm_param :=
  fpgm_param.mk 1 1 1 1 1 1 1 0.001 (fpgm_param.Q unit_glider) 1.

Definition cruise_bounds : optimization_constrain :=
  optimization_constrain.mk 1 0 0 0 0 [0] [0].

(** A decision vector of one knot whose position is (-1, -1). *)
Definition on_target_knot : list R := [-1; -1; 0; 0; 0; 0; 0; 0].

(** A decision vector of two knots, all zero except the horizontal
    velocities, both 1. *)
Definition two_knots : list R :=
  [0; 0; 0; 0; 1; 0; 0; 0;  0; 0; 0; 0; 1; 0; 0; 0].

(** An array of [k] cells that hold no number yet. *)
Definition blank (k : nat) : list num := replicate k undef.

(** ** Definitions for the further properties *)

(** A residual that the solver counts as satisfied, and an array of such
    residuals. *)
Definition nonpositive (v : num) : Prop := (v <= inj 0)%num.

Definition all_nonpositive (r : list num) : Prop := Forall nonpositive r.

(** The weight matrix never gives a negative state term. *)
Definition positive_semidefinite (Q : MatrixXd) : Prop :=
  forall s : list R, length s = 7%nat -> 0 <= quadratic_form Q s.

(** The six sequences the driver returns for [K] knots of a solved
    vector [x]: entries 0..5 of each knot, in knot order. *)
Definition decoded (x : list R) (K : nat) : control_state :=
  control_state.mk
    (map (fun i => knot x i 0) (seq 0 K)) (map (fun i => knot x i 1) (seq 0 K))
    (map (fun i => knot x i 2) (seq 0 K)) (map (fun i => knot x i 3) (seq 0 K))
    (map (fun i => knot x i 4) (seq 0 K)) (map (fun i => knot x i 5) (seq 0 K)).

(** * Properties *)

(** ** Numbers *)


Lemma nadd_undef_r (a : num) : (a + undef)%num = undef.
Proof. now destruct a. Qed.

Lemma nsub_undef_r (a : num) : (a - undef)%num = undef.
Proof. now destruct a. Qed.

Lemma nmul_undef_r (a : num) : (a * undef)%num = undef.
Proof. now destruct a. Qed.

Lemma ndiv_undef_l (b : num) : (undef / b)%num = undef.
Proof. reflexivity. Qed.

Lemma ndiv_nonzero (u v : R) : v <> 0 -> (inj u / inj v)%num = inj (u / v).
Proof.
  intros Hv. cbn [ndiv].
  destruct (Req_dec_T v 0) as [He|_]; [now contradict Hv|reflexivity].
Qed.

Lemma ndiv_zero_zero : (inj 0 / inj 0)%num = undef.
Proof.
  cbn [ndiv]. destruct (Req_dec_T 0 0) as [_|Hne]; [|now contradict Hne].
  destruct (Rlt_dec 0 0) as [H|_]; [lra|].
  destruct (Rlt_dec 0 0) as [H|_]; [lra|reflexivity].
Qed.

(** A quotient by zero is never a finite value. *)
Lemma ndiv_by_zero (a : num) (q : R) : (a / inj 0)%num <> inj q.
Proof.
  destruct a as [u| | |]; cbn [ndiv]; try discriminate.
  - destruct (Req_dec_T 0 0) as [_|Hne]; [|now contradict Hne].
    destruct (Rlt_dec 0 u); [discriminate|].
    destruct (Rlt_dec u 0); discriminate.
  - destruct (Rlt_dec 0 0); discriminate.
  - destruct (Rlt_dec 0 0); discriminate.
Qed.

(** The two-sided pair [- x - bound <= 0] and [x - bound <= 0] holds exactly
    when [|x| <= bound]; it fails when [x] is infinite or not-a-number. *)
Lemma bounded_pair_iff (x : num) (bound : R) :
  ((- x - bound <= inj 0)%num /\ (x - bound <= inj 0)%num)
  <-> (nabs x <= bound)%num.
Proof.
  destruct x as [u| | |]; cbn; try tauto.
  unfold Rabs. destruct (Rcase_abs u); lra.
Qed.

(** ** The dynamics model *)

Lemma angle_of_attack_quotient (o vx vz : R) :
  (inj o - natan (inj vz / inj vx))%num = angle_of_attack o vx vz.
Proof.
  unfold angle_of_attack. cbn [ndiv].
  destruct (Req_dec_T vx 0) as [_|_]; [|reflexivity].
  destruct (Rlt_dec 0 vz) as [_|_]; [reflexivity|].
  destruct (Rlt_dec vz 0) as [_|_]; [|reflexivity].
  cbn. f_equal. lra.
Qed.

Lemma angle_of_attack_cases (o vx vz : R) :
  (exists a : R, angle_of_attack o vx vz = inj a)
  \/ (angle_of_attack o vx vz = undef /\ vx = 0 /\ vz = 0).
Proof.
  unfold angle_of_attack.
  destruct (Req_dec_T vx 0) as [Hx|_]; [|left; eexists; reflexivity].
  destruct (Rlt_dec 0 vz) as [_|Hp]; [left; eexists; reflexivity|].
  destruct (Rlt_dec vz 0) as [_|Hn]; [left; eexists; reflexivity|].
  right. repeat split; [exact Hx | lra].
Qed.

Lemma angle_of_attack_undef (o vx vz : R) :
  angle_of_attack o vx vz = undef <-> vx = 0 /\ vz = 0.
Proof.
  unfold angle_of_attack. split.
  - destruct (Req_dec_T vx 0) as [Hx|_]; [|discriminate].
    destruct (Rlt_dec 0 vz) as [_|Hp]; [discriminate|].
    destruct (Rlt_dec vz 0) as [_|Hn]; [discriminate|].
    intros _. split; [exact Hx | lra].
  - intros [-> ->].
    destruct (Req_dec_T 0 0) as [_|Hne]; [|now contradict Hne].
    destruct (Rlt_dec 0 0) as [H|_]; [lra|].
    destruct (Rlt_dec 0 0) as [H|_]; [lra|reflexivity].
Qed.

Lemma x_w_dot_value (parameter : fpgm_param) (theta xdot zdot thetadot : R) :
  x_w_dot parameter theta xdot zdot thetadot =
    (inj (xdot + fpgm_param.l_w parameter * thetadot * sin theta),
     inj (zdot - fpgm_param.l_w parameter * thetadot * cos theta)).
Proof. reflexivity. Qed.

Lemma x_e_dot_value (parameter : fpgm_param)
    (theta phi xdot zdot thetadot phidot : R) :
  x_e_dot parameter theta phi xdot zdot thetadot phidot =
    (inj (xdot + fpgm_param.l parameter * thetadot * sin theta
          + fpgm_param.l_e parameter * (thetadot + phidot) * sin (theta + phi)),
     inj (zdot - fpgm_param.l parameter * thetadot * cos theta
          - fpgm_param.l_e parameter * (thetadot + phidot) * cos (theta + phi))).
Proof. reflexivity. Qed.

Lemma alpha_w_value (parameter : fpgm_param) (theta xdot zdot thetadot : R) :
  alpha_w parameter theta xdot zdot thetadot =
    angle_of_attack theta
      (xdot + fpgm_param.l_w parameter * thetadot * sin theta)
      (zdot - fpgm_param.l_w parameter * thetadot * cos theta).
Proof.
  unfold alpha_w. cbv zeta. rewrite x_w_dot_value. cbn [fst snd].
  apply angle_of_attack_quotient.
Qed.

Lemma alpha_e_value (parameter : fpgm_param)
    (theta phi xdot zdot thetadot phidot : R) :
  alpha_e parameter theta phi xdot zdot thetadot phidot =
    angle_of_attack (theta + phi)
      (xdot + fpgm_param.l parameter * thetadot * sin theta
       + fpgm_param.l_e parameter * (thetadot + phidot) * sin (theta + phi))
      (zdot - fpgm_param.l parameter * thetadot * cos theta
       - fpgm_param.l_e parameter * (thetadot + phidot) * cos (theta + phi)).
Proof.
  unfold alpha_e. cbv zeta. rewrite x_e_dot_value. cbn [fst snd].
  apply (angle_of_attack_quotient (theta + phi)).
Qed.

Lemma force_w_value (parameter : fpgm_param)
    (theta xdot zdot thetadot a : R) :
  alpha_w parameter theta xdot zdot thetadot = inj a ->
  let F :=
    force_magnitude
      (xdot + fpgm_param.l_w parameter * thetadot * sin theta)
      (zdot - fpgm_param.l_w parameter * thetadot * cos theta)
      (fpgm_param.s_w parameter) a in
  force_w parameter theta xdot zdot thetadot
    = (inj (F * - sin theta), inj (F * cos theta)).
Proof.
  intros Ha F. unfold force_w. cbv zeta. rewrite Ha, x_w_dot_value.
  reflexivity.
Qed.

Lemma force_e_value (parameter : fpgm_param)
    (theta phi xdot zdot thetadot phidot a : R) :
  alpha_e parameter theta phi xdot zdot thetadot phidot = inj a ->
  let F :=
    force_magnitude
      (xdot + fpgm_param.l parameter * thetadot * sin theta
       + fpgm_param.l_e parameter * (thetadot + phidot) * sin (theta + phi))
      (zdot - fpgm_param.l parameter * thetadot * cos theta
       - fpgm_param.l_e parameter * (thetadot + phidot) * cos (theta + phi))
      (fpgm_param.s_e parameter) a in
  force_e parameter theta phi xdot zdot thetadot phidot
    = (inj (F * - sin (theta + phi)), inj (F * cos (theta + phi))).
Proof.
  intros Ha F. unfold force_e. cbv zeta. rewrite Ha, x_e_dot_value.
  reflexivity.
Qed.

Lemma force_undefined (s : num) (alpha : num) (n : Vector2d) :
  alpha = undef ->
  v2_scale (s * (cl alpha + cd alpha))%num n = (undef, undef).
Proof.
  intros ->. unfold v2_scale.
  replace (cl undef + cd undef)%num with undef by reflexivity.
  now rewrite nmul_undef_r.
Qed.

Lemma fpgm_dynamics_undefined
    (x z theta phi xdot zdot thetadot phidot : R) (parameter : fpgm_param) :
  alpha_w parameter theta xdot zdot thetadot = undef \/
  alpha_e parameter theta phi xdot zdot thetadot phidot = undef ->
  fpgm_dynamics x z theta phi xdot zdot thetadot phidot parameter =
    [inj xdot; inj zdot; inj thetadot; inj phidot; undef; undef; undef].
Proof.
  intros H. unfold fpgm_dynamics, pos_dotdot, theta_dotdot. cbv zeta.
  destruct H as [H|H].
  - unfold force_w. cbv zeta. rewrite (force_undefined _ _ _ H).
    unfold two_d_cross, v2_div, v2_sub, v2_add, Vector2d_. cbn [fst snd].
    repeat rewrite nmul_undef_r. reflexivity.
  - unfold force_e. cbv zeta. rewrite (force_undefined _ _ _ H).
    unfold two_d_cross, v2_div, v2_sub, v2_add, Vector2d_. cbn [fst snd].
    repeat rewrite nmul_undef_r. repeat rewrite nadd_undef_r.
    repeat rewrite nsub_undef_r. reflexivity.
Qed.

Lemma fpgm_dynamics_value
    (x z theta phi xdot zdot thetadot phidot a_w a_e : R)
    (parameter : fpgm_param) :
  alpha_w parameter theta xdot zdot thetadot = inj a_w ->
  alpha_e parameter theta phi xdot zdot thetadot phidot = inj a_e ->
  let l_w := fpgm_param.l_w parameter in
  let l_e := fpgm_param.l_e parameter in
  let l := fpgm_param.l parameter in
  let mass := fpgm_param.mass parameter in
  let F_w :=
    force_magnitude (xdot + l_w * thetadot * sin theta)
      (zdot - l_w * thetadot * cos theta) (fpgm_param.s_w parameter) a_w in
  let F_e :=
    force_magnitude
      (xdot + l * thetadot * sin theta
       + l_e * (thetadot + phidot) * sin (theta + phi))
      (zdot - l * thetadot * cos theta
       - l_e * (thetadot + phidot) * cos (theta + phi))
      (fpgm_param.s_e parameter) a_e in
  let F_x := F_w * - sin theta + F_e * - sin (theta + phi) in
  let F_z := F_w * cos theta + F_e * cos (theta + phi) in
  let torque :=
    l_w * (F_w * cos theta) - 0 * (F_w * - sin theta)
    + ((- l - l_e * cos theta) * (F_e * cos (theta + phi))
       - (- l + l_e * sin theta) * (F_e * - sin (theta + phi))) in
  fpgm_dynamics x z theta phi xdot zdot thetadot phidot parameter =
    [ inj xdot; inj zdot; inj thetadot; inj phidot;
      (inj (F_x - 0) / inj mass)%num;
      (inj (F_z - mass * 9.81) / inj mass)%num;
      (inj torque / inj (fpgm_param.I parameter))%num ].
Proof.
  intros Hw He l_w l_e l mass F_w F_e F_x F_z torque.
  unfold fpgm_dynamics, pos_dotdot, theta_dotdot. cbv zeta.
  rewrite (force_w_value _ _ _ _ _ _ Hw), (force_e_value _ _ _ _ _ _ _ _ He).
  reflexivity.
Qed.

(** C3.  For every state, control and parameters the dynamics model returns
    the vector [xdot, zdot, thetadot, phidot, xdotdot, zdotdot, thetadotdot].
    With [a_w] and [a_e] the angles of attack of the two surfaces,
    component 3 is the control input itself, components 4 and 5 are
    (F_w + F_e - (0, mass * 9.81)) / mass, where the force of a surface is
    1/2 * 1.225 * |v|^2 * S * (2 sin(a) cos(a) + 2 sin^2(a)) along the unit
    normal (-sin, cos) of that surface, and component 6 is the sum of the
    two-dimensional cross products of the moment arms with the two forces,
    divided by the moment of inertia; these are quotients of reals when the
    mass and the moment of inertia are not zero.  When an angle of attack
    is not a number, neither are the three accelerations. *)
Theorem fpgm_dynamics_vector
    (x z theta phi xdot zdot thetadot phidot : R) (parameter : fpgm_param) :
  let l_w := fpgm_param.l_w parameter in
  let l_e := fpgm_param.l_e parameter in
  let l := fpgm_param.l parameter in
  let mass := fpgm_param.mass parameter in
  let inertia := fpgm_param.I parameter in
  let vwx := xdot + l_w * thetadot * sin theta in
  let vwz := zdot - l_w * thetadot * cos theta in
  let vex :=
    xdot + l * thetadot * sin theta
    + l_e * (thetadot + phidot) * sin (theta + phi) in
  let vez :=
    zdot - l * thetadot * cos theta
    - l_e * (thetadot + phidot) * cos (theta + phi) in
  (forall a_w a_e : R,
     angle_of_attack theta vwx vwz = inj a_w ->
     angle_of_attack (theta + phi) vex vez = inj a_e ->
     let F_w := force_magnitude vwx vwz (fpgm_param.s_w parameter) a_w in
     let F_e := force_magnitude vex vez (fpgm_param.s_e parameter) a_e in
     let F_x := F_w * - sin theta + F_e * - sin (theta + phi) in
     let F_z := F_w * cos theta + F_e * cos (theta + phi) in
     let torque :=
       l_w * (F_w * cos theta) - 0 * (F_w * - sin theta)
       + ((- l - l_e * cos theta) * (F_e * cos (theta + phi))
          - (- l + l_e * sin theta) * (F_e * - sin (theta + phi))) in
     fpgm_dynamics x z theta phi xdot zdot thetadot phidot parameter =
       [ inj xdot; inj zdot; inj thetadot; inj phidot;
         (inj (F_x - 0) / inj mass)%num;
         (inj (F_z - mass * 9.81) / inj mass)%num;
         (inj torque / inj inertia)%num ]
     /\ (mass <> 0 -> inertia <> 0 ->
         fpgm_dynamics x z theta phi xdot zdot thetadot phidot parameter =
           map inj
             [ xdot; zdot; thetadot; phidot;
               (F_x - 0) / mass; (F_z - mass * 9.81) / mass;
               torque / inertia ]))
  /\ (angle_of_attack theta vwx vwz = undef
      \/ angle_of_attack (theta + phi) vex vez = undef ->
      fpgm_dynamics x z theta phi xdot zdot thetadot phidot parameter =
        [inj xdot; inj zdot; inj thetadot; inj phidot; undef; undef; undef])
  /\ (- sin theta) ^ 2 + cos theta ^ 2 = 1
  /\ (- sin (theta + phi)) ^ 2 + cos (theta + phi) ^ 2 = 1.
Proof.
  intros l_w l_e l mass inertia vwx vwz vex vez.
  split; [|split; [|split]].
  - intros a_w a_e Hw He F_w F_e F_x F_z torque.
    assert (Hw' : alpha_w parameter theta xdot zdot thetadot = inj a_w)
      by (rewrite alpha_w_value; exact Hw).
    assert (He' : alpha_e parameter theta phi xdot zdot thetadot phidot
                  = inj a_e)
      by (rewrite alpha_e_value; exact He).
    pose proof (fpgm_dynamics_value x z theta phi xdot zdot thetadot phidot
                  a_w a_e parameter Hw' He') as Hd.
    cbv zeta in Hd. split; [exact Hd|].
    intros Hm Hi. rewrite Hd. cbn [map].
    fold l_w l_e l mass inertia vwx vwz vex vez F_w F_e F_x F_z.
    rewrite !ndiv_nonzero by assumption. reflexivity.
  - intros H. apply fpgm_dynamics_undefined.
    rewrite alpha_w_value, alpha_e_value. exact H.
  - pose proof (sin2_cos2 theta) as H. unfold Rsqr in H. lra.
  - pose proof (sin2_cos2 (theta + phi)) as H. unfold Rsqr in H. lra.
Qed.

Ltac list_of_numbers :=
  repeat match goal with
         | |- _ :: _ = _ :: _ => f_equal
         | |- inj _ = inj _ => apply f_equal
         end;
  try reflexivity; lra.

(** The unit glider in level flight at unit speed: the angles of attack
    vanish, no force acts but the weight. *)
Lemma fpgm_dynamics_level_flight :
  fpgm_dynamics 0 0 0 0 1 0 0 0 unit_glider =
    [inj 1; inj 0; inj 0; inj 0; inj 0; inj (-9.81); inj 0].
Proof.
  assert (Hw : alpha_w unit_glider 0 1 0 0 = inj 0).
  { rewrite alpha_w_value. unfold angle_of_attack.
    cbn [unit_glider fpgm_param.l_w].
    destruct (Req_dec_T _ 0) as [E|_]; [exfalso; rewrite sin_0 in E; lra|].
    f_equal. rewrite sin_0, cos_0.
    replace ((0 - 1 * 0 * 1) / (1 + 1 * 0 * 0)) with 0 by (field; lra).
    rewrite atan_0. lra. }
  assert (He : alpha_e unit_glider 0 0 1 0 0 0 = inj 0).
  { rewrite alpha_e_value. unfold angle_of_attack.
    cbn [unit_glider fpgm_param.l fpgm_param.l_e].
    replace (0 + 0) with 0 by lra.
    destruct (Req_dec_T _ 0) as [E|_]; [exfalso; rewrite sin_0 in E; lra|].
    f_equal. rewrite sin_0, cos_0.
    match goal with
    | |- context [atan ?q] => replace q with 0 by (field; lra)
    end.
    rewrite atan_0. lra. }
  rewrite (fpgm_dynamics_value 0 0 0 0 1 0 0 0 0 0 unit_glider Hw He).
  cbv zeta. cbn [unit_glider fpgm_param.l_w fpgm_param.l_e fpgm_param.l
                 fpgm_param.s_w fpgm_param.s_e fpgm_param.mass fpgm_param.I].
  rewrite !ndiv_nonzero by lra. unfold force_magnitude.
  replace (0 + 0) with 0 by lra. rewrite sin_0, cos_0.
  list_of_numbers.
Qed.

(** The unit glider moving straight up at unit speed: both horizontal
    centroid velocities are zero, both quotients are [+infinity], and both
    angles of attack are a quarter turn below the offset angle. *)
Lemma alpha_w_straight_up : alpha_w unit_glider 0 0 1 0 = inj (0 - PI / 2).
Proof.
  rewrite alpha_w_value. unfold angle_of_attack.
  cbn [unit_glider fpgm_param.l_w]. rewrite sin_0, cos_0.
  destruct (Req_dec_T _ 0) as [_|Hne]; [|exfalso; lra].
  destruct (Rlt_dec 0 _) as [_|Hn]; [reflexivity | exfalso; lra].
Qed.

Lemma alpha_e_straight_up :
  alpha_e unit_glider 0 0 0 1 0 0 = inj (0 + 0 - PI / 2).
Proof.
  rewrite alpha_e_value. unfold angle_of_attack.
  cbn [unit_glider fpgm_param.l fpgm_param.l_e].
  replace (sin (0 + 0)) with 0 by (replace (0 + 0) with 0 by lra; now rewrite sin_0).
  replace (cos (0 + 0)) with 1 by (replace (0 + 0) with 0 by lra; now rewrite cos_0).
  rewrite sin_0, cos_0.
  destruct (Req_dec_T _ 0) as [_|Hne]; [|exfalso; lra].
  destruct (Rlt_dec 0 _) as [_|Hn]; [reflexivity | exfalso; lra].
Qed.

Lemma force_magnitude_quarter_turn (vx vz a : R) :
  vx = 0 -> vz = 1 -> a = - (PI / 2) -> force_magnitude vx vz 1 a = 1.225.
Proof.
  intros -> -> ->. unfold force_magnitude.
  rewrite sin_neg, cos_neg, sin_PI2, cos_PI2. lra.
Qed.

Ltac straight_up_numbers :=
  cbn [unit_glider fpgm_param.l_w fpgm_param.l_e fpgm_param.l
       fpgm_param.s_w fpgm_param.s_e fpgm_param.mass fpgm_param.I];
  replace (0 + 0) with 0 by lra; rewrite ?sin_0, ?cos_0;
  rewrite !force_magnitude_quarter_turn by lra.

Lemma fpgm_dynamics_straight_up :
  fpgm_dynamics 0 0 0 0 0 1 0 0 unit_glider =
    [inj 0; inj 1; inj 0; inj 0; inj 0; inj (-7.36); inj (-1.225)].
Proof.
  rewrite (fpgm_dynamics_value 0 0 0 0 0 1 0 0 _ _ unit_glider
             alpha_w_straight_up alpha_e_straight_up).
  cbv zeta. straight_up_numbers.
  rewrite !ndiv_nonzero by lra.
  list_of_numbers.
Qed.

Lemma fpgm_dynamics_vector_witness :
  fpgm_dynamics 0 0 0 0 0 1 0 0 unit_glider =
    map inj [0; 1; 0; 0; 0; -7.36; -1.225].
Proof.
  destruct (fpgm_dynamics_vector 0 0 0 0 0 1 0 0 unit_glider)
    as (Hvalue & _).
  cbv zeta in Hvalue.
  destruct (Hvalue (0 - PI / 2) (0 + 0 - PI / 2)) as [_ Hreal].
  - rewrite <- alpha_w_value. exact alpha_w_straight_up.
  - rewrite <- alpha_e_value. exact alpha_e_straight_up.
  - rewrite Hreal by (cbn; lra). straight_up_numbers.
    cbn [map]. list_of_numbers.
Defined.

(** C10.  The dynamics model does not depend on the position states: two
    inputs that differ only in [x] and [z] have the same derivative
    vector.  The centroid positions [x_w] and [x_e] are computed and never
    used. *)
Theorem fpgm_dynamics_translation_invariant
    (x z x' z' theta phi xdot zdot thetadot phidot : R)
    (parameter : fpgm_param) :
  fpgm_dynamics x z theta phi xdot zdot thetadot phidot parameter =
  fpgm_dynamics x' z' theta phi xdot zdot thetadot phidot parameter.
Proof. unfold fpgm_dynamics. reflexivity. Qed.

Lemma atan_opp_quotient (vx vz : R) :
  vx <> 0 -> atan (- vz / - vx) = atan (vz / vx).
Proof. intros Hx. f_equal. field. exact Hx. Qed.

Lemma angle_of_attack_reversed (o vx vz : R) :
  vx <> 0 -> angle_of_attack o (- vx) (- vz) = angle_of_attack o vx vz.
Proof.
  intros Hx. unfold angle_of_attack.
  destruct (Req_dec_T (- vx) 0) as [E|_]; [exfalso; lra|].
  destruct (Req_dec_T vx 0) as [E|_]; [contradiction|].
  now rewrite atan_opp_quotient.
Qed.

Lemma lift_drag_value (a : R) :
  (cl (inj a) + cd (inj a))%num = inj (2 * sin a * cos a + 2 * sin a ^ 2).
Proof. reflexivity. Qed.

(** The sum of the two coefficients has the period [PI] in the angle of
    attack. *)
Lemma lift_drag_half_turn (a : R) :
  2 * sin (a + PI) * cos (a + PI) + 2 * sin (a + PI) ^ 2
  = 2 * sin a * cos a + 2 * sin a ^ 2.
Proof. rewrite neg_sin, neg_cos. ring. Qed.

(** C8 (amended).  The angle of attack of each surface is the offset angle
    minus the one-argument arctangent of the quotient (vertical component)
    / (horizontal component) of the velocity of the surface's centroid, and
    nothing guards the division.  With a non-zero horizontal component the
    quotient is a real number and the quadrant is lost: the reversed motion
    has the same angle of attack.  With a zero horizontal component and a
    non-zero vertical one the quotient is an infinity, and the angle of
    attack is still a number: the offset angle minus or plus a quarter
    turn (which of the two is decided by the sign of the infinity; both
    give the same sum of the lift and drag coefficients).  Only when both
    components are zero is the quotient, and with it the angle of attack
    and the three accelerations, not a number. *)
Theorem angle_of_attack_division_unguarded
    (theta phi xdot zdot thetadot phidot : R) (parameter : fpgm_param) :
  let l_w := fpgm_param.l_w parameter in
  let l_e := fpgm_param.l_e parameter in
  let l := fpgm_param.l parameter in
  let vwx := xdot + l_w * thetadot * sin theta in
  let vwz := zdot - l_w * thetadot * cos theta in
  let vex :=
    xdot + l * thetadot * sin theta
    + l_e * (thetadot + phidot) * sin (theta + phi) in
  let vez :=
    zdot - l * thetadot * cos theta
    - l_e * (thetadot + phidot) * cos (theta + phi) in
  let a_w := alpha_w parameter theta xdot zdot thetadot in
  let a_e := alpha_e parameter theta phi xdot zdot thetadot phidot in
  (vwx <> 0 ->
   a_w = inj (theta - atan (vwz / vwx))
   /\ alpha_w parameter theta (- xdot) (- zdot) (- thetadot) = a_w)
  /\ (vex <> 0 ->
      a_e = inj (theta + phi - atan (vez / vex))
      /\ alpha_e parameter theta phi (- xdot) (- zdot) (- thetadot) (- phidot)
         = a_e)
  /\ (vwx = 0 -> vwz <> 0 ->
      a_w = inj (theta - PI / 2) \/ a_w = inj (theta + PI / 2))
  /\ (vex = 0 -> vez <> 0 ->
      a_e = inj (theta + phi - PI / 2) \/ a_e = inj (theta + phi + PI / 2))
  /\ (forall o : R,
        (cl (inj (o - PI / 2)) + cd (inj (o - PI / 2)))%num
        = (cl (inj (o + PI / 2)) + cd (inj (o + PI / 2)))%num)
  /\ (vwx = 0 -> vwz = 0 -> a_w = undef)
  /\ (vex = 0 -> vez = 0 -> a_e = undef)
  /\ (vwx = 0 /\ vwz = 0 \/ vex = 0 /\ vez = 0 ->
      forall x z : R,
        fpgm_dynamics x z theta phi xdot zdot thetadot phidot parameter =
          [inj xdot; inj zdot; inj thetadot; inj phidot; undef; undef; undef]).
Proof.
  intros l_w l_e l vwx vwz vex vez a_w a_e.
  assert (Hw : a_w = angle_of_attack theta vwx vwz)
    by apply alpha_w_value.
  assert (He : a_e = angle_of_attack (theta + phi) vex vez)
    by apply alpha_e_value.
  assert (Hcase : forall o vx vz : R,
            (vx <> 0 -> angle_of_attack o vx vz = inj (o - atan (vz / vx)))
            /\ (vx = 0 -> vz <> 0 ->
                angle_of_attack o vx vz = inj (o - PI / 2)
                \/ angle_of_attack o vx vz = inj (o + PI / 2))
            /\ (vx = 0 -> vz = 0 -> angle_of_attack o vx vz = undef)).
  { intros o vx vz. unfold angle_of_attack.
    destruct (Req_dec_T vx 0) as [Hx|Hx];
      [destruct (Rlt_dec 0 vz) as [Hp|Hp];
         [|destruct (Rlt_dec vz 0) as [Hn|Hn]]|];
      repeat split; intros;
      first [contradiction | exfalso; lra | reflexivity
            | left; reflexivity | right; reflexivity]. }
  destruct (Hcase theta vwx vwz) as (Hw1 & Hw2 & Hw3).
  destruct (Hcase (theta + phi) vex vez) as (He1 & He2 & He3).
  rewrite Hw, He.
  split.
  { intros Hx. split; [now apply Hw1|].
    rewrite alpha_w_value.
    replace (- xdot + fpgm_param.l_w parameter * - thetadot * sin theta)
      with (- vwx) by (unfold vwx, l_w; ring).
    replace (- zdot - fpgm_param.l_w parameter * - thetadot * cos theta)
      with (- vwz) by (unfold vwz, l_w; ring).
    now apply angle_of_attack_reversed. }
  split.
  { intros Hx. split; [now apply He1|].
    rewrite alpha_e_value.
    replace (- xdot + fpgm_param.l parameter * - thetadot * sin theta
             + fpgm_param.l_e parameter * (- thetadot + - phidot)
               * sin (theta + phi))
      with (- vex) by (unfold vex, l, l_e; ring).
    replace (- zdot - fpgm_param.l parameter * - thetadot * cos theta
             - fpgm_param.l_e parameter * (- thetadot + - phidot)
               * cos (theta + phi))
      with (- vez) by (unfold vez, l, l_e; ring).
    now apply angle_of_attack_reversed. }
  split; [exact Hw2|]. split; [exact He2|].
  split.
  { intros o. rewrite !lift_drag_value. f_equal.
    replace (o + PI / 2) with (o - PI / 2 + PI) by lra.
    symmetry. apply lift_drag_half_turn. }
  split; [exact Hw3|]. split; [exact He3|].
  intros H x z. apply fpgm_dynamics_undefined.
  fold a_w a_e. rewrite Hw, He.
  destruct H as [[H1 H2]|[H1 H2]]; [left; now apply Hw3 | right; now apply He3].
Qed.

Lemma angle_of_attack_division_unguarded_witness :
  (alpha_w unit_glider 0 1 0 0 = inj (0 - atan ((0 - 1 * 0 * cos 0)
                                                / (1 + 1 * 0 * sin 0)))
   /\ alpha_w unit_glider 0 (- 1) (- 0) (- 0) = alpha_w unit_glider 0 1 0 0)
  /\ (alpha_w unit_glider 0 0 1 0 = inj (0 - PI / 2)
      \/ alpha_w unit_glider 0 0 1 0 = inj (0 + PI / 2))
  /\ alpha_w unit_glider 0 0 0 0 = undef
  /\ fpgm_dynamics 0 0 0 0 0 0 0 0 unit_glider =
       [inj 0; inj 0; inj 0; inj 0; undef; undef; undef].
Proof.
  destruct (angle_of_attack_division_unguarded 0 0 1 0 0 0 unit_glider)
    as (Hlevel & _).
  destruct (angle_of_attack_division_unguarded 0 0 0 1 0 0 unit_glider)
    as (_ & _ & Hup & _).
  destruct (angle_of_attack_division_unguarded 0 0 0 0 0 0 unit_glider)
    as (_ & _ & _ & _ & _ & Hrest & _ & Hnan).
  cbv zeta in Hlevel, Hup, Hrest, Hnan.
  cbn [unit_glider fpgm_param.l_w fpgm_param.l_e fpgm_param.l]
    in Hlevel, Hup, Hrest, Hnan.
  rewrite sin_0, cos_0 in Hup, Hrest, Hnan.
  split; [apply Hlevel; rewrite sin_0; lra|].
  split; [apply Hup; lra|].
  split; [apply Hrest; lra|].
  apply Hnan. left. split; lra.
Defined.

(** C8 as stated fails for the unit glider that moves straight up: the
    horizontal component of the velocity of the wing centroid is zero, and
    the angle of attack is the number [- PI / 2]; the derivative has seven
    finite components. *)
Lemma angle_of_attack_counterexample :
  ~ (forall (theta xdot zdot thetadot : R) (parameter : fpgm_param),
       fst (x_w_dot parameter theta xdot zdot thetadot) = inj 0 ->
       alpha_w parameter theta xdot zdot thetadot = undef)
  /\ fst (x_w_dot unit_glider 0 0 1 0) = inj 0
  /\ alpha_w unit_glider 0 0 1 0 = inj (- (PI / 2))
  /\ fpgm_dynamics 0 0 0 0 0 1 0 0 unit_glider =
       [inj 0; inj 1; inj 0; inj 0; inj 0; inj (-7.36); inj (-1.225)].
Proof.
  assert (H0 : fst (x_w_dot unit_glider 0 0 1 0) = inj 0).
  { rewrite x_w_dot_value. cbn [fst unit_glider fpgm_param.l_w].
    f_equal. rewrite sin_0. lra. }
  assert (Ha : alpha_w unit_glider 0 0 1 0 = inj (- (PI / 2))).
  { rewrite alpha_w_straight_up. f_equal. lra. }
  split; [|split; [exact H0 | split; [exact Ha|]]].
  - intros Hclaim. specialize (Hclaim 0 0 1 0 unit_glider H0).
    rewrite Ha in Hclaim. discriminate.
  - apply fpgm_dynamics_straight_up.
Qed.

(** ** Array accesses *)

Lemma read_Some (x : list R) (k : nat) :
  (k < length x)%nat -> read x k = Some (nth k x 0).
Proof.
  intros Hk. unfold read. destruct (lookup_lt_is_Some_2 x k Hk) as [v Hv].
  rewrite Hv. f_equal. symmetry. now apply nth_lookup_Some.
Qed.

Lemma read_None (x : list R) (k : nat) :
  (length x <= k)%nat -> read x k = None.
Proof. intros Hk. unfold read. now apply lookup_ge_None_2. Qed.

Lemma store_length (result : list num) (index : nat) (v : num) (r : list num) :
  store result index v = Some r -> length r = length result.
Proof.
  unfold store. destruct (decide _); [|discriminate].
  intros [= <-]. apply length_insert.
Qed.

Lemma length_set_pair (result : list num) (index : nat) (x bound : num) :
  length (set_pair result index x bound) = length result.
Proof. unfold set_pair. now rewrite !length_insert. Qed.

Lemma set_bounded_constrains_Some
    (result : list num) (index : nat) (x bound : num) :
  (index + 1 < length result)%nat ->
  set_bounded_constrains result index x bound
    = Some (set_pair result index x bound).
Proof.
  intros Hi. unfold set_bounded_constrains, store.
  destruct (decide (index < length result)%nat) as [_|Hn]; [|lia].
  cbn [mbind option_bind]. rewrite length_insert.
  destruct (decide (index + 1 < length result)%nat) as [_|Hn]; [|lia].
  reflexivity.
Qed.

Lemma set_bounded_constrains_None
    (result : list num) (index : nat) (x bound : num) :
  (length result <= index + 1)%nat ->
  set_bounded_constrains result index x bound = None.
Proof.
  intros Hi. unfold set_bounded_constrains, store.
  destruct (decide (index < length result)%nat) as [_|Hn]; [|reflexivity].
  cbn [mbind option_bind]. rewrite length_insert.
  destruct (decide (index + 1 < length result)%nat) as [Hlt|_]; [lia|].
  reflexivity.
Qed.

Lemma set_bounded_constrains_length
    (result : list num) (index : nat) (x bound : num) (r : list num) :
  set_bounded_constrains result index x bound = Some r ->
  length r = length result.
Proof.
  unfold set_bounded_constrains. intros H.
  apply bind_Some in H as (r1 & H1 & H2).
  apply store_length in H1, H2. congruence.
Qed.

Lemma set_pair_lookup_lo (result : list num) (index : nat) (x bound : num) :
  (index + 1 < length result)%nat ->
  set_pair result index x bound !! index = Some (- x - bound)%num.
Proof.
  intros Hi. unfold set_pair.
  rewrite list_lookup_insert_ne by lia.
  apply list_lookup_insert_eq. lia.
Qed.

Lemma set_pair_lookup_hi (result : list num) (index : nat) (x bound : num) :
  (index + 1 < length result)%nat ->
  set_pair result index x bound !! (index + 1)%nat = Some (x - bound)%num.
Proof.
  intros Hi. unfold set_pair.
  apply list_lookup_insert_eq. rewrite length_insert. lia.
Qed.

Lemma set_pair_lookup_ne
    (result : list num) (index : nat) (x bound : num) (k : nat) :
  k <> index -> k <> (index + 1)%nat ->
  set_pair result index x bound !! k = result !! k.
Proof.
  intros H1 H2. unfold set_pair.
  now rewrite !list_lookup_insert_ne by lia.
Qed.

(** ** Loops *)

Lemma for_loop_fold {St : Type} (body : nat -> St -> option St)
    (step : St -> nat -> St) (P : nat -> St -> Prop) (count : nat) :
  forall (i : nat) (s : St),
    (forall k s, (i <= k < i + count)%nat -> P k s ->
                 body k s = Some (step s k) /\ P (S k) (step s k)) ->
    P i s ->
    for_loop i count body s = Some (fold_left step (seq i count) s)
    /\ P (i + count)%nat (fold_left step (seq i count) s).
Proof.
  induction count as [|count IH]; intros i s Hbody HP.
  - cbn. rewrite Nat.add_0_r. auto.
  - destruct (Hbody i s ltac:(lia) HP) as [Hb HP'].
    cbn [for_loop seq fold_left]. rewrite Hb. cbn [mbind option_bind].
    replace (i + S count)%nat with (S i + count)%nat by lia.
    apply IH; [|exact HP'].
    intros k s' Hk. apply Hbody. lia.
Qed.

Lemma for_loop_invariant {St : Type} (body : nat -> St -> option St)
    (P : St -> Prop) (count : nat) :
  forall (i : nat) (s s' : St),
    (forall k s s', body k s = Some s' -> P s -> P s') ->
    P s -> for_loop i count body s = Some s' -> P s'.
Proof.
  induction count as [|count IH]; intros i s s' Hbody HP Hrun.
  - cbn in Hrun. now injection Hrun as <-.
  - cbn [for_loop] in Hrun. apply bind_Some in Hrun as (s1 & H1 & H2).
    eapply IH; [exact Hbody| |exact H2]. eapply Hbody; eauto.
Qed.

(** ** The constraint builder *)

Lemma length_defect (fpgm : fpgm_param) (x : list R) (i : nat) :
  length (defect fpgm x i) = 7%nat.
Proof. reflexivity. Qed.

Lemma set_pair_lookup_lo' (r : list num) (index : nat) (x bound : num) (k : nat) :
  k = index -> (index + 1 < length r)%nat ->
  set_pair r index x bound !! k = Some (- x - bound)%num.
Proof. intros ->. apply set_pair_lookup_lo. Qed.

Lemma set_pair_lookup_hi' (r : list num) (index : nat) (x bound : num) (k : nat) :
  k = (index + 1)%nat -> (index + 1 < length r)%nat ->
  set_pair r index x bound !! k = Some (x - bound)%num.
Proof. intros ->. apply set_pair_lookup_hi. Qed.

Ltac set_pair_lookup :=
  repeat first
    [ rewrite set_pair_lookup_ne by lia
    | rewrite set_pair_lookup_lo' by (rewrite ?length_set_pair; lia)
    | rewrite set_pair_lookup_hi' by (rewrite ?length_set_pair; lia) ].

Lemma length_dyn_pure (srv : VectorXd) (i : nat) (r : list num) :
  length (dyn_pure srv i r) = length r.
Proof. unfold dyn_pure. cbn [seq fold_left]. now rewrite !length_set_pair. Qed.

Lemma length_box_pure (boundary : optimization_constrain) (x : list R)
    (i : nat) (r : list num) :
  length (box_pure boundary x i r) = length r.
Proof. unfold box_pure. cbn [seq fold_left]. now rewrite !length_set_pair. Qed.

Lemma length_knot_pure fpgm boundary N (x : list R) (i : nat) (r : list num) :
  length (knot_pure fpgm boundary N x i r) = length r.
Proof.
  unfold knot_pure. rewrite length_box_pure.
  destruct (decide _); [apply length_dyn_pure | reflexivity].
Qed.

Lemma dyn_pure_lookup (srv : VectorXd) (i : nat) (r : list num) (j : nat) :
  (i*26 + 14 <= length r)%nat -> (j < 7)%nat ->
  dyn_pure srv i r !! (j*2 + i*26)%nat
    = Some (- nth j srv undef - inj 0.01)%num
  /\ dyn_pure srv i r !! (j*2 + i*26 + 1)%nat
    = Some (nth j srv undef - inj 0.01)%num.
Proof.
  intros Hr Hj. unfold dyn_pure. cbn [seq fold_left].
  do 7 (destruct j as [|j]; [split; set_pair_lookup; reflexivity|]). lia.
Qed.

Lemma dyn_pure_lookup_out (srv : VectorXd) (i : nat) (r : list num) (k : nat) :
  (k < i*26 \/ i*26 + 14 <= k)%nat ->
  dyn_pure srv i r !! k = r !! k.
Proof.
  intros Hk. unfold dyn_pure. cbn [seq fold_left].
  now rewrite !set_pair_lookup_ne by lia.
Qed.

Lemma box_pure_lookup (boundary : optimization_constrain) (x : list R)
    (i : nat) (r : list num) (b : nat) :
  (i*26 + 26 <= length r)%nat -> (b < 6)%nat ->
  box_pure boundary x i r !! (2*b + 14 + i*26)%nat
    = Some (- inj (knot x i (b + 2)) - inj (nth b (box_bounds boundary) 0))%num
  /\ box_pure boundary x i r !! (2*b + 14 + i*26 + 1)%nat
    = Some (inj (knot x i (b + 2)) - inj (nth b (box_bounds boundary) 0))%num.
Proof.
  intros Hr Hb. unfold box_pure. cbn [seq fold_left].
  do 6 (destruct b as [|b]; [split; set_pair_lookup; reflexivity|]). lia.
Qed.

Lemma box_pure_lookup_out (boundary : optimization_constrain) (x : list R)
    (i : nat) (r : list num) (k : nat) :
  (k < i*26 + 14 \/ i*26 + 26 <= k)%nat ->
  box_pure boundary x i r !! k = r !! k.
Proof.
  intros Hk. unfold box_pure. cbn [seq fold_left].
  now rewrite !set_pair_lookup_ne by lia.
Qed.

Lemma knot_pure_lookup_out fpgm boundary N (x : list R) (i : nat)
    (r : list num) (k : nat) :
  (k < i*26 \/ i*26 + 26 <= k)%nat ->
  knot_pure fpgm boundary N x i r !! k = r !! k.
Proof.
  intros Hk. unfold knot_pure. rewrite box_pure_lookup_out by lia.
  destruct (decide _); [apply dyn_pure_lookup_out; lia | reflexivity].
Qed.

Lemma coeff_Some (v : VectorXd) (j : nat) :
  (j < length v)%nat -> coeff v j = Some (nth j v undef).
Proof.
  intros Hj. unfold coeff. destruct (lookup_lt_is_Some_2 v j Hj) as [d Hd].
  rewrite Hd. f_equal. symmetry. now apply nth_lookup_Some.
Qed.

Lemma dyn_loop_Some (srv : VectorXd) (i : nat) (r : list num) :
  length srv = 7%nat -> (i*26 + 14 <= length r)%nat ->
  for_loop 0 7
    (fun j result =>
       let tolerance := 0.01 in
       d ← coeff srv j;
       set_bounded_constrains result (j*2 + i*26) d (inj tolerance))
    r
  = Some (dyn_pure srv i r).
Proof.
  intros Hsrv Hr.
  apply (for_loop_fold _
           (fun r j => set_pair r (j*2 + i*26) (nth j srv undef) (inj 0.01))
           (fun _ r' => length r' = length r) 7 0 r); [|reflexivity].
  intros k s Hk Hs. cbv zeta.
  rewrite coeff_Some by lia. cbn [mbind option_bind].
  rewrite set_bounded_constrains_Some by lia.
  split; [reflexivity|]. now rewrite length_set_pair.
Qed.

Lemma box_index (i : nat) (j : nat) : (j + i * 8 = j + 8 * i)%nat.
Proof. lia. Qed.

Lemma collocation_knot_Some fpgm boundary N (x : list R) (i : nat) (r : list num) :
  length x = (8 * N)%nat -> (i < N)%nat -> (i*26 + 26 <= length r)%nat ->
  collocation_knot fpgm boundary N x i r
    = Some (knot_pure fpgm boundary N x i r).
Proof.
  intros Hx Hi Hr. unfold collocation_knot, knot_pure.
  rewrite !box_index.
  destruct (decide (i < N - 1)%nat) as [Hlt|Hge].
  - repeat (rewrite read_Some by lia; cbn [mbind option_bind]).
    change (vx_add (vx_sub _ _) (vx_scale _ _)) with (defect fpgm x i).
    rewrite dyn_loop_Some by (try apply length_defect; lia).
    cbn [mbind option_bind].
    repeat (rewrite set_bounded_constrains_Some
              by (rewrite ?length_set_pair, ?length_dyn_pure; lia);
            cbn [mbind option_bind]).
    reflexivity.
  - repeat (rewrite read_Some by lia; cbn [mbind option_bind]).
    repeat (rewrite set_bounded_constrains_Some
              by (rewrite ?length_set_pair; lia);
            cbn [mbind option_bind]).
    reflexivity.
Qed.

Lemma set_pair_lookup_ext (r r' : list num) (index : nat) (a b : num) (k : nat) :
  length r' = length r -> r' !! k = r !! k ->
  set_pair r' index a b !! k = set_pair r index a b !! k.
Proof.
  intros Hlen Hk. unfold set_pair.
  rewrite !list_lookup_insert, !length_insert, Hlen, Hk. reflexivity.
Qed.

Lemma knot_pure_lookup_ext fpgm boundary N (x : list R) (i : nat)
    (r r' : list num) (k : nat) :
  length r' = length r -> r' !! k = r !! k ->
  knot_pure fpgm boundary N x i r' !! k = knot_pure fpgm boundary N x i r !! k.
Proof.
  intros Hlen Hk. unfold knot_pure, box_pure, dyn_pure.
  destruct (decide _); cbn [seq fold_left];
    repeat (apply set_pair_lookup_ext;
            [rewrite ?length_set_pair; exact Hlen|]);
    exact Hk.
Qed.

Lemma length_knots_pure fpgm boundary N (x : list R) (count : nat) :
  forall (i : nat) (r : list num),
    length (knots_pure fpgm boundary N x i count r) = length r.
Proof.
  unfold knots_pure. induction count as [|count IH]; intros i r; cbn.
  - reflexivity.
  - rewrite IH. apply length_knot_pure.
Qed.

Lemma knots_pure_lookup_out fpgm boundary N (x : list R) (count : nat) :
  forall (i : nat) (r : list num) (k : nat),
    (k < i*26 \/ (i + count)*26 <= k)%nat ->
    knots_pure fpgm boundary N x i count r !! k = r !! k.
Proof.
  unfold knots_pure. induction count as [|count IH]; intros i r k Hk; cbn.
  - reflexivity.
  - rewrite IH by lia. apply knot_pure_lookup_out. lia.
Qed.

Lemma knots_pure_lookup_in fpgm boundary N (x : list R) (count : nat) :
  forall (i : nat) (r : list num) (i' k : nat),
    (i <= i' < i + count)%nat -> (i'*26 <= k < i'*26 + 26)%nat ->
    knots_pure fpgm boundary N x i count r !! k
      = knot_pure fpgm boundary N x i' r !! k.
Proof.
  induction count as [|count IH]; intros i r i' k Hi' Hk; [lia|].
  unfold knots_pure. cbn [seq fold_left].
  fold (knots_pure fpgm boundary N x (S i) count
          (knot_pure fpgm boundary N x i r)).
  destruct (decide (i' = i)) as [->|Hne].
  - apply knots_pure_lookup_out. lia.
  - rewrite (IH (S i) _ i' k) by lia.
    apply knot_pure_lookup_ext; [apply length_knot_pure|].
    apply knot_pure_lookup_out. lia.
Qed.

Lemma knots_loop_Some fpgm boundary N (x : list R) (r : list num) :
  length x = (8 * N)%nat -> (N*26 <= length r)%nat ->
  for_loop 0 N (collocation_knot fpgm boundary N x) r
    = Some (knots_pure fpgm boundary N x 0 N r).
Proof.
  intros Hx Hr.
  apply (for_loop_fold _
           (fun r i => knot_pure fpgm boundary N x i r)
           (fun _ r' => length r' = length r) N 0 r); [|reflexivity].
  intros k s Hk Hs.
  rewrite collocation_knot_Some by lia.
  split; [reflexivity|]. now rewrite length_knot_pure.
Qed.

Lemma div_8 (N : nat) : (8 * N / 8 = N)%nat.
Proof. rewrite Nat.mul_comm. now apply Nat.div_mul. Qed.

Lemma collocation_eq_constraints_Some
    (N m n : nat) (result : list num) (x : list R) (data : combined_param) :
  well_formed N n x data -> (4 + 26 * N <= length result)%nat ->
  collocation_eq_constraints m result n x data = Some (residuals data x result).
Proof.
  intros (Hn & HN & H1 & Hix & Hiz) Hr.
  unfold collocation_eq_constraints, residuals. cbv zeta.
  rewrite <- Hn, HN, div_8.
  assert (Hix' : (0 < length (optimization_constrain.ix (combined_param.oc data)))%nat)
    by (destruct (optimization_constrain.ix _); [congruence | cbn; lia]).
  assert (Hiz' : (0 < length (optimization_constrain.iz (combined_param.oc data)))%nat)
    by (destruct (optimization_constrain.iz _); [congruence | cbn; lia]).
  rewrite knots_loop_Some by lia. cbn [mbind option_bind].
  rewrite !read_Some by lia. cbn [mbind option_bind].
  rewrite set_bounded_constrains_Some by (rewrite length_knots_pure; lia).
  cbn [mbind option_bind].
  rewrite set_bounded_constrains_Some
    by (rewrite length_set_pair, length_knots_pure; lia).
  reflexivity.
Qed.

Lemma length_residuals (data : combined_param) (x : list R) (result : list num) :
  length (residuals data x result) = length result.
Proof.
  unfold residuals. cbv zeta.
  now rewrite !length_set_pair, length_knots_pure.
Qed.

Lemma residuals_lookup_knot (data : combined_param) (N : nat) (x : list R)
    (result : list num) (i k : nat) :
  length x = (8 * N)%nat -> (i < N)%nat -> (i*26 <= k < i*26 + 26)%nat ->
  residuals data x result !! k
    = knot_pure (combined_param.fp data) (combined_param.oc data) N x i result
        !! k.
Proof.
  intros Hx Hi Hk. unfold residuals. cbv zeta. rewrite Hx, div_8.
  rewrite !set_pair_lookup_ne by nia.
  apply knots_pure_lookup_in; lia.
Qed.

Lemma residuals_lookup_anchor (data : combined_param) (N : nat) (x : list R)
    (result : list num) :
  length x = (8 * N)%nat -> (4 + 26 * N <= length result)%nat ->
  let boundary := combined_param.oc data in
  let ix_0 := nth 0 (optimization_constrain.ix boundary) 0 in
  let iz_0 := nth 0 (optimization_constrain.iz boundary) 0 in
  residuals data x result !! (26 * N)%nat
    = Some (- inj (nth 0 x 0) - inj ix_0)%num
  /\ residuals data x result !! (26 * N + 1)%nat
    = Some (inj (nth 0 x 0) - inj ix_0)%num
  /\ residuals data x result !! (26 * N + 2)%nat
    = Some (- inj (nth 1 x 0) - inj iz_0)%num
  /\ residuals data x result !! (26 * N + 3)%nat
    = Some (inj (nth 1 x 0) - inj iz_0)%num.
Proof.
  intros Hx Hr boundary ix_0 iz_0. unfold residuals. cbv zeta.
  rewrite Hx, div_8.
  repeat split;
    repeat first
      [ rewrite set_pair_lookup_ne by lia
      | rewrite set_pair_lookup_lo'
          by (rewrite ?length_set_pair, ?length_knots_pure; lia)
      | rewrite set_pair_lookup_hi'
          by (rewrite ?length_set_pair, ?length_knots_pure; lia) ];
    reflexivity.
Qed.

Lemma residuals_lookup_beyond (data : combined_param) (N : nat) (x : list R)
    (result : list num) (k : nat) :
  length x = (8 * N)%nat -> (4 + 26 * N <= k)%nat ->
  residuals data x result !! k = result !! k.
Proof.
  intros Hx Hk. unfold residuals. cbv zeta. rewrite Hx, div_8.
  rewrite !set_pair_lookup_ne by lia.
  apply knots_pure_lookup_out. lia.
Qed.

Lemma residuals_lookup_dyn (data : combined_param) (N : nat) (x : list R)
    (result : list num) (i j : nat) :
  length x = (8 * N)%nat -> (26 * N <= length result)%nat ->
  (i + 1 < N)%nat -> (j < 7)%nat ->
  let d := nth j (defect (combined_param.fp data) x i) undef in
  residuals data x result !! (26 * i + 2 * j)%nat
    = Some (- d - inj 0.01)%num
  /\ residuals data x result !! (26 * i + 2 * j + 1)%nat
    = Some (d - inj 0.01)%num.
Proof.
  intros Hx Hr Hi Hj d.
  rewrite !(residuals_lookup_knot data N x result i) by lia.
  unfold knot_pure.
  destruct (decide (i < N - 1)%nat) as [_|Hn]; [|lia].
  rewrite !box_pure_lookup_out by lia.
  replace (26 * i + 2 * j)%nat with (j*2 + i*26)%nat by lia.
  apply dyn_pure_lookup; lia.
Qed.

Lemma residuals_lookup_reserved (data : combined_param) (N : nat) (x : list R)
    (result : list num) (j : nat) :
  length x = (8 * N)%nat -> (1 <= N)%nat -> (j < 14)%nat ->
  residuals data x result !! (26 * (N - 1) + j)%nat
    = result !! (26 * (N - 1) + j)%nat.
Proof.
  intros Hx HN Hj.
  rewrite (residuals_lookup_knot data N x result (N - 1)) by lia.
  unfold knot_pure.
  destruct (decide (N - 1 < N - 1)%nat) as [Hn|_]; [lia|].
  apply box_pure_lookup_out. lia.
Qed.

Lemma residuals_lookup_box (data : combined_param) (N : nat) (x : list R)
    (result : list num) (i b : nat) :
  length x = (8 * N)%nat -> (26 * N <= length result)%nat ->
  (i < N)%nat -> (b < 6)%nat ->
  let q := knot x i (b + 2) in
  let bound := nth b (box_bounds (combined_param.oc data)) 0 in
  residuals data x result !! (26 * i + 14 + 2 * b)%nat
    = Some (- inj q - inj bound)%num
  /\ residuals data x result !! (26 * i + 14 + 2 * b + 1)%nat
    = Some (inj q - inj bound)%num.
Proof.
  intros Hx Hr Hi Hb q bound.
  rewrite !(residuals_lookup_knot data N x result i) by lia.
  unfold knot_pure.
  replace (26 * i + 14 + 2 * b)%nat with (2*b + 14 + i*26)%nat by lia.
  apply box_pure_lookup; [|lia].
  destruct (decide _); rewrite ?length_dyn_pure; nia.
Qed.

(** No pass of the builder changes the length of the array. *)
Lemma collocation_knot_length fpgm boundary N (x : list R) (i : nat)
    (r r' : list num) :
  collocation_knot fpgm boundary N x i r = Some r' -> length r' = length r.
Proof.
  unfold collocation_knot. intros H.
  apply bind_Some in H as (r1 & H1 & H).
  assert (Hr1 : length r1 = length r).
  { destruct (decide _); [|now injection H1 as <-].
    do 16 (let a := fresh "a" in let Ha := fresh "Ha" in
           apply bind_Some in H1 as (a & Ha & H1)).
    revert H1.
    apply (for_loop_invariant _ (fun s => length s = length r));
      [|reflexivity].
    intros k s s' Hb Hs. cbv zeta in Hb.
    apply bind_Some in Hb as (d & _ & Hb).
    apply set_bounded_constrains_length in Hb. congruence. }
  repeat (let a := fresh "a" in let Ha := fresh "Ha" in
          apply bind_Some in H as (a & Ha & H)).
  repeat match goal with
         | Hs : set_bounded_constrains _ _ _ _ = Some _ |- _ =>
             apply set_bounded_constrains_length in Hs
         | Hs : store _ _ _ = Some _ |- _ => apply store_length in Hs
         end.
  congruence.
Qed.

Lemma collocation_eq_constraints_None
    (N m n : nat) (result : list num) (x : list R) (data : combined_param) :
  well_formed N n x data -> (length result < 4 + 26 * N)%nat ->
  collocation_eq_constraints m result n x data = None.
Proof.
  intros (Hn & HN & H1 & Hix & Hiz) Hr.
  unfold collocation_eq_constraints. cbv zeta.
  rewrite HN, div_8.
  destruct (for_loop 0 N _ result) as [r|] eqn:Hloop; [|reflexivity].
  assert (Hlen : length r = length result).
  { revert Hloop.
    apply (for_loop_invariant _ (fun s => length s = length result));
      [|reflexivity].
    intros k s s' Hb Hs. apply collocation_knot_length in Hb. congruence. }
  cbn [mbind option_bind].
  destruct (read x 0) as [x_0|]; [|reflexivity]. cbn [mbind option_bind].
  destruct (read (optimization_constrain.ix _) 0) as [ix_0|]; [|reflexivity].
  cbn [mbind option_bind].
  destruct (set_bounded_constrains r _ _ _) as [r'|] eqn:Hset;
    [|reflexivity].
  apply set_bounded_constrains_length in Hset. cbn [mbind option_bind].
  destruct (read x 1) as [x_1|]; [|reflexivity]. cbn [mbind option_bind].
  destruct (read (optimization_constrain.iz _) 0) as [iz_0|]; [|reflexivity].
  cbn [mbind option_bind].
  apply set_bounded_constrains_None. lia.
Qed.

(** ** The layout of the residual array *)

Lemma length_concat_blocks {A : Type} (f : nat -> list A) (L N : nat) :
  (forall i, (i < N)%nat -> length (f i) = L) ->
  length (concat (map f (seq 0 N))) = (L * N)%nat.
Proof.
  induction N as [|N IH]; intros Hlen; [cbn; lia|].
  rewrite seq_S, map_app, concat_app, length_app. cbn [map concat Nat.add].
  rewrite app_nil_r, IH, (Hlen N) by (intros; try apply Hlen; lia). lia.
Qed.

Lemma lookup_concat_blocks {A : Type} (f : nat -> list A) (L N i c : nat) :
  (forall i, (i < N)%nat -> length (f i) = L) ->
  (i < N)%nat -> (c < L)%nat ->
  concat (map f (seq 0 N)) !! (L * i + c)%nat = f i !! c.
Proof.
  induction N as [|N IH]; intros Hlen Hi Hc; [lia|].
  rewrite seq_S, map_app, concat_app. cbn [map concat Nat.add].
  rewrite app_nil_r.
  assert (HlenN : length (concat (map f (seq 0 N))) = (L * N)%nat)
    by (apply length_concat_blocks; intros; apply Hlen; lia).
  destruct (decide (i = N)) as [->|Hne].
  - rewrite lookup_app_r by (rewrite HlenN; lia).
    rewrite HlenN. f_equal. lia.
  - rewrite lookup_app_l by (rewrite HlenN; nia).
    apply IH; [intros; apply Hlen; lia | lia | lia].
Qed.

Lemma length_knot_block (data : combined_param) (N : nat) (x : list R)
    (result : list num) (i : nat) :
  (26 * i + 14 <= length result)%nat ->
  length (knot_block data N x result i) = 26%nat.
Proof.
  intros Hr. unfold knot_block. rewrite length_app.
  destruct (decide _).
  - reflexivity.
  - rewrite length_take, length_drop. cbn [box_block]. 
    change (length (box_block (combined_param.oc data) x i)) with 12%nat. lia.
Qed.

Lemma knot_block_lookup (data : combined_param) (N : nat) (x : list R)
    (result : list num) (i c : nat) :
  (i*26 + 26 <= length result)%nat -> (c < 26)%nat ->
  knot_pure (combined_param.fp data) (combined_param.oc data) N x i result
    !! (26 * i + c)%nat
  = knot_block data N x result i !! c.
Proof.
  intros Hr Hc. unfold knot_block, knot_pure.
  destruct (decide (i < N - 1)%nat) as [Hi|Hi].
  - unfold box_pure, dyn_pure, dyn_block, box_block.
    cbn [seq fold_left map concat app pair_of].
    do 26 (destruct c as [|c]; [set_pair_lookup; reflexivity|]). lia.
  - destruct (decide (c < 14)%nat) as [Hlt|Hge].
    + rewrite box_pure_lookup_out by lia.
      rewrite lookup_app_l by (rewrite length_take, length_drop; lia).
      rewrite lookup_take_lt by lia. now rewrite lookup_drop.
    + rewrite lookup_app_r by (rewrite length_take, length_drop; lia).
      rewrite length_take, length_drop.
      replace (c - 14 `min` (length result - 26 * i))%nat
        with (c - 14)%nat by lia.
      replace (26 * i + c)%nat with (26 * i + 14 + (c - 14))%nat by lia.
      assert (Hc' : (c - 14 < 12)%nat) by lia. revert Hc'.
      generalize (c - 14)%nat as c'. intros c' Hc'.
      unfold box_pure, box_block.
      cbn [seq fold_left map concat app pair_of].
      do 12 (destruct c' as [|c']; [set_pair_lookup; reflexivity|]). lia.
Qed.

Lemma residuals_layout (data : combined_param) (N : nat) (x : list R)
    (result : list num) :
  length x = (8 * N)%nat -> length result = (4 + 26 * N)%nat ->
  residuals data x result = residual_layout data N x result.
Proof.
  intros Hx Hr.
  assert (Hblocks : forall i, (i < N)%nat ->
                      length (knot_block data N x result i) = 26%nat)
    by (intros i Hi; apply length_knot_block; lia).
  assert (Hlen : length (concat (map (knot_block data N x result) (seq 0 N)))
                 = (26 * N)%nat)
    by now apply length_concat_blocks.
  apply list_eq. intros k. unfold residual_layout.
  destruct (decide (k < 26 * N)%nat) as [Hk|Hk].
  - rewrite lookup_app_l by (rewrite Hlen; lia).
    pose proof (Nat.div_mod_eq k 26) as Hdm.
    pose proof (Nat.mod_upper_bound k 26 ltac:(lia)) as Hc.
    assert (Hi : (k / 26 < N)%nat) by (apply Nat.Div0.div_lt_upper_bound; lia).
    rewrite Hdm at 2.
    rewrite (lookup_concat_blocks _ 26 N) by assumption.
    rewrite (residuals_lookup_knot data N x result (k / 26)) by lia.
    rewrite Hdm at 1. apply knot_block_lookup; lia.
  - rewrite lookup_app_r by (rewrite Hlen; lia). rewrite Hlen.
    destruct (residuals_lookup_anchor data N x result Hx ltac:(lia))
      as (H0 & H1 & H2 & H3).
    destruct (decide (k < 26 * N + 4)%nat) as [Hk4|Hk4].
    + assert (Hc : (k - 26 * N < 4)%nat) by lia.
      replace k with (26 * N + (k - 26 * N))%nat at 1 by lia.
      revert Hc. generalize (k - 26 * N)%nat as c. intros c Hc.
      destruct c as [|[|[|[|c]]]]; [| | | |lia].
      * rewrite Nat.add_0_r. exact H0.
      * exact H1.
      * exact H2.
      * exact H3.
    + rewrite lookup_ge_None_2 by (rewrite length_residuals; lia).
      symmetry. apply lookup_ge_None_2. cbn. lia.
Qed.

Lemma residual_layout_length (data : combined_param) (N : nat) (x : list R)
    (result : list num) :
  length result = (4 + 26 * N)%nat ->
  length (residual_layout data N x result) = (4 + 26 * N)%nat.
Proof.
  intros Hr. unfold residual_layout. rewrite length_app.
  rewrite (length_concat_blocks _ 26)
    by (intros i Hi; apply length_knot_block; lia).
  cbn. lia.
Qed.

Lemma residual_layout_block (data : combined_param) (N : nat) (x : list R)
    (result : list num) (i : nat) :
  length result = (4 + 26 * N)%nat -> (i < N)%nat ->
  take 26 (drop (26 * i) (residual_layout data N x result))
    = knot_block data N x result i.
Proof.
  intros Hr Hi.
  assert (Hblocks : forall i, (i < N)%nat ->
                      length (knot_block data N x result i) = 26%nat)
    by (intros i' Hi'; apply length_knot_block; lia).
  apply list_eq. intros c.
  destruct (decide (c < 26)%nat) as [Hc|Hc].
  - rewrite lookup_take_lt, lookup_drop by lia. unfold residual_layout.
    rewrite lookup_app_l
      by (rewrite (length_concat_blocks _ 26) by assumption; lia).
    now apply lookup_concat_blocks.
  - rewrite lookup_take_ge by lia. symmetry.
    apply lookup_ge_None_2. rewrite Hblocks by assumption. lia.
Qed.

Lemma residual_layout_anchor (data : combined_param) (N : nat) (x : list R)
    (result : list num) :
  length result = (4 + 26 * N)%nat ->
  drop (26 * N) (residual_layout data N x result) = anchor_block data x.
Proof.
  intros Hr. unfold residual_layout. apply drop_app_length'.
  symmetry. apply length_concat_blocks.
  intros i Hi. apply length_knot_block. lia.
Qed.

(** ** The guess loader *)

Lemma remainder_8_zero (s : Z) : remainder s 8 = 0%Z <-> (s mod 8 = 0)%Z.
Proof.
  unfold remainder. cbv zeta.
  pose proof (Z.mod_pos_bound s 8 ltac:(lia)) as Hb.
  destruct (2 * (s mod 8) <? 8)%Z eqn:H1; [tauto|].
  destruct (8 <? 2 * (s mod 8))%Z eqn:H2; [lia|].
  destruct (Z.even (s / 8)); lia.
Qed.

(** [remainder] rounds the quotient to the nearest integer, to the even
    one on a tie; it vanishes on the multiples of 8 only. *)
Lemma remainder_examples :
  remainder 16 8 = 0%Z /\ remainder 9 8 = 1%Z /\ remainder 12 8 = (-4)%Z
  /\ remainder 20 8 = 4%Z /\ remainder 15 8 = (-1)%Z.
Proof. repeat split; reflexivity. Qed.

Lemma to_int_mod_8 (s : Z) : (to_int s mod 8 = s mod 8)%Z.
Proof.
  unfold to_int. change (2 ^ 31)%Z with 2147483648%Z.
  change (2 ^ 32)%Z with 4294967296%Z. Z.div_mod_to_equations. lia.
Qed.

Lemma to_int_small (s : Z) : (0 <= s < 2 ^ 31)%Z -> to_int s = s.
Proof.
  unfold to_int. change (2 ^ 31)%Z with 2147483648%Z.
  change (2 ^ 32)%Z with 4294967296%Z. intros Hs.
  Z.div_mod_to_equations. lia.
Qed.

Lemma load_initial_guess_rejects (x : list R) (self : fpgm_collocation) :
  (Z.of_nat (length x) mod 8 <> 0)%Z ->
  load_initial_guess x self =
    (false,
     fpgm_collocation.mk (fpgm_collocation.param self)
       (fpgm_collocation.boundary self) (fpgm_collocation.N self) x).
Proof.
  intros Hx. unfold load_initial_guess. cbv zeta.
  destruct (decide _) as [_|Hn]; [reflexivity|].
  exfalso. apply Hn. rewrite remainder_8_zero, to_int_mod_8. exact Hx.
Qed.

Lemma load_initial_guess_accepts (N : nat) (x : list R) (self : fpgm_collocation) :
  length x = (8 * N)%nat -> (Z.of_nat (length x) < 2 ^ 31)%Z ->
  load_initial_guess x self =
    (true,
     fpgm_collocation.mk (fpgm_collocation.param self)
       (fpgm_collocation.boundary self) (Z.of_nat N) x).
Proof.
  intros Hx Hsmall. unfold load_initial_guess. cbv zeta.
  rewrite to_int_small by lia.
  destruct (decide _) as [Hn|_].
  - exfalso. apply Hn. rewrite remainder_8_zero, Hx.
    rewrite Nat2Z.inj_mul, Z.mul_comm. apply Z.mod_mul. lia.
  - cbn [fpgm_collocation.param fpgm_collocation.boundary
         fpgm_collocation.guess].
    do 2 f_equal. rewrite Hx, Nat2Z.inj_mul, Z.mul_comm.
    apply Z.quot_mul. lia.
Qed.

(** ** The optimization driver *)

(** C9.  With an empty stored guess the driver returns the
    default-initialised result, its six sequences empty, and makes no call
    to the solver. *)
Theorem nlopt_optimization_empty_guess
    (nlopt_optimize : nlopt.nlopt_opt -> list R -> list R)
    (param : fpgm_param) (boundary : optimization_constrain) (N : Z) :
  nlopt_optimization nlopt_optimize (fpgm_collocation.mk param boundary N [])
    = (Some (control_state.mk [] [] [] [] [] []), []).
Proof. reflexivity. Qed.

Lemma checked_int_Some (z : Z) :
  (- 2 ^ 31 <= z < 2 ^ 31)%Z -> checked_int z = Some z.
Proof. intros Hz. unfold checked_int. now destruct (decide _). Qed.

Lemma checked_int_None (z : Z) :
  (2 ^ 31 <= z)%Z -> checked_int z = None.
Proof.
  intros Hz. unfold checked_int.
  destruct (decide _) as [H|_]; [lia | reflexivity].
Qed.

(** The count of the driver for [N >= 0] knots: it is [4 + 26 N] when an
    [int] can hold it, and the driver fails before any call otherwise. *)
Lemma inequality_dimension_Some (N : nat) :
  (4 + 26 * Z.of_nat N < 2 ^ 31)%Z ->
  (dimension ← checked_int (Z.of_nat N * 8);
   product ← checked_int (Z.of_nat N * 26);
   checked_int (4 + product))
  = Some (4 + Z.of_nat N * 26)%Z.
Proof.
  intros HN. change (2 ^ 31)%Z with 2147483648%Z in HN.
  rewrite (checked_int_Some (Z.of_nat N * 8))
    by (change (2 ^ 31)%Z with 2147483648%Z; lia).
  cbn [mbind option_bind].
  rewrite (checked_int_Some (Z.of_nat N * 26))
    by (change (2 ^ 31)%Z with 2147483648%Z; lia).
  cbn [mbind option_bind].
  apply checked_int_Some. change (2 ^ 31)%Z with 2147483648%Z. lia.
Qed.

Lemma inequality_dimension_None (N : nat) :
  (2 ^ 31 <= 4 + 26 * Z.of_nat N)%Z ->
  (dimension ← checked_int (Z.of_nat N * 8);
   product ← checked_int (Z.of_nat N * 26);
   checked_int (4 + product))
  = None.
Proof.
  intros HN. change (2 ^ 31)%Z with 2147483648%Z in HN.
  destruct (checked_int (Z.of_nat N * 8)) as [d|]; [|reflexivity].
  cbn [mbind option_bind].
  destruct (checked_int (Z.of_nat N * 26)) as [q|] eqn:Hq; [|reflexivity].
  cbn [mbind option_bind].
  unfold checked_int in Hq. destruct (decide _) as [_|_]; [|discriminate].
  injection Hq as <-. apply checked_int_None.
  change (2 ^ 31)%Z with 2147483648%Z. lia.
Qed.

Lemma nlopt_optimization_overflow
    (nlopt_optimize : nlopt.nlopt_opt -> list R -> list R)
    (param : fpgm_param) (boundary : optimization_constrain)
    (N : nat) (guess : list R) :
  guess <> [] -> (2 ^ 31 <= 4 + 26 * Z.of_nat N)%Z ->
  nlopt_optimization nlopt_optimize
    (fpgm_collocation.mk param boundary (Z.of_nat N) guess) = (None, []).
Proof.
  intros Hg HN. unfold nlopt_optimization. cbv zeta.
  cbn [fpgm_collocation.guess fpgm_collocation.N fpgm_collocation.param
       fpgm_collocation.boundary].
  destruct (decide (guess = [])) as [He|_]; [contradiction|].
  now rewrite inequality_dimension_None.
Qed.

Lemma nlopt_optimization_configuration
    (nlopt_optimize : nlopt.nlopt_opt -> list R -> list R)
    (param : fpgm_param) (boundary : optimization_constrain)
    (N : nat) (guess : list R) :
  guess <> [] -> (4 + 26 * Z.of_nat N < 2 ^ 31)%Z ->
  exists (opt : nlopt.nlopt_opt) (tol_ineq : list R),
    snd (nlopt_optimization nlopt_optimize
           (fpgm_collocation.mk param boundary (Z.of_nat N) guess))
      = [(opt, guess)]
    /\ nlopt.n opt = length guess
    /\ nlopt.inequality_mconstraints opt =
         [((4 + 26 * N)%nat,
           fun m result n x =>
             collocation_eq_constraints m result n x
               (combined_param.mk param boundary),
           tol_ineq)]
    /\ length tol_ineq = (4 + 26 * N)%nat.
Proof.
  intros Hg HN. unfold nlopt_optimization. cbv zeta.
  cbn [fpgm_collocation.guess fpgm_collocation.N fpgm_collocation.param
       fpgm_collocation.boundary].
  destruct (decide (guess = [])) as [He|_]; [contradiction|].
  rewrite inequality_dimension_Some by exact HN.
  destruct (decide (4 + Z.of_nat N * 26 <= 0)%Z) as [Hneg|_]; [lia|].
  cbn [snd].
  replace (Z.to_nat (4 + Z.of_nat N * 26)) with (4 + 26 * N)%nat by lia.
  eexists _, _. split; [reflexivity|].
  split; [reflexivity|]. split; [reflexivity|].
  rewrite length_take. cbn [length]. rewrite length_replicate. lia.
Qed.

(** C6 (the code departs from the claim).  A guess of nine entries is
    refused and [N] is left as it was, but the refused guess has replaced
    the stored one: the assignment comes before the test.  The driver,
    which only tests the stored guess for emptiness, then runs the solver
    on the refused guess, with the constraint count of the stale [N]: an
    array of 4 cells, which the builder overruns for nine entries. *)
Theorem load_initial_guess_stores_refused_guess
    (nlopt_optimize : nlopt.nlopt_opt -> list R -> list R) :
  load_initial_guess (replicate 9 0) fresh_object =
    (false,
     fpgm_collocation.mk unit_glider (targets [0] [1]) 0 (replicate 9 0))
  /\ fpgm_collocation.guess
       (snd (load_initial_guess (replicate 9 0) fresh_object))
     <> fpgm_collocation.guess fresh_object
  /\ (exists (opt : nlopt.nlopt_opt) (tol_ineq : list R),
        snd (nlopt_optimization nlopt_optimize
               (snd (load_initial_guess (replicate 9 0) fresh_object)))
          = [(opt, replicate 9 0)]
        /\ nlopt.inequality_mconstraints opt =
             [(4%nat,
               fun m result n x =>
                 collocation_eq_constraints m result n x
                   (combined_param.mk unit_glider (targets [0] [1])),
               tol_ineq)])
  /\ collocation_eq_constraints 4 (blank 4) 9 (replicate 9 0)
       (combined_param.mk unit_glider (targets [0] [1])) = None.
Proof.
  assert (H9 : (Z.of_nat (length (replicate 9 0%R)) mod 8 <> 0)%Z)
    by now rewrite length_replicate.
  rewrite (load_initial_guess_rejects _ _ H9).
  split; [reflexivity|]. split; [discriminate|]. split; [|reflexivity].
  cbn [snd fresh_object fpgm_collocation.param fpgm_collocation.boundary
       fpgm_collocation.N].
  destruct (nlopt_optimization_configuration nlopt_optimize unit_glider
              (targets [0] [1]) 0 (replicate 9 0) ltac:(discriminate)
              ltac:(cbn; lia))
    as (opt & tol & Hcall & _ & Hblock & _).
  exists opt, tol. split; [exact Hcall | exact Hblock].
Qed.

(** ** The residual array *)

(** C1.  For a decision vector of [8 N] entries, [N >= 1], the builder
    needs a residual array of exactly [4 + 26 N] cells: it fills such an
    array and overruns any shorter one.  The array it leaves is the blocks
    of the [N] knots, each 26 wide, so that the block of knot [i] is at
    offset [26 i], followed by the anchor residuals at offset [26 N].  The
    driver registers the builder as its only inequality block, with the
    count [4 + 26 N], whenever an [int] can hold that count; when it
    cannot, the [int] arithmetic of the driver overflows and no solver is
    configured. *)
Theorem residual_array_sizing
    (nlopt_optimize : nlopt.nlopt_opt -> list R -> list R)
    (self : fpgm_collocation)
    (N m n : nat) (result : list num) (x : list R) (data : combined_param) :
  well_formed N n x data ->
  (length result = (4 + 26 * N)%nat ->
   exists r : list num,
     collocation_eq_constraints m result n x data = Some r
     /\ length r = (4 + 26 * N)%nat
     /\ r = concat (map (knot_block data N x result) (seq 0 N))
              ++ anchor_block data x
     /\ (forall i : nat, (i < N)%nat ->
           length (knot_block data N x result i) = 26%nat
           /\ take 26 (drop (26 * i) r) = knot_block data N x result i)
     /\ drop (26 * N) r = anchor_block data x)
  /\ ((length result < 4 + 26 * N)%nat ->
      collocation_eq_constraints m result n x data = None)
  /\ ((Z.of_nat n < 2 ^ 31)%Z ->
      fst (load_initial_guess x self) = true
      /\ ((4 + 26 * Z.of_nat N < 2 ^ 31)%Z ->
          exists (opt : nlopt.nlopt_opt) (tol_ineq : list R),
            snd (nlopt_optimization nlopt_optimize
                   (snd (load_initial_guess x self)))
              = [(opt, x)]
            /\ nlopt.inequality_mconstraints opt =
                 [((4 + 26 * N)%nat,
                   fun m result n x =>
                     collocation_eq_constraints m result n x
                       (combined_param.mk (fpgm_collocation.param self)
                          (fpgm_collocation.boundary self)),
                   tol_ineq)]
            /\ length tol_ineq = (4 + 26 * N)%nat)
      /\ ((2 ^ 31 <= 4 + 26 * Z.of_nat N)%Z ->
          nlopt_optimization nlopt_optimize (snd (load_initial_guess x self))
            = (None, []))).
Proof.
  intros Hwf. pose proof Hwf as (Hn & HN & H1 & Hix & Hiz).
  assert (Hx : length x = (8 * N)%nat) by congruence.
  assert (Hg : x <> []) by (intros ->; cbn in Hx; lia).
  split; [|split].
  - intros Hr. exists (residual_layout data N x result).
    split.
    { rewrite <- (residuals_layout data N x result Hx Hr).
      apply (collocation_eq_constraints_Some N); [exact Hwf | lia]. }
    split; [now apply residual_layout_length|].
    split; [reflexivity|].
    split; [|now apply residual_layout_anchor].
    intros i Hi.
    split; [apply length_knot_block; lia | now apply residual_layout_block].
  - apply (collocation_eq_constraints_None N). exact Hwf.
  - intros Hsmall.
    rewrite (load_initial_guess_accepts N) by lia. cbn [fst snd].
    split; [reflexivity|]. split.
    + intros Hcount.
      destruct (nlopt_optimization_configuration nlopt_optimize
                  (fpgm_collocation.param self)
                  (fpgm_collocation.boundary self)
                  N x Hg Hcount) as (opt & tol & Hcall & _ & Hblock & Htol).
      exists opt, tol. auto.
    + intros Hcount. now apply nlopt_optimization_overflow.
Qed.

Lemma well_formed_one_knot (data : combined_param) :
  optimization_constrain.ix (combined_param.oc data) <> [] ->
  optimization_constrain.iz (combined_param.oc data) <> [] ->
  well_formed 1 8 one_knot data.
Proof. intros Hix Hiz. unfold well_formed. repeat split; auto. Qed.

Lemma well_formed_8 (x : list R) (data : combined_param) :
  length x = 8%nat ->
  optimization_constrain.ix (combined_param.oc data) <> [] ->
  optimization_constrain.iz (combined_param.oc data) <> [] ->
  well_formed 1 8 x data.
Proof. intros Hx Hix Hiz. unfold well_formed. repeat split; auto. Qed.

Lemma residual_array_sizing_witness :
  (exists r : list num,
     collocation_eq_constraints 30 (blank 30) 8 one_knot
       (combined_param.mk unit_glider (targets [0] [1])) = Some r
     /\ length r = 30%nat)
  /\ collocation_eq_constraints 29 (blank 29) 8 one_knot
       (combined_param.mk unit_glider (targets [0] [1])) = None
  /\ fst (load_initial_guess one_knot fresh_object) = true
  /\ (exists (opt : nlopt.nlopt_opt) (tol_ineq : list R),
        snd (nlopt_optimization (fun _ x => x)
               (snd (load_initial_guess one_knot fresh_object)))
          = [(opt, one_knot)]
        /\ nlopt.inequality_mconstraints opt =
             [(30%nat,
               fun m result n x =>
                 collocation_eq_constraints m result n x
                   (combined_param.mk unit_glider (targets [0] [1])),
               tol_ineq)]
        /\ length tol_ineq = 30%nat).
Proof.
  pose proof (well_formed_one_knot
                (combined_param.mk unit_glider (targets [0] [1]))
                ltac:(discriminate) ltac:(discriminate)) as Hwf.
  destruct (residual_array_sizing (fun _ x => x) fresh_object
              1 30 8 (blank 30) one_knot _ Hwf) as (Hfill & _ & Hdriver).
  destruct (residual_array_sizing (fun _ x => x) fresh_object
              1 29 8 (blank 29) one_knot _ Hwf) as (_ & Hover & _).
  split; [|split].
  - destruct (Hfill eq_refl) as (r & Hr & Hlen & _).
    exists r. split; [exact Hr | exact Hlen].
  - apply Hover. cbn. lia.
  - destruct (Hdriver eq_refl) as (Hload & Hcall & _).
    split; [exact Hload|]. apply Hcall. cbn. lia.
Defined.

Lemma nth_defect (fpgm : fpgm_param) (x : list R) (i j : nat) :
  (j < 7)%nat ->
  nth j (defect fpgm x i) undef = defect_component fpgm x i j.
Proof.
  intros Hj. unfold defect.
  do 7 (destruct j as [|j]; [reflexivity|]). lia.
Qed.

(** C2.  For a decision vector of [8 N] entries, [N >= 2], and every pair
    of knots [(i, i+1)], [i <= N - 2], the builder evaluates the dynamics
    model at the two knots and, for each of the seven components [j] of
    the defect state(i) - state(i+1) + (h/2) (deriv(i) + deriv(i+1)),
    writes the pair [- d - 0.01], [d - 0.01] at offsets [26 i + 2 j] and
    [26 i + 2 j + 1]; the two residuals are both [<= 0] exactly when
    [|d| <= 0.01].  Where the two derivatives are numbers [u] and [v], the
    defect is the real number
    [state(i)_j - state(i+1)_j + h / 2 * (u + v)]. *)
Theorem trapezoidal_defect_residuals
    (N m n : nat) (result : list num) (x : list R) (data : combined_param)
    (i j : nat) :
  well_formed N n x data -> (2 <= N)%nat ->
  length result = (4 + 26 * N)%nat ->
  (i <= N - 2)%nat -> (j < 7)%nat ->
  let fpgm := combined_param.fp data in
  let h := fpgm_param.h fpgm in
  let f_i :=
    fpgm_dynamics (knot x i 0) (knot x i 1) (knot x i 2) (knot x i 3)
      (knot x i 4) (knot x i 5) (knot x i 6) (knot x i 7) fpgm in
  let f_i1 :=
    fpgm_dynamics (knot x (i + 1) 0) (knot x (i + 1) 1) (knot x (i + 1) 2)
      (knot x (i + 1) 3) (knot x (i + 1) 4) (knot x (i + 1) 5)
      (knot x (i + 1) 6) (knot x (i + 1) 7) fpgm in
  let d : num :=
    (inj (knot x i j) - inj (knot x (i + 1) j)
     + inj (h / 2) * (nth j f_i undef + nth j f_i1 undef))%num in
  exists r : list num,
    collocation_eq_constraints m result n x data = Some r
    /\ r !! (26 * i + 2 * j)%nat = Some (- d - inj 0.01)%num
    /\ r !! (26 * i + 2 * j + 1)%nat = Some (d - inj 0.01)%num
    /\ ((- d - inj 0.01 <= inj 0)%num /\ (d - inj 0.01 <= inj 0)%num
        <-> (nabs d <= inj 0.01)%num)
    /\ (forall u v : R,
          nth j f_i undef = inj u -> nth j f_i1 undef = inj v ->
          let e := knot x i j - knot x (i + 1) j + h / 2 * (u + v) in
          r !! (26 * i + 2 * j)%nat = Some (inj (- e - 0.01))
          /\ r !! (26 * i + 2 * j + 1)%nat = Some (inj (e - 0.01))
          /\ (- e - 0.01 <= 0 /\ e - 0.01 <= 0 <-> Rabs e <= 0.01)).
Proof.
  intros Hwf HN Hr Hi Hj fpgm h f_i f_i1 d.
  pose proof Hwf as (Hn & HN8 & H1 & Hix & Hiz).
  assert (Hx : length x = (8 * N)%nat) by congruence.
  destruct (residuals_lookup_dyn data N x result i j) as [Hlo Hhi];
    [lia..|].
  rewrite nth_defect in Hlo, Hhi by exact Hj.
  change (defect_component (combined_param.fp data) x i j) with d in Hlo, Hhi.
  exists (residuals data x result).
  split; [apply (collocation_eq_constraints_Some N); [exact Hwf | lia]|].
  split; [exact Hlo|]. split; [exact Hhi|].
  split; [apply bounded_pair_iff|].
  intros u v Hu Hv e.
  assert (Hd : d = inj e) by (unfold d; rewrite Hu, Hv; reflexivity).
  rewrite Hlo, Hhi, Hd. split; [reflexivity|]. split; [reflexivity|].
  unfold Rabs. destruct (Rcase_abs e); lra.
Qed.

Lemma trapezoidal_defect_residuals_witness :
  exists r : list num,
    collocation_eq_constraints 56 (blank 56) 16 two_knots
      (combined_param.mk unit_glider (targets [0] [1])) = Some r
    /\ r !! 10%nat = Some (inj 9.8)
    /\ r !! 11%nat = Some (inj (-9.82))
    /\ ~ (9.8 <= 0 /\ -9.82 <= 0).
Proof.
  destruct (trapezoidal_defect_residuals 2 56 16 (blank 56) two_knots
              (combined_param.mk unit_glider (targets [0] [1])) 0 5)
    as (r & Hr & _ & _ & _ & Hreal).
  - unfold well_formed. repeat split; try discriminate. lia.
  - lia.
  - reflexivity.
  - cbn. lia.
  - lia.
  - cbv zeta in Hreal.
    change (knot two_knots 0 0) with 0 in Hreal.
    change (knot two_knots 0 1) with 0 in Hreal.
    change (knot two_knots 0 2) with 0 in Hreal.
    change (knot two_knots 0 3) with 0 in Hreal.
    change (knot two_knots 0 4) with 1 in Hreal.
    change (knot two_knots 0 5) with 0 in Hreal.
    change (knot two_knots 0 6) with 0 in Hreal.
    change (knot two_knots 0 7) with 0 in Hreal.
    change (knot two_knots (0 + 1) 0) with 0 in Hreal.
    change (knot two_knots (0 + 1) 1) with 0 in Hreal.
    change (knot two_knots (0 + 1) 2) with 0 in Hreal.
    change (knot two_knots (0 + 1) 3) with 0 in Hreal.
    change (knot two_knots (0 + 1) 4) with 1 in Hreal.
    change (knot two_knots (0 + 1) 5) with 0 in Hreal.
    change (knot two_knots (0 + 1) 6) with 0 in Hreal.
    change (knot two_knots (0 + 1) 7) with 0 in Hreal.
    cbn [combined_param.fp unit_glider fpgm_param.h] in Hreal.
    fold unit_glider in Hreal.
    rewrite fpgm_dynamics_level_flight in Hreal.
    destruct (Hreal (-9.81) (-9.81) eq_refl eq_refl) as (Hlo & Hhi & _).
    change (26 * 0 + 2 * 5)%nat with 10%nat in Hlo.
    change (26 * 0 + 2 * 5 + 1)%nat with 11%nat in Hhi.
    exists r. split; [exact Hr|].
    split; [rewrite Hlo; do 2 f_equal; lra|].
    split; [rewrite Hhi; do 2 f_equal; lra | lra].
Defined.

(** ** The anchor residuals *)

Lemma residuals_anchor_suffix (data : combined_param) (N : nat) (x : list R)
    (result : list num) :
  length x = (8 * N)%nat -> length result = (4 + 26 * N)%nat ->
  let boundary := combined_param.oc data in
  let ix_0 := nth 0 (optimization_constrain.ix boundary) 0 in
  let iz_0 := nth 0 (optimization_constrain.iz boundary) 0 in
  drop (26 * N) (residuals data x result) =
    [ (- inj (nth 0 x 0) - inj ix_0)%num; (inj (nth 0 x 0) - inj ix_0)%num;
      (- inj (nth 1 x 0) - inj iz_0)%num; (inj (nth 1 x 0) - inj iz_0)%num ].
Proof.
  intros Hx Hr boundary ix_0 iz_0.
  destruct (residuals_lookup_anchor data N x result Hx ltac:(lia))
    as (H0 & H1 & H2 & H3).
  apply list_eq. intros k. rewrite lookup_drop.
  destruct k as [|[|[|[|k]]]]; cbn [lookup list_lookup].
  - now rewrite Nat.add_0_r.
  - exact H1.
  - exact H2.
  - exact H3.
  - apply lookup_ge_None_2. rewrite length_residuals. lia.
Qed.

(** C4 (the code departs from the claim).  The builder passes the target
    where [set_bounded_constrains] expects the bound, so that the two pairs
    it appends compare [|x_0|] with [ix[0]] and [|z_0|] with [iz[0]].  A
    first knot that sits exactly on the targets (-1, -1) gets the anchor
    residuals 2, 0, 2, 0, which are not all [<= 0]; a first knot at (0, 0),
    one unit away from the targets (1, 1) on both axes, gets -1, -1, -1, -1,
    which are. *)
Theorem anchor_residuals_target_as_bound :
  exists r_on r_off : list num,
    collocation_eq_constraints 30 (blank 30) 8 on_target_knot
      (combined_param.mk unit_glider (targets [-1] [-1])) = Some r_on
    /\ drop 26 r_on = [inj 2; inj 0; inj 2; inj 0]
    /\ anchored_within 0 on_target_knot (targets [-1] [-1])
    /\ ~ anchors_nonpositive 1 r_on
    /\ collocation_eq_constraints 30 (blank 30) 8 one_knot
         (combined_param.mk unit_glider (targets [1] [1])) = Some r_off
    /\ drop 26 r_off = [inj (-1); inj (-1); inj (-1); inj (-1)]
    /\ anchors_nonpositive 1 r_off
    /\ (forall tau : R,
          tau < 1 -> ~ anchored_within tau one_knot (targets [1] [1])).
Proof.
  set (d_on := combined_param.mk unit_glider (targets [-1] [-1])).
  set (d_off := combined_param.mk unit_glider (targets [1] [1])).
  assert (Hon : drop 26 (residuals d_on on_target_knot (blank 30))
                = [inj 2; inj 0; inj 2; inj 0]).
  { pose proof (residuals_anchor_suffix d_on 1 on_target_knot (blank 30)
                  eq_refl eq_refl) as Hs.
    change (26 * 1)%nat with 26%nat in Hs. rewrite Hs. clear Hs.
    cbn [d_on combined_param.oc targets optimization_constrain.ix
         optimization_constrain.iz nth on_target_knot].
    cbn [nopp nsub]. list_of_numbers. }
  assert (Hoff : drop 26 (residuals d_off one_knot (blank 30))
                 = [inj (-1); inj (-1); inj (-1); inj (-1)]).
  { pose proof (residuals_anchor_suffix d_off 1 one_knot (blank 30)
                  eq_refl eq_refl) as Hs.
    change (26 * 1)%nat with 26%nat in Hs. rewrite Hs. clear Hs.
    cbn [d_off combined_param.oc targets optimization_constrain.ix
         optimization_constrain.iz nth one_knot replicate].
    cbn [nopp nsub]. list_of_numbers. }
  exists (residuals d_on on_target_knot (blank 30)),
         (residuals d_off one_knot (blank 30)).
  split; [apply (collocation_eq_constraints_Some 1);
          [apply well_formed_8; [reflexivity | discriminate..] | cbn; lia]|].
  split; [exact Hon|].
  split.
  { unfold anchored_within.
    cbn [targets optimization_constrain.ix optimization_constrain.iz nth
         on_target_knot].
    replace (-1 - -1) with 0 by lra. rewrite Rabs_R0. lra. }
  split.
  { unfold anchors_nonpositive. change (26 * 1)%nat with 26%nat.
    rewrite Hon. intros H. apply Forall_cons in H as [H _].
    cbn [nle] in H. lra. }
  split; [apply (collocation_eq_constraints_Some 1);
          [apply well_formed_one_knot; discriminate | cbn; lia]|].
  split; [exact Hoff|].
  split.
  { unfold anchors_nonpositive. change (26 * 1)%nat with 26%nat.
    rewrite Hoff. repeat constructor; cbn [nle]; lra. }
  intros tau Htau [Hx _]. unfold anchored_within in Hx.
  cbn [targets optimization_constrain.ix nth one_knot replicate] in Hx.
  replace (0 - 1) with (- (1)) in Hx by lra.
  rewrite Rabs_Ropp, Rabs_R1 in Hx. lra.
Qed.

(** ** The cost evaluator *)

Lemma fold_left_sum (f : nat -> R) (count : nat) :
  forall (i : nat) (acc : R),
    fold_left (fun cost i => cost + f i) (seq i count) acc
      = acc + fold_right Rplus 0 (map f (seq i count)).
Proof.
  induction count as [|count IH]; intros i acc; cbn.
  - lra.
  - rewrite IH. lra.
Qed.

Lemma control_effort_objective_Some
    (N n : nat) (x : list R) (data : combined_param) :
  well_formed N n x data ->
  control_effort_objective n x data = Some (cost_value data N x).
Proof.
  intros (Hn & HN & H1 & Hix & Hiz).
  assert (Hx : length x = (8 * N)%nat) by congruence.
  assert (Hix' : (0 < length (optimization_constrain.ix (combined_param.oc data)))%nat)
    by (destruct (optimization_constrain.ix _); [congruence | cbn; lia]).
  assert (Hiz' : (0 < length (optimization_constrain.iz (combined_param.oc data)))%nat)
    by (destruct (optimization_constrain.iz _); [congruence | cbn; lia]).
  unfold control_effort_objective, cost_value. cbv zeta.
  rewrite HN, div_8.
  match goal with
  | |- context [for_loop 0 N ?body 0] =>
      destruct (for_loop_fold body
              (fun cost i => cost + knot_cost (combined_param.fp data) x i)
              (fun _ _ => True) N 0 0) as [Hloop _]; [|exact Logic.I|]
  end.
  { intros k s Hk _. split; [|exact Logic.I].
    repeat (rewrite read_Some by lia; cbn [mbind option_bind]).
    reflexivity. }
  rewrite Hloop. cbn [mbind option_bind].
  rewrite !read_Some by lia. cbn [mbind option_bind].
  rewrite fold_left_sum. unfold sum_upto. do 2 f_equal. lra.
Qed.

Lemma sum_upto_ext (n : nat) (f g : nat -> R) :
  (forall i, (i < n)%nat -> f i = g i) -> sum_upto n f = sum_upto n g.
Proof.
  intros Hfg. unfold sum_upto. f_equal. apply map_ext_in.
  intros i Hi. apply in_seq in Hi. apply Hfg. lia.
Qed.

Lemma sum_from_le (f g : nat -> R) (count : nat) :
  forall i : nat,
    (forall k, (i <= k < i + count)%nat -> f k <= g k) ->
    fold_right Rplus 0 (map f (seq i count))
      <= fold_right Rplus 0 (map g (seq i count)).
Proof.
  induction count as [|count IH]; intros i Hfg; cbn.
  - lra.
  - apply Rplus_le_compat; [apply Hfg; lia | apply IH; intros k Hk; apply Hfg; lia].
Qed.

Lemma sum_upto_le (n : nat) (f g : nat -> R) :
  (forall i, (i < n)%nat -> f i <= g i) -> sum_upto n f <= sum_upto n g.
Proof. intros Hfg. apply sum_from_le. intros k Hk. apply Hfg. lia. Qed.

Lemma quadratic_form_spec (Q : MatrixXd) (s : list R) :
  quadratic_form Q s = spec_quadratic Q s.
Proof.
  unfold quadratic_form, spec_quadratic, sum_upto.
  cbn [seq map fold_right]. ring.
Qed.

(** C5.  For a decision vector of [8 N] entries the cost evaluator returns
    h * sum_{i < N} (state_i^T Q state_i + control_i R control_i)
    + 1e6 * (|x_0 - ix[0]| + |z_0 - iz[0]|). *)
Theorem control_effort_objective_value
    (N n : nat) (x : list R) (data : combined_param) :
  well_formed N n x data ->
  let fpgm := combined_param.fp data in
  let boundary := combined_param.oc data in
  control_effort_objective n x data =
    Some (fpgm_param.h fpgm
          * sum_upto N
              (fun i =>
                 spec_quadratic (fpgm_param.Q fpgm) (state x i)
                 + control x i * fpgm_param.R fpgm * control x i)
          + 1e6 * (Rabs (knot x 0 0
                         - nth 0 (optimization_constrain.ix boundary) 0)
                   + Rabs (knot x 0 1
                           - nth 0 (optimization_constrain.iz boundary) 0))).
Proof.
  intros Hwf fpgm boundary.
  rewrite (control_effort_objective_Some N) by exact Hwf.
  unfold cost_value. cbv zeta. f_equal.
  rewrite (sum_upto_ext N (knot_cost (combined_param.fp data) x)
             (fun i =>
                spec_quadratic (fpgm_param.Q fpgm) (state x i)
                + control x i * fpgm_param.R fpgm * control x i)).
  - unfold knot. cbn [Nat.add Nat.mul]. fold fpgm boundary. ring.
  - intros i _. unfold knot_cost. now rewrite quadratic_form_spec.
Qed.

Lemma control_effort_objective_value_witness :
  control_effort_objective 8 one_knot
    (combined_param.mk unit_glider (targets [1] [1]))
  = Some (1 * sum_upto 1
                (fun i =>
                   spec_quadratic (fpgm_param.Q unit_glider) (state one_knot i)
                   + control one_knot i * 1 * control one_knot i)
          + 1e6 * (Rabs (knot one_knot 0 0 - 1) + Rabs (knot one_knot 0 1 - 1))).
Proof.
  apply (control_effort_objective_value 1 8 one_knot
           (combined_param.mk unit_glider (targets [1] [1]))).
  apply well_formed_one_knot; discriminate.
Defined.

(** Replacing entry [k] of the decision vector. *)
Lemma knot_insert_eq (x : list R) (k : nat) (v : R) (i j : nat) :
  (k < length x)%nat -> (j + 8 * i)%nat = k ->
  knot (<[k := v]> x) i j = v.
Proof.
  intros Hk <-. unfold knot. rewrite nth_lookup.
  now rewrite list_lookup_insert_eq.
Qed.

Lemma knot_insert_ne (x : list R) (k : nat) (v : R) (i j : nat) :
  (j + 8 * i)%nat <> k -> knot (<[k := v]> x) i j = knot x i j.
Proof.
  intros Hk. unfold knot. rewrite !nth_lookup.
  now rewrite list_lookup_insert_ne by (intros ->; contradiction).
Qed.

Lemma square_le_abs (a b : R) : Rabs a <= Rabs b -> a * a <= b * b.
Proof. intros H. apply Rsqr_le_abs_1 in H. exact H. Qed.

Lemma knot_insert_square_le (x : list R) (k : nat) (a b : R) (i j : nat) :
  (k < length x)%nat -> Rabs a <= Rabs b ->
  knot (<[k := a]> x) i j * knot (<[k := a]> x) i j
    <= knot (<[k := b]> x) i j * knot (<[k := b]> x) i j.
Proof.
  intros Hk Hab. destruct (decide ((j + 8 * i)%nat = k)) as [He|Hne].
  - rewrite !knot_insert_eq by assumption. now apply square_le_abs.
  - rewrite !knot_insert_ne by assumption. lra.
Qed.

Ltac clear_off_diagonal Q Hdiag :=
  repeat match goal with
         | |- context [Q ?a ?b] =>
             lazymatch a with
             | b => fail
             | _ => rewrite (Hdiag a b) by lia
             end
         end.

Lemma quadratic_form_diagonal (Q : MatrixXd) (e0 e1 e2 e3 e4 e5 e6 : R) :
  diagonal Q ->
  quadratic_form Q [e0; e1; e2; e3; e4; e5; e6] =
    Q 0%nat 0%nat * (e0 * e0) + Q 1%nat 1%nat * (e1 * e1)
    + Q 2%nat 2%nat * (e2 * e2) + Q 3%nat 3%nat * (e3 * e3)
    + Q 4%nat 4%nat * (e4 * e4) + Q 5%nat 5%nat * (e5 * e5)
    + Q 6%nat 6%nat * (e6 * e6).
Proof.
  intros Hdiag. unfold quadratic_form, sum_upto.
  cbn [seq map fold_right nth]. clear_off_diagonal Q Hdiag. ring.
Qed.

Lemma mod_8_index (i j : nat) : (j < 8)%nat -> ((j + 8 * i) mod 8 = j)%nat.
Proof.
  intros Hj. rewrite (Nat.mul_comm 8 i), Nat.Div0.mod_add.
  now apply Nat.mod_small.
Qed.

Lemma knot_cost_monotone (fpgm : fpgm_param) (x : list R) (k : nat)
    (a b : R) (i : nat) :
  (k < length x)%nat -> Rabs a <= Rabs b ->
  0 <= fpgm_param.R fpgm ->
  (k mod 8 = 7)%nat
  \/ (diagonal (fpgm_param.Q fpgm)
      /\ nonnegative_diagonal (fpgm_param.Q fpgm)) ->
  knot_cost fpgm (<[k := a]> x) i <= knot_cost fpgm (<[k := b]> x) i.
Proof.
  intros Hk Hab HR Hcase. unfold knot_cost, control.
  pose proof (knot_insert_square_le x k a b i 7 Hk Hab) as H7.
  assert (Hu : knot (<[k := a]> x) i 7 * fpgm_param.R fpgm
                 * knot (<[k := a]> x) i 7
               <= knot (<[k := b]> x) i 7 * fpgm_param.R fpgm
                 * knot (<[k := b]> x) i 7) by nra.
  destruct Hcase as [Hctl | [Hdiag Hnn]].
  - assert (Hs : state (<[k := a]> x) i = state (<[k := b]> x) i).
    { unfold state.
      rewrite !(knot_insert_ne x k a), !(knot_insert_ne x k b)
        by (intros He; rewrite <- He, mod_8_index in Hctl by lia; lia).
      reflexivity. }
    rewrite Hs. lra.
  - unfold state. rewrite !quadratic_form_diagonal by exact Hdiag.
    pose proof (knot_insert_square_le x k a b i 0 Hk Hab) as H0.
    pose proof (knot_insert_square_le x k a b i 1 Hk Hab) as H1.
    pose proof (knot_insert_square_le x k a b i 2 Hk Hab) as H2.
    pose proof (knot_insert_square_le x k a b i 3 Hk Hab) as H3.
    pose proof (knot_insert_square_le x k a b i 4 Hk Hab) as H4.
    pose proof (knot_insert_square_le x k a b i 5 Hk Hab) as H5.
    pose proof (knot_insert_square_le x k a b i 6 Hk Hab) as H6.
    pose proof (Hnn 0%nat ltac:(lia)) as Q0.
    pose proof (Hnn 1%nat ltac:(lia)) as Q1.
    pose proof (Hnn 2%nat ltac:(lia)) as Q2.
    pose proof (Hnn 3%nat ltac:(lia)) as Q3.
    pose proof (Hnn 4%nat ltac:(lia)) as Q4.
    pose proof (Hnn 5%nat ltac:(lia)) as Q5.
    pose proof (Hnn 6%nat ltac:(lia)) as Q6.
    repeat apply Rplus_le_compat;
      try (apply Rmult_le_compat_l; assumption); exact Hu.
Qed.

Lemma cost_value_monotone (data : combined_param) (N : nat) (x : list R)
    (k : nat) (a b : R) :
  (k < length x)%nat -> (2 <= k)%nat -> Rabs a <= Rabs b ->
  0 <= fpgm_param.h (combined_param.fp data) ->
  0 <= fpgm_param.R (combined_param.fp data) ->
  (k mod 8 = 7)%nat
  \/ (diagonal (fpgm_param.Q (combined_param.fp data))
      /\ nonnegative_diagonal (fpgm_param.Q (combined_param.fp data))) ->
  cost_value data N (<[k := a]> x) <= cost_value data N (<[k := b]> x).
Proof.
  intros Hk H2 Hab Hh HR Hcase. unfold cost_value. cbv zeta.
  change (nth 0 (<[k:=a]> x) 0) with (knot (<[k:=a]> x) 0 0).
  change (nth 1 (<[k:=a]> x) 0) with (knot (<[k:=a]> x) 0 1).
  change (nth 0 (<[k:=b]> x) 0) with (knot (<[k:=b]> x) 0 0).
  change (nth 1 (<[k:=b]> x) 0) with (knot (<[k:=b]> x) 0 1).
  rewrite !knot_insert_ne by lia.
  apply Rplus_le_compat_r. apply Rmult_le_compat_r; [exact Hh|].
  apply sum_upto_le. intros i _. now apply knot_cost_monotone.
Qed.

(** C7 (amended).  With a timestep [h >= 0] and a weight [R >= 0], the cost
    evaluator's value does not decrease when the magnitude of one control
    entry grows; with [Q] diagonal with a non-negative diagonal, the same
    holds for one state entry other than the horizontal and vertical
    position of the first knot.  All other entries are held fixed. *)
Theorem cost_monotone_in_magnitude
    (N n : nat) (x : list R) (data : combined_param) (k : nat) (a b : R) :
  well_formed N n x data ->
  (k < n)%nat -> (2 <= k)%nat -> Rabs a <= Rabs b ->
  0 <= fpgm_param.h (combined_param.fp data) ->
  0 <= fpgm_param.R (combined_param.fp data) ->
  (k mod 8 = 7)%nat
  \/ (diagonal (fpgm_param.Q (combined_param.fp data))
      /\ nonnegative_diagonal (fpgm_param.Q (combined_param.fp data))) ->
  exists cost_a cost_b : R,
    control_effort_objective n (<[k := a]> x) data = Some cost_a
    /\ control_effort_objective n (<[k := b]> x) data = Some cost_b
    /\ cost_a <= cost_b.
Proof.
  intros Hwf Hk H2 Hab Hh HR Hcase.
  pose proof Hwf as (Hn & HN & H1 & Hix & Hiz).
  exists (cost_value data N (<[k := a]> x)), (cost_value data N (<[k := b]> x)).
  split; [|split].
  - apply control_effort_objective_Some. unfold well_formed.
    rewrite length_insert. auto.
  - apply control_effort_objective_Some. unfold well_formed.
    rewrite length_insert. auto.
  - apply cost_value_monotone; try assumption. lia.
Qed.

Lemma diagonal_unit_glider : diagonal (fpgm_param.Q unit_glider).
Proof.
  intros a b _ _ Hab. cbn. destruct (Nat.eqb_spec a b); [contradiction|].
  reflexivity.
Qed.

Lemma nonnegative_diagonal_unit_glider :
  nonnegative_diagonal (fpgm_param.Q unit_glider).
Proof. intros c _. cbn. rewrite Nat.eqb_refl. lra. Qed.

Lemma cost_monotone_in_magnitude_witness :
  exists cost_a cost_b : R,
    control_effort_objective 8 (<[2%nat := 0]> one_knot)
      (combined_param.mk unit_glider (targets [1] [1])) = Some cost_a
    /\ control_effort_objective 8 (<[2%nat := 1]> one_knot)
      (combined_param.mk unit_glider (targets [1] [1])) = Some cost_b
    /\ cost_a <= cost_b.
Proof.
  apply (cost_monotone_in_magnitude 1 8 one_knot
           (combined_param.mk unit_glider (targets [1] [1])) 2 0 1).
  - apply well_formed_one_knot; discriminate.
  - lia.
  - lia.
  - rewrite Rabs_R0, Rabs_R1. lra.
  - cbn. lra.
  - cbn. lra.
  - right. split;
      [exact diagonal_unit_glider | exact nonnegative_diagonal_unit_glider].
Defined.

Ltac expand_quadratic_form :=
  unfold quadratic_form, sum_upto;
  cbn [seq map fold_right nth fpgm_param.Q unit_glider coupled_weights
       Nat.eqb andb orb].

Lemma positive_definite_unit_glider :
  positive_definite (fpgm_param.Q unit_glider).
Proof.
  intros s Hs (c & Hc & Hnz).
  do 8 (destruct s as [|? s]; try discriminate). expand_quadratic_form.
  assert (Hsq : forall r : R, 0 <= r * r) by (intros; nra).
  assert (Hpos : 0 < nth c [r; r0; r1; r2; r3; r4; r5] 0
                     * nth c [r; r0; r1; r2; r3; r4; r5] 0) by nra.
  pose proof (Hsq r); pose proof (Hsq r0); pose proof (Hsq r1);
    pose proof (Hsq r2); pose proof (Hsq r3); pose proof (Hsq r4);
    pose proof (Hsq r5).
  do 7 (destruct c as [|c]; [cbn [nth] in Hpos; lra|]). lia.
Qed.

Lemma positive_definite_coupled_weights : positive_definite coupled_weights.
Proof.
  intros s Hs (c & Hc & Hnz).
  do 8 (destruct s as [|? s]; try discriminate). expand_quadratic_form.
  assert (Hsq : forall r : R, 0 <= r * r) by (intros; nra).
  assert (Hpos : 0 < nth c [r; r0; r1; r2; r3; r4; r5] 0
                     * nth c [r; r0; r1; r2; r3; r4; r5] 0) by nra.
  pose proof (Hsq r); pose proof (Hsq r0); pose proof (Hsq r1);
    pose proof (Hsq r2); pose proof (Hsq r3); pose proof (Hsq r4);
    pose proof (Hsq r5); pose proof (Hsq (r1 - r2)).
  do 7 (destruct c as [|c]; [cbn [nth] in Hpos; lra|]). lia.
Qed.

Ltac evaluate_objective :=
  rewrite (control_effort_objective_Some 1)
    by (apply well_formed_8; [reflexivity | discriminate | discriminate]);
  f_equal;
  cbn [one_knot replicate insert list_insert];
  unfold cost_value, knot_cost, state, control, knot; cbv zeta;
  unfold sum_upto;
  cbn [seq map fold_right nth Nat.add Nat.mul combined_param.fp
       combined_param.oc fpgm_param.h fpgm_param.R fpgm_param.Q targets
       optimization_constrain.ix optimization_constrain.iz
       coupled_glider reversed_glider];
  expand_quadratic_form;
  cbn [unit_glider fpgm_param.h fpgm_param.R];
  unfold Rabs; repeat destruct (Rcase_abs _); try lra.

(** C7 as stated fails, in three ways.  (1) With the identity for [Q],
    [R = 1], [h = 1] and the target (1, 0): moving the horizontal position
    of the first knot from 0 to 1 lowers the cost from 1e6 to 1.  (2) With
    the coupled weights, which are positive definite, and the elevator
    angle at 4: raising the pitch from 0 to 1 lowers the cost from 64 to 60.
    (3) With a negative timestep: raising the control from 0 to 1 lowers the
    cost from 0 to -1. *)
Lemma cost_monotone_counterexample :
  (positive_definite (fpgm_param.Q unit_glider)
   /\ 0 < fpgm_param.R unit_glider
   /\ Rabs 0 <= Rabs 1
   /\ control_effort_objective 8 (<[0%nat := 0]> one_knot)
        (combined_param.mk unit_glider (targets [1] [0])) = Some 1e6
   /\ control_effort_objective 8 (<[0%nat := 1]> one_knot)
        (combined_param.mk unit_glider (targets [1] [0])) = Some 1
   /\ 1 < 1e6)
  /\ (positive_definite (fpgm_param.Q coupled_glider)
      /\ 0 < fpgm_param.R coupled_glider
      /\ Rabs 0 <= Rabs 1
      /\ control_effort_objective 8
           (<[2%nat := 0]> (<[3%nat := 4]> one_knot))
           (combined_param.mk coupled_glider (targets [0] [0])) = Some 64
      /\ control_effort_objective 8
           (<[2%nat := 1]> (<[3%nat := 4]> one_knot))
           (combined_param.mk coupled_glider (targets [0] [0])) = Some 60
      /\ 60 < 64)
  /\ (positive_definite (fpgm_param.Q reversed_glider)
      /\ 0 < fpgm_param.R reversed_glider
      /\ Rabs 0 <= Rabs 1
      /\ control_effort_objective 8 (<[7%nat := 0]> one_knot)
           (combined_param.mk reversed_glider (targets [0] [0])) = Some 0
      /\ control_effort_objective 8 (<[7%nat := 1]> one_knot)
           (combined_param.mk reversed_glider (targets [0] [0])) = Some (-1)
      /\ -1 < 0).
Proof.
  assert (Habs : Rabs 0 <= Rabs 1) by (rewrite Rabs_R0, Rabs_R1; lra).
  split; [|split].
  - split; [exact positive_definite_unit_glider|].
    split; [cbn; lra|]. split; [exact Habs|].
    split; [evaluate_objective|]. split; [evaluate_objective|]. lra.
  - split; [exact positive_definite_coupled_weights|].
    split; [cbn; lra|]. split; [exact Habs|].
    split; [evaluate_objective|]. split; [evaluate_objective|]. lra.
  - split; [exact positive_definite_unit_glider|].
    split; [cbn; lra|]. split; [exact Habs|].
    split; [evaluate_objective|]. split; [evaluate_objective|]. lra.
Qed.

(** * Further properties of the code *)

(** ** The aerodynamic coefficients and the dynamics model *)


Lemma lift_drag_reversed (o vx vz : R) :
  (cl (angle_of_attack o (- vx) (- vz))
   + cd (angle_of_attack o (- vx) (- vz)))%num
  = (cl (angle_of_attack o vx vz) + cd (angle_of_attack o vx vz))%num.
Proof.
  destruct (Req_dec_T vx 0) as [Hx|Hx];
    [|now rewrite angle_of_attack_reversed].
  subst vx. unfold angle_of_attack. rewrite Ropp_0.
  destruct (Req_dec_T 0 0) as [_|Hne]; [|now contradict Hne].
  destruct (Rlt_dec 0 vz) as [Hp|Hp].
  - destruct (Rlt_dec 0 (- vz)) as [H|_]; [exfalso; lra|].
    destruct (Rlt_dec (- vz) 0) as [_|H]; [|exfalso; lra].
    rewrite !lift_drag_value. f_equal.
    replace (o + PI / 2) with (o - PI / 2 + PI) by lra.
    apply lift_drag_half_turn.
  - destruct (Rlt_dec vz 0) as [Hn|Hn].
    + destruct (Rlt_dec 0 (- vz)) as [_|H]; [|exfalso; lra].
      rewrite !lift_drag_value. f_equal.
      replace (o + PI / 2) with (o - PI / 2 + PI) by lra.
      symmetry. apply lift_drag_half_turn.
    + destruct (Rlt_dec 0 (- vz)) as [H|_]; [exfalso; lra|].
      destruct (Rlt_dec (- vz) 0) as [H|_]; [exfalso; lra|reflexivity].
Qed.

Lemma speed_squared_reversed (vx vz : R) :
  (npow (inj (- vx)) 2 + npow (inj (- vz)) 2)%num
  = (npow (inj vx) 2 + npow (inj vz) 2)%num.
Proof. cbn [npow nadd]. f_equal. ring. Qed.

Lemma force_w_reversed (parameter : fpgm_param) (theta xdot zdot thetadot : R) :
  force_w parameter theta (- xdot) (- zdot) (- thetadot)
  = force_w parameter theta xdot zdot thetadot.
Proof.
  unfold force_w. cbv zeta. rewrite !alpha_w_value, !x_w_dot_value.
  cbn [fst snd].
  replace (- xdot + fpgm_param.l_w parameter * - thetadot * sin theta)
    with (- (xdot + fpgm_param.l_w parameter * thetadot * sin theta)) by ring.
  replace (- zdot - fpgm_param.l_w parameter * - thetadot * cos theta)
    with (- (zdot - fpgm_param.l_w parameter * thetadot * cos theta)) by ring.
  now rewrite lift_drag_reversed, speed_squared_reversed.
Qed.

Lemma force_e_reversed (parameter : fpgm_param)
    (theta phi xdot zdot thetadot phidot : R) :
  force_e parameter theta phi (- xdot) (- zdot) (- thetadot) (- phidot)
  = force_e parameter theta phi xdot zdot thetadot phidot.
Proof.
  unfold force_e. cbv zeta. rewrite !alpha_e_value, !x_e_dot_value.
  cbn [fst snd].
  replace (- xdot + fpgm_param.l parameter * - thetadot * sin theta
           + fpgm_param.l_e parameter * (- thetadot + - phidot)
             * sin (theta + phi))
    with (- (xdot + fpgm_param.l parameter * thetadot * sin theta
             + fpgm_param.l_e parameter * (thetadot + phidot)
               * sin (theta + phi))) by ring.
  replace (- zdot - fpgm_param.l parameter * - thetadot * cos theta
           - fpgm_param.l_e parameter * (- thetadot + - phidot)
             * cos (theta + phi))
    with (- (zdot - fpgm_param.l parameter * thetadot * cos theta
             - fpgm_param.l_e parameter * (thetadot + phidot)
               * cos (theta + phi))) by ring.
  now rewrite lift_drag_reversed, speed_squared_reversed.
Qed.

(** X2.  The accelerations do not see the direction of motion: reversing
    the two velocities, the pitch rate and the elevator rate leaves the
    components 4, 5 and 6 of the derivative as they were (the first four
    change their sign). *)
Theorem fpgm_dynamics_reversed_motion
    (x z theta phi xdot zdot thetadot phidot : R) (parameter : fpgm_param) :
  drop 4 (fpgm_dynamics x z theta phi (- xdot) (- zdot) (- thetadot)
            (- phidot) parameter)
  = drop 4 (fpgm_dynamics x z theta phi xdot zdot thetadot phidot parameter)
  /\ take 4 (fpgm_dynamics x z theta phi (- xdot) (- zdot) (- thetadot)
               (- phidot) parameter)
     = map nopp
         (take 4 (fpgm_dynamics x z theta phi xdot zdot thetadot phidot
                    parameter)).
Proof.
  unfold fpgm_dynamics, pos_dotdot, theta_dotdot. cbv zeta.
  rewrite force_w_reversed, force_e_reversed. split; reflexivity.
Qed.

Lemma velocity_at_rest (vx vz : R) :
  (inj vx, inj vz) = (inj 0, inj 0) <-> vx = 0 /\ vz = 0.
Proof.
  split; [intros [= -> ->]; now split | intros [-> ->]; reflexivity].
Qed.

Lemma alpha_w_at_rest (parameter : fpgm_param) (theta xdot zdot thetadot : R) :
  alpha_w parameter theta xdot zdot thetadot = undef
  <-> x_w_dot parameter theta xdot zdot thetadot = (inj 0, inj 0).
Proof.
  rewrite alpha_w_value, x_w_dot_value, velocity_at_rest.
  apply angle_of_attack_undef.
Qed.

Lemma alpha_e_at_rest (parameter : fpgm_param)
    (theta phi xdot zdot thetadot phidot : R) :
  alpha_e parameter theta phi xdot zdot thetadot phidot = undef
  <-> x_e_dot parameter theta phi xdot zdot thetadot phidot = (inj 0, inj 0).
Proof.
  rewrite alpha_e_value, x_e_dot_value, velocity_at_rest.
  apply angle_of_attack_undef.
Qed.

Lemma alpha_w_number (parameter : fpgm_param) (theta xdot zdot thetadot : R) :
  x_w_dot parameter theta xdot zdot thetadot <> (inj 0, inj 0) ->
  exists a : R, alpha_w parameter theta xdot zdot thetadot = inj a.
Proof.
  intros Hv. rewrite <- alpha_w_at_rest in Hv. rewrite alpha_w_value in *.
  destruct (angle_of_attack_cases theta
              (xdot + fpgm_param.l_w parameter * thetadot * sin theta)
              (zdot - fpgm_param.l_w parameter * thetadot * cos theta))
    as [Ha|[Hu _]]; [exact Ha | contradiction].
Qed.

Lemma alpha_e_number (parameter : fpgm_param)
    (theta phi xdot zdot thetadot phidot : R) :
  x_e_dot parameter theta phi xdot zdot thetadot phidot <> (inj 0, inj 0) ->
  exists a : R, alpha_e parameter theta phi xdot zdot thetadot phidot = inj a.
Proof.
  intros Hv. rewrite <- alpha_e_at_rest in Hv. rewrite alpha_e_value in *.
  destruct (angle_of_attack_cases (theta + phi)
              (xdot + fpgm_param.l parameter * thetadot * sin theta
               + fpgm_param.l_e parameter * (thetadot + phidot)
                 * sin (theta + phi))
              (zdot - fpgm_param.l parameter * thetadot * cos theta
               - fpgm_param.l_e parameter * (thetadot + phidot)
                 * cos (theta + phi)))
    as [Ha|[Hu _]]; [exact Ha | contradiction].
Qed.

(** X3.  The derivative is a vector of seven finite numbers exactly when
    neither centroid is at rest (its velocity is not zero in both
    components) and the mass and the moment of inertia are different from
    zero.  A centroid at rest gives the quotient 0/0; a zero mass or
    moment of inertia gives an infinite or undefined acceleration. *)
Theorem fpgm_dynamics_has_values
    (x z theta phi xdot zdot thetadot phidot : R) (parameter : fpgm_param) :
  (exists v : list R,
     fpgm_dynamics x z theta phi xdot zdot thetadot phidot parameter
       = map inj v)
  <-> (x_w_dot parameter theta xdot zdot thetadot <> (inj 0, inj 0)
       /\ x_e_dot parameter theta phi xdot zdot thetadot phidot
          <> (inj 0, inj 0)
       /\ fpgm_param.mass parameter <> 0
       /\ fpgm_param.I parameter <> 0).
Proof.
  split.
  - intros [v Hv].
    assert (Hw : x_w_dot parameter theta xdot zdot thetadot
                 <> (inj 0, inj 0)).
    { intros H0. apply alpha_w_at_rest in H0.
      rewrite (fpgm_dynamics_undefined x z theta phi xdot zdot thetadot phidot
                 parameter (or_introl H0)) in Hv.
      do 5 (destruct v as [|? v]; [discriminate|]). discriminate. }
    assert (He : x_e_dot parameter theta phi xdot zdot thetadot phidot
                 <> (inj 0, inj 0)).
    { intros H0. apply alpha_e_at_rest in H0.
      rewrite (fpgm_dynamics_undefined x z theta phi xdot zdot thetadot phidot
                 parameter (or_intror H0)) in Hv.
      do 5 (destruct v as [|? v]; [discriminate|]). discriminate. }
    split; [exact Hw|]. split; [exact He|].
    destruct (alpha_w_number _ _ _ _ _ Hw) as [a_w Ha_w].
    destruct (alpha_e_number _ _ _ _ _ _ _ He) as [a_e Ha_e].
    rewrite (fpgm_dynamics_value x z theta phi xdot zdot thetadot phidot
               a_w a_e parameter Ha_w Ha_e) in Hv.
    cbv zeta in Hv.
    do 7 (destruct v as [|? v]; [discriminate|]).
    pose proof (f_equal (fun l => nth 4 l undef) Hv) as H4.
    pose proof (f_equal (fun l => nth 6 l undef) Hv) as H6.
    cbn [nth map] in H4, H6.
    split.
    + intros Hm. rewrite Hm in H4. exact (ndiv_by_zero _ _ H4).
    + intros HI. rewrite HI in H6. exact (ndiv_by_zero _ _ H6).
  - intros (Hw & He & Hm & HI).
    destruct (alpha_w_number _ _ _ _ _ Hw) as [a_w Ha_w].
    destruct (alpha_e_number _ _ _ _ _ _ _ He) as [a_e Ha_e].
    rewrite (fpgm_dynamics_value x z theta phi xdot zdot thetadot phidot
               a_w a_e parameter Ha_w Ha_e).
    cbv zeta. rewrite !ndiv_nonzero by assumption.
    eexists [_; _; _; _; _; _; _]. reflexivity.
Qed.

Lemma fpgm_dynamics_has_values_witness :
  exists v : list R, fpgm_dynamics 0 0 0 0 0 1 0 0 unit_glider = map inj v.
Proof.
  apply (fpgm_dynamics_has_values 0 0 0 0 0 1 0 0 unit_glider).
  rewrite x_w_dot_value, x_e_dot_value.
  cbn [unit_glider fpgm_param.l_w fpgm_param.l fpgm_param.l_e
       fpgm_param.mass fpgm_param.I].
  repeat split; try (intros [= _ H]; rewrite ?cos_0 in H;
                     replace (0 + 0) with 0 in H by lra;
                     rewrite ?cos_0 in H; lra); lra.
Defined.

(** X4.  A surface that moves edge-on feels no force: when both angles of
    attack are zero (and mass and inertia are not), the glider is in free
    fall, with accelerations [0], [-9.81] and [0]. *)
Theorem fpgm_dynamics_free_fall
    (x z theta phi xdot zdot thetadot phidot : R) (parameter : fpgm_param) :
  alpha_w parameter theta xdot zdot thetadot = inj 0 ->
  alpha_e parameter theta phi xdot zdot thetadot phidot = inj 0 ->
  fpgm_param.mass parameter <> 0 -> fpgm_param.I parameter <> 0 ->
  fpgm_dynamics x z theta phi xdot zdot thetadot phidot parameter =
    [inj xdot; inj zdot; inj thetadot; inj phidot;
     inj 0; inj (-9.81); inj 0].
Proof.
  intros Hw He Hm HI.
  rewrite (fpgm_dynamics_value x z theta phi xdot zdot thetadot phidot
             0 0 parameter Hw He).
  cbv zeta. rewrite !ndiv_nonzero by assumption.
  assert (H0 : forall vx vz S : R, force_magnitude vx vz S 0 = 0)
    by (intros; unfold force_magnitude; rewrite sin_0, cos_0; ring).
  rewrite !H0.
  repeat match goal with
         | |- _ :: _ = _ :: _ => f_equal
         | |- inj _ = inj _ => apply f_equal
         end; try reflexivity;
    match goal with
    | |- _ / ?m = _ =>
        apply (Rmult_eq_reg_r m); [|assumption];
        unfold Rdiv; rewrite Rmult_assoc, Rinv_l by assumption; lra
    end.
Qed.

Lemma fpgm_dynamics_free_fall_witness :
  fpgm_dynamics 0 0 0 0 1 0 0 0 unit_glider =
    [inj 1; inj 0; inj 0; inj 0; inj 0; inj (-9.81); inj 0].
Proof.
  apply (fpgm_dynamics_free_fall 0 0 0 0 1 0 0 0 unit_glider).
  - rewrite alpha_w_value. unfold angle_of_attack.
    cbn [unit_glider fpgm_param.l_w].
    destruct (Req_dec_T _ 0) as [E|_]; [exfalso; rewrite sin_0 in E; lra|].
    rewrite sin_0, cos_0.
    replace ((0 - 1 * 0 * 1) / (1 + 1 * 0 * 0)) with 0 by (field; lra).
    rewrite atan_0. f_equal. lra.
  - rewrite alpha_e_value. unfold angle_of_attack.
    cbn [unit_glider fpgm_param.l fpgm_param.l_e].
    replace (0 + 0) with 0 by lra.
    destruct (Req_dec_T _ 0) as [E|_]; [exfalso; rewrite sin_0 in E; lra|].
    rewrite sin_0, cos_0.
    match goal with
    | |- context [atan ?a] => replace a with 0 by (field; lra)
    end.
    rewrite atan_0. f_equal. lra.
  - cbn. lra.
  - cbn. lra.
Defined.

(** ** The constraint builder *)

(** X5.  [set_bounded_constrains] succeeds exactly when the two cells
    [index] and [index + 1] are inside the array; it then writes
    [- x - bound] into the first and [x - bound] into the second, and
    changes no other cell.  The pair is satisfied exactly when
    [|x| <= bound], so never when the bound is negative. *)
Theorem set_bounded_constrains_pair
    (result : list num) (index : nat) (x : num) (bound : R) :
  ((index + 1 < length result)%nat ->
   exists r : list num,
     set_bounded_constrains result index x (inj bound) = Some r
     /\ length r = length result
     /\ r !! index = Some (- x - inj bound)%num
     /\ r !! (index + 1)%nat = Some (x - inj bound)%num
     /\ (forall k : nat, k <> index -> k <> (index + 1)%nat ->
           r !! k = result !! k)
     /\ (nonpositive (- x - inj bound)%num /\ nonpositive (x - inj bound)%num
         <-> (nabs x <= inj bound)%num)
     /\ (bound < 0 ->
         ~ (nonpositive (- x - inj bound)%num
            /\ nonpositive (x - inj bound)%num))
     /\ (forall u : R, x = inj u ->
           r !! index = Some (inj (- u - bound))
           /\ r !! (index + 1)%nat = Some (inj (u - bound))
           /\ (- u - bound <= 0 /\ u - bound <= 0 <-> Rabs u <= bound)))
  /\ ((length result <= index + 1)%nat ->
      set_bounded_constrains result index x (inj bound) = None).
Proof.
  split; [|apply set_bounded_constrains_None].
  intros Hi. exists (set_pair result index x (inj bound)).
  split; [now apply set_bounded_constrains_Some|].
  split; [apply length_set_pair|].
  split; [now apply set_pair_lookup_lo|].
  split; [now apply set_pair_lookup_hi|].
  split; [intros k H1 H2; now apply set_pair_lookup_ne|].
  split; [apply bounded_pair_iff|].
  split.
  - intros Hb H. apply bounded_pair_iff in H.
    destruct x as [u| | |]; cbn [nabs nle] in H; try exact H.
    pose proof (Rabs_pos u). lra.
  - intros u ->.
    rewrite set_pair_lookup_lo, set_pair_lookup_hi by exact Hi.
    split; [reflexivity|]. split; [reflexivity|].
    unfold Rabs. destruct (Rcase_abs u); lra.
Qed.

Lemma set_bounded_constrains_pair_witness :
  exists r : list num,
    set_bounded_constrains (blank 2) 0 (inj 1) (inj (-1)) = Some r
    /\ r !! 0%nat = Some (inj 0)
    /\ r !! 1%nat = Some (inj 2)
    /\ ~ (- 1 - -1 <= 0 /\ 1 - -1 <= 0).
Proof.
  destruct (set_bounded_constrains_pair (blank 2) 0 (inj 1) (-1))
    as [Hin _].
  destruct (Hin ltac:(cbn; lia))
    as (r & Hr & _ & _ & _ & _ & _ & _ & Hreal).
  destruct (Hreal 1 eq_refl) as (Hlo & Hhi & _).
  change (0 + 1)%nat with 1%nat in Hhi.
  exists r. split; [exact Hr|].
  split; [rewrite Hlo; do 2 f_equal; lra|].
  split; [rewrite Hhi; do 2 f_equal; lra | lra].
Defined.

Lemma Forall_concat_blocks {A : Type} (P : A -> Prop) (f : nat -> list A)
    (n : nat) :
  Forall P (concat (map f (seq 0 n)))
  <-> (forall i : nat, (i < n)%nat -> Forall P (f i)).
Proof.
  induction n as [|n IH].
  - cbn. split; [intros _ i Hi; lia | constructor].
  - rewrite seq_S, map_app, concat_app, Forall_app, IH.
    cbn [map concat Nat.add]. rewrite app_nil_r. split.
    + intros [Hlt Hn] i Hi.
      destruct (decide (i = n)) as [->|Hne]; [exact Hn | apply Hlt; lia].
    + intros H. split; [intros i Hi; apply H; lia | apply H; lia].
Qed.

Lemma pair_of_nonpositive (q : num) (bound : R) :
  all_nonpositive (pair_of q (inj bound)) <-> (nabs q <= inj bound)%num.
Proof.
  unfold all_nonpositive, pair_of.
  rewrite <- bounded_pair_iff. unfold nonpositive. split.
  - intros H. apply Forall_cons in H as [H1 H]. apply Forall_cons in H as [H2 _].
    now split.
  - intros [H1 H2]. repeat constructor; assumption.
Qed.

Lemma dyn_block_nonpositive (fpgm : fpgm_param) (x : list R) (i : nat) :
  all_nonpositive (dyn_block fpgm x i)
  <-> (forall j : nat, (j < 7)%nat ->
         (nabs (defect_component fpgm x i j) <= inj 0.01)%num).
Proof.
  unfold all_nonpositive, dyn_block. rewrite Forall_concat_blocks.
  split; intros H j Hj.
  - rewrite <- nth_defect by exact Hj. apply pair_of_nonpositive.
    now apply H.
  - apply pair_of_nonpositive. rewrite nth_defect by exact Hj. now apply H.
Qed.

Lemma box_block_nonpositive (boundary : optimization_constrain) (x : list R)
    (i : nat) :
  all_nonpositive (box_block boundary x i)
  <-> (forall b : nat, (b < 6)%nat ->
         Rabs (knot x i (b + 2)) <= nth b (box_bounds boundary) 0).
Proof.
  unfold all_nonpositive, box_block. rewrite Forall_concat_blocks.
  split; intros H b Hb.
  - apply (pair_of_nonpositive (inj (knot x i (b + 2)))). now apply H.
  - apply pair_of_nonpositive. cbn [nabs nle]. now apply H.
Qed.

Lemma anchor_block_nonpositive (data : combined_param) (x : list R) :
  all_nonpositive (anchor_block data x)
  <-> Rabs (knot x 0 0)
        <= nth 0 (optimization_constrain.ix (combined_param.oc data)) 0
      /\ Rabs (knot x 0 1)
        <= nth 0 (optimization_constrain.iz (combined_param.oc data)) 0.
Proof.
  unfold all_nonpositive, anchor_block. rewrite Forall_app.
  split; intros [H1 H2]; split;
    first [ apply (pair_of_nonpositive (inj _)); assumption
          | apply pair_of_nonpositive; cbn [nabs nle]; assumption ].
Qed.

Lemma knot_block_nonpositive (data : combined_param) (N : nat) (x : list R)
    (result : list num) (i : nat) :
  all_nonpositive (knot_block data N x result i)
  <-> (if decide (i < N - 1)%nat
       then forall j : nat, (j < 7)%nat ->
              (nabs (defect_component (combined_param.fp data) x i j)
               <= inj 0.01)%num
       else all_nonpositive (take 14 (drop (26 * i) result)))
      /\ (forall b : nat, (b < 6)%nat ->
            Rabs (knot x i (b + 2))
              <= nth b (box_bounds (combined_param.oc data)) 0).
Proof.
  unfold knot_block.
  change (all_nonpositive (?l ++ ?k))
    with (Forall nonpositive (l ++ k)).
  rewrite Forall_app.
  fold (all_nonpositive (box_block (combined_param.oc data) x i)).
  rewrite box_block_nonpositive.
  destruct (decide (i < N - 1)%nat).
  - fold (all_nonpositive (dyn_block (combined_param.fp data) x i)).
    now rewrite dyn_block_nonpositive.
  - reflexivity.
Qed.

Lemma residual_layout_nonpositive (data : combined_param) (N : nat)
    (x : list R) (result : list num) :
  (1 <= N)%nat ->
  all_nonpositive (residual_layout data N x result)
  <-> (forall i j : nat, (i + 1 < N)%nat -> (j < 7)%nat ->
         (nabs (defect_component (combined_param.fp data) x i j)
          <= inj 0.01)%num)
      /\ all_nonpositive (take 14 (drop (26 * (N - 1)) result))
      /\ (forall i b : nat, (i < N)%nat -> (b < 6)%nat ->
            Rabs (knot x i (b + 2))
              <= nth b (box_bounds (combined_param.oc data)) 0)
      /\ Rabs (knot x 0 0)
           <= nth 0 (optimization_constrain.ix (combined_param.oc data)) 0
      /\ Rabs (knot x 0 1)
           <= nth 0 (optimization_constrain.iz (combined_param.oc data)) 0.
Proof.
  intros HN. unfold residual_layout.
  change (all_nonpositive (?l ++ ?k)) with (Forall nonpositive (l ++ k)).
  rewrite Forall_app, Forall_concat_blocks.
  fold (all_nonpositive (anchor_block data x)).
  rewrite anchor_block_nonpositive.
  split.
  - intros [Hk Ha].
    split; [|split; [|split; [|exact Ha]]].
    + intros i j Hi Hj.
      pose proof (proj1 (knot_block_nonpositive data N x result i)
                    (Hk i ltac:(lia))) as [Hd _].
      destruct (decide (i < N - 1)%nat); [now apply Hd | lia].
    + pose proof (proj1 (knot_block_nonpositive data N x result (N - 1))
                    (Hk (N - 1)%nat ltac:(lia))) as [Hd _].
      destruct (decide (N - 1 < N - 1)%nat); [lia | exact Hd].
    + intros i b Hi Hb.
      pose proof (proj1 (knot_block_nonpositive data N x result i)
                    (Hk i Hi)) as [_ Hbx].
      now apply Hbx.
  - intros (Hd & Hres & Hbx & Ha). split; [|exact Ha].
    intros i Hi. apply knot_block_nonpositive.
    split; [|intros b Hb; now apply Hbx].
    destruct (decide (i < N - 1)%nat) as [Hlt|Hge].
    + intros j Hj. apply Hd; lia.
    + replace i with (N - 1)%nat by lia. exact Hres.
Qed.

(** X6.  What the residuals mean.  For a decision vector of [8 N] entries
    and an array of [4 + 26 N] cells, every residual the builder leaves is
    [<= 0] exactly when: each component
    state(i)_j - state(i+1)_j + (h/2) (deriv(i)_j + deriv(i+1)_j) of each
    trapezoidal defect is within [0.01] of zero; entries 2..7 of every knot
    are within their bounds; [|x_0| <= ix[0]] and [|z_0| <= iz[0]]; and the
    14 cells the builder does not write for the last knot were [<= 0]
    before the call. *)
Theorem residuals_all_nonpositive
    (N m n : nat) (result : list num) (x : list R) (data : combined_param) :
  well_formed N n x data ->
  length result = (4 + 26 * N)%nat ->
  exists r : list num,
    collocation_eq_constraints m result n x data = Some r
    /\ (all_nonpositive r
        <-> (forall i j : nat, (i + 1 < N)%nat -> (j < 7)%nat ->
               (nabs (defect_component (combined_param.fp data) x i j)
                <= inj 0.01)%num)
            /\ all_nonpositive (take 14 (drop (26 * (N - 1)) result))
            /\ (forall i b : nat, (i < N)%nat -> (b < 6)%nat ->
                  Rabs (knot x i (b + 2))
                    <= nth b (box_bounds (combined_param.oc data)) 0)
            /\ Rabs (knot x 0 0)
                 <= nth 0 (optimization_constrain.ix (combined_param.oc data)) 0
            /\ Rabs (knot x 0 1)
                 <= nth 0 (optimization_constrain.iz (combined_param.oc data)) 0).
Proof.
  intros Hwf Hr. pose proof Hwf as (Hn & HN & H1 & Hix & Hiz).
  assert (Hx : length x = (8 * N)%nat) by congruence.
  exists (residual_layout data N x result). split.
  - rewrite <- (residuals_layout data N x result Hx Hr).
    apply (collocation_eq_constraints_Some N); [exact Hwf | lia].
  - now apply residual_layout_nonpositive.
Qed.

(** Two knots in level flight at unit speed, with no displacement between
    them: with the timestep 0.001 the defects are 0.001 and -0.00981, within
    the tolerance; with the timestep 1 they are 1 and -9.81. *)
Lemma defect_component_level_flight (h : R) (Q : MatrixXd) (w : R) (j : nat) :
  defect_component (fpgm_param.mk 1 1 1 1 1 1 1 h Q w) two_knots 0 j
  = (inj (nth j [0; 0; 0; 0; 1; 0; 0] 0) - inj (nth j [0; 0; 0; 0; 1; 0; 0] 0)
     + inj (h / 2)
       * (nth j [inj 1; inj 0; inj 0; inj 0; inj 0; inj (-9.81); inj 0] undef
          + nth j [inj 1; inj 0; inj 0; inj 0; inj 0; inj (-9.81); inj 0]
              undef))%num.
Proof.
  unfold defect_component, deriv.
  change (fpgm_dynamics (knot two_knots 0 0) (knot two_knots 0 1)
            (knot two_knots 0 2) (knot two_knots 0 3) (knot two_knots 0 4)
            (knot two_knots 0 5) (knot two_knots 0 6) (control two_knots 0)
            (fpgm_param.mk 1 1 1 1 1 1 1 h Q w))
    with (fpgm_dynamics 0 0 0 0 1 0 0 0 unit_glider).
  change (fpgm_dynamics (knot two_knots (0 + 1) 0) (knot two_knots (0 + 1) 1)
            (knot two_knots (0 + 1) 2) (knot two_knots (0 + 1) 3)
            (knot two_knots (0 + 1) 4) (knot two_knots (0 + 1) 5)
            (knot two_knots (0 + 1) 6) (control two_knots (0 + 1))
            (fpgm_param.mk 1 1 1 1 1 1 1 h Q w))
    with (fpgm_dynamics 0 0 0 0 1 0 0 0 unit_glider).
  rewrite fpgm_dynamics_level_flight.
  cbn [fpgm_param.h].
  do 7 (destruct j as [|j]; [reflexivity|]).
  unfold knot, two_knots.
  rewrite !(nth_overflow _ _ (n := S (S (S (S (S (S (S j))))))))
    by (cbn; lia).
  destruct j; reflexivity.
Qed.

Lemma residuals_all_nonpositive_witness :
  (exists r : list num,
     collocation_eq_constraints 56 (replicate 56 (inj 0)) 16 two_knots
       (combined_param.mk fine_glider cruise_bounds) = Some r
     /\ all_nonpositive r)
  /\ (exists r : list num,
        collocation_eq_constraints 56 (replicate 56 (inj 0)) 16 two_knots
          (combined_param.mk unit_glider cruise_bounds) = Some r
        /\ ~ all_nonpositive r).
Proof.
  assert (Hwf : forall fpgm : fpgm_param,
            well_formed 2 16 two_knots
              (combined_param.mk fpgm cruise_bounds))
    by (intros fpgm; unfold well_formed; repeat split; auto; discriminate).
  split.
  - destruct (residuals_all_nonpositive 2 56 16 (replicate 56 (inj 0))
                two_knots (combined_param.mk fine_glider cruise_bounds)
                (Hwf fine_glider) eq_refl) as (r & Hr & Hiff).
    exists r. split; [exact Hr|]. apply Hiff. clear Hiff Hr r.
    split; [|split; [|split; [|split]]].
    + intros i j Hi Hj. replace i with 0%nat by lia.
      change (combined_param.fp (combined_param.mk fine_glider cruise_bounds))
        with (fpgm_param.mk 1 1 1 1 1 1 1 0.001 (fpgm_param.Q unit_glider) 1).
      rewrite defect_component_level_flight.
      do 7 (destruct j as [|j];
            [cbn [nth nsub nadd nmul nabs nle]; unfold Rabs;
             destruct (Rcase_abs _); lra|]).
      lia.
    + repeat constructor; cbn [nle]; lra.
    + intros i b Hi Hb.
      do 2 (destruct i as [|i];
            [do 6 (destruct b as [|b];
                   [cbn; first [rewrite Rabs_R0 | rewrite Rabs_R1]; lra|]);
             lia|]).
      lia.
    + cbn. rewrite Rabs_R0. lra.
    + cbn. rewrite Rabs_R0. lra.
  - destruct (residuals_all_nonpositive 2 56 16 (replicate 56 (inj 0))
                two_knots (combined_param.mk unit_glider cruise_bounds)
                (Hwf unit_glider) eq_refl) as (r & Hr & Hiff).
    exists r. split; [exact Hr|]. intros Hall.
    apply Hiff in Hall as (Hd & _).
    specialize (Hd 0%nat 0%nat ltac:(lia) ltac:(lia)).
    change (combined_param.fp (combined_param.mk unit_glider cruise_bounds))
      with (fpgm_param.mk 1 1 1 1 1 1 1 1 (fpgm_param.Q unit_glider) 1) in Hd.
    rewrite defect_component_level_flight in Hd.
    cbn [nth nsub nadd nmul nabs nle] in Hd.
    unfold Rabs in Hd. destruct (Rcase_abs _) in Hd; lra.
Defined.

Lemma nonpositive_pair_bound (q : num) (bound : R) :
  nonpositive (- q - bound)%num -> nonpositive (q - bound)%num -> 0 <= bound.
Proof.
  unfold nonpositive. destruct q as [u| | |]; cbn; try tauto. lra.
Qed.

(** X7.  The targets are used as bounds.  The builder compares [|x_0|]
    with [ix[0]] and [|z_0|] with [iz[0]]; when either target is negative,
    the array it returns has a positive (or undefined) residual whatever the
    decision vector holds. *)
Theorem negative_target_never_satisfied
    (N m n : nat) (result : list num) (x : list R) (data : combined_param) :
  well_formed N n x data ->
  (4 + 26 * N <= length result)%nat ->
  nth 0 (optimization_constrain.ix (combined_param.oc data)) 0 < 0
  \/ nth 0 (optimization_constrain.iz (combined_param.oc data)) 0 < 0 ->
  exists r : list num,
    collocation_eq_constraints m result n x data = Some r
    /\ ~ all_nonpositive r.
Proof.
  intros Hwf Hr Hneg. pose proof Hwf as (Hn & HN & H1 & Hix & Hiz).
  assert (Hx : length x = (8 * N)%nat) by congruence.
  exists (residuals data x result). split.
  - now apply (collocation_eq_constraints_Some N).
  - intros Hall. unfold all_nonpositive in Hall.
    rewrite Forall_lookup in Hall.
    destruct (residuals_lookup_anchor data N x result Hx Hr)
      as (H0 & H1' & H2 & H3).
    pose proof (nonpositive_pair_bound _ _ (Hall _ _ H0) (Hall _ _ H1')).
    pose proof (nonpositive_pair_bound _ _ (Hall _ _ H2) (Hall _ _ H3)).
    lra.
Qed.

Lemma negative_target_never_satisfied_witness :
  well_formed 1 8 one_knot (combined_param.mk unit_glider (targets [-1] [1]))
  /\ (4 + 26 * 1 <= length (blank 30))%nat
  /\ exists r : list num,
       collocation_eq_constraints 30 (blank 30) 8 one_knot
         (combined_param.mk unit_glider (targets [-1] [1])) = Some r
       /\ ~ all_nonpositive r.
Proof.
  assert (Hwf : well_formed 1 8 one_knot
                  (combined_param.mk unit_glider (targets [-1] [1])))
    by (apply well_formed_one_knot; discriminate).
  split; [exact Hwf | split; [cbn; lia|]].
  apply (negative_target_never_satisfied 1 30 8 (blank 30) one_knot
           (combined_param.mk unit_glider (targets [-1] [1])) Hwf).
  - cbn; lia.
  - left. cbn. lra.
Defined.

Lemma deriv_undefined (fpgm : fpgm_param) (x : list R) (k : nat) :
  x_w_dot fpgm (knot x k 2) (knot x k 4) (knot x k 5) (knot x k 6)
    = (inj 0, inj 0)
  \/ x_e_dot fpgm (knot x k 2) (knot x k 3) (knot x k 4) (knot x k 5)
       (knot x k 6) (control x k) = (inj 0, inj 0) ->
  deriv fpgm x k =
    [inj (knot x k 4); inj (knot x k 5); inj (knot x k 6); inj (control x k);
     undef; undef; undef].
Proof.
  intros H. unfold deriv. apply fpgm_dynamics_undefined.
  destruct H as [H|H]; [left; now apply alpha_w_at_rest
                       | right; now apply alpha_e_at_rest].
Qed.

Lemma defect_undefined (fpgm : fpgm_param) (x : list R) (i : nat) :
  nth 4 (deriv fpgm x i) undef = undef
  \/ nth 4 (deriv fpgm x (i + 1)) undef = undef ->
  nth 4 (defect fpgm x i) undef = undef.
Proof.
  rewrite nth_defect by lia. unfold defect_component.
  intros [H|H]; rewrite H.
  - reflexivity.
  - now rewrite nadd_undef_r.
Qed.

(** X8.  A knot at rest makes the problem unsatisfiable.  When the wing
    centroid or the elevator centroid of some knot has zero velocity, the
    angle of attack is the arctangent of [0/0]; the defect of every pair the
    knot belongs to is then undefined, and with two knots or more the array
    the builder returns is never all [<= 0]. *)
Theorem knot_at_rest_never_satisfied
    (N m n : nat) (result : list num) (x : list R) (data : combined_param)
    (k : nat) :
  well_formed N n x data ->
  (4 + 26 * N <= length result)%nat ->
  (2 <= N)%nat -> (k < N)%nat ->
  x_w_dot (combined_param.fp data)
      (knot x k 2) (knot x k 4) (knot x k 5) (knot x k 6) = (inj 0, inj 0)
  \/ x_e_dot (combined_param.fp data)
      (knot x k 2) (knot x k 3) (knot x k 4) (knot x k 5) (knot x k 6)
      (control x k) = (inj 0, inj 0) ->
  exists r : list num,
    collocation_eq_constraints m result n x data = Some r
    /\ ~ all_nonpositive r.
Proof.
  intros Hwf Hr HN2 Hk Hrest. pose proof Hwf as (Hn & HN & H1 & Hix & Hiz).
  assert (Hx : length x = (8 * N)%nat) by congruence.
  exists (residuals data x result). split.
  - now apply (collocation_eq_constraints_Some N).
  - assert (Hd : nth 4 (deriv (combined_param.fp data) x k) undef = undef).
    { rewrite deriv_undefined; [reflexivity|].
      destruct Hrest as [H|H]; rewrite H; auto. }
    assert (Hi : exists i : nat, (i + 1 < N)%nat
                   /\ nth 4 (defect (combined_param.fp data) x i) undef = undef).
    { destruct (decide (k + 1 < N)%nat) as [Hlt|Hge].
      - exists k. split; [exact Hlt|]. apply defect_undefined. now left.
      - exists (k - 1)%nat. split; [lia|]. apply defect_undefined. right.
        replace (k - 1 + 1)%nat with k by lia. exact Hd. }
    destruct Hi as (i & Hi & Hundef).
    intros Hall. unfold all_nonpositive in Hall. rewrite Forall_lookup in Hall.
    destruct (residuals_lookup_dyn data N x result i 4 Hx ltac:(lia) Hi
                ltac:(lia)) as [_ Hhi].
    cbv zeta in Hhi. rewrite Hundef in Hhi.
    exact (Hall _ _ Hhi).
Qed.

Lemma knot_at_rest_never_satisfied_witness :
  well_formed 2 16 (replicate 16 0)
    (combined_param.mk unit_glider (targets [0] [1]))
  /\ (4 + 26 * 2 <= length (blank 56))%nat
  /\ exists r : list num,
       collocation_eq_constraints 56 (blank 56) 16 (replicate 16 0)
         (combined_param.mk unit_glider (targets [0] [1])) = Some r
       /\ ~ all_nonpositive r.
Proof.
  assert (Hwf : well_formed 2 16 (replicate 16 0)
                  (combined_param.mk unit_glider (targets [0] [1])))
    by (unfold well_formed; repeat split; auto; discriminate).
  split; [exact Hwf | split; [cbn; lia|]].
  apply (knot_at_rest_never_satisfied 2 56 16 (blank 56) (replicate 16 0)
           (combined_param.mk unit_glider (targets [0] [1])) 0 Hwf).
  - cbn; lia.
  - lia.
  - lia.
  - left. rewrite x_w_dot_value. apply velocity_at_rest.
    unfold knot. cbn. split; ring.
Defined.

Lemma residual_layout_ext (data : combined_param) (N : nat) (x : list R)
    (result result' : list num) :
  take 14 (drop (26 * (N - 1)) result') = take 14 (drop (26 * (N - 1)) result) ->
  residual_layout data N x result' = residual_layout data N x result.
Proof.
  intros H. unfold residual_layout. f_equal. f_equal.
  apply map_ext_in. intros i Hi. apply in_seq in Hi.
  unfold knot_block. destruct (decide (i < N - 1)%nat); [reflexivity|].
  replace i with (N - 1)%nat by lia. now rewrite H.
Qed.

Lemma residual_layout_reserved (data : combined_param) (N : nat) (x : list R)
    (result : list num) :
  length result = (4 + 26 * N)%nat -> (1 <= N)%nat ->
  take 14 (drop (26 * (N - 1)) (residual_layout data N x result))
    = take 14 (drop (26 * (N - 1)) result).
Proof.
  intros Hr HN.
  pose proof (residual_layout_block data N x result (N - 1) Hr ltac:(lia))
    as Hb.
  replace (take 14 (drop (26 * (N - 1)) (residual_layout data N x result)))
    with (take 14 (take 26 (drop (26 * (N - 1))
                              (residual_layout data N x result))))
    by (rewrite take_take; reflexivity).
  rewrite Hb. unfold knot_block.
  destruct (decide (N - 1 < N - 1)%nat); [lia|].
  apply take_app_length'.
  rewrite length_take, length_drop. lia.
Qed.

(** X9.  What the builder keeps of the array it is given.  With an array of
    exactly [4 + 26 N] cells, the array returned depends on the one passed
    in only through the 14 cells of the last knot that the builder never
    writes: two arrays that agree there give the same result, and building
    again into the array just returned changes nothing. *)
Theorem residuals_keep_only_reserved_cells
    (N m n : nat) (result result' : list num) (x : list R)
    (data : combined_param) :
  well_formed N n x data ->
  length result = (4 + 26 * N)%nat ->
  length result' = (4 + 26 * N)%nat ->
  take 14 (drop (26 * (N - 1)) result')
    = take 14 (drop (26 * (N - 1)) result) ->
  exists r : list num,
    collocation_eq_constraints m result n x data = Some r
    /\ collocation_eq_constraints m result' n x data = Some r
    /\ collocation_eq_constraints m r n x data = Some r
    /\ take 14 (drop (26 * (N - 1)) r) = take 14 (drop (26 * (N - 1)) result).
Proof.
  intros Hwf Hr Hr' Hsame. pose proof Hwf as (Hn & HN & H1 & Hix & Hiz).
  assert (Hx : length x = (8 * N)%nat) by congruence.
  assert (Hres : forall a : list num, length a = (4 + 26 * N)%nat ->
            collocation_eq_constraints m a n x data
              = Some (residual_layout data N x a)).
  { intros a Ha. rewrite <- (residuals_layout data N x a Hx Ha).
    apply (collocation_eq_constraints_Some N); [exact Hwf | lia]. }
  exists (residual_layout data N x result).
  split; [now apply Hres|]. split; [|split].
  - rewrite (Hres result' Hr'). f_equal. now apply residual_layout_ext.
  - rewrite Hres by now apply residual_layout_length.
    f_equal. apply residual_layout_ext.
    now apply residual_layout_reserved.
  - now apply residual_layout_reserved.
Qed.

Lemma residuals_keep_only_reserved_cells_witness :
  well_formed 1 8 one_knot (combined_param.mk unit_glider (targets [0] [1]))
  /\ exists r : list num,
       collocation_eq_constraints 30 (blank 30) 8 one_knot
         (combined_param.mk unit_glider (targets [0] [1])) = Some r
       /\ collocation_eq_constraints 30
            (replicate 14 undef ++ replicate 16 (inj 5)) 8 one_knot
            (combined_param.mk unit_glider (targets [0] [1])) = Some r
       /\ collocation_eq_constraints 30 r 8 one_knot
            (combined_param.mk unit_glider (targets [0] [1])) = Some r
       /\ take 14 (drop (26 * (1 - 1)) r)
            = take 14 (drop (26 * (1 - 1)) (blank 30)).
Proof.
  assert (Hwf : well_formed 1 8 one_knot
                  (combined_param.mk unit_glider (targets [0] [1])))
    by (apply well_formed_one_knot; discriminate).
  split; [exact Hwf|].
  exact (residuals_keep_only_reserved_cells 1 30 8 (blank 30)
           (replicate 14 undef ++ replicate 16 (inj 5)) one_knot
           (combined_param.mk unit_glider (targets [0] [1]))
           Hwf eq_refl eq_refl eq_refl).
Defined.

(** ** The cost evaluator *)

Lemma sum_upto_nonneg (n : nat) (f : nat -> R) :
  (forall i, (i < n)%nat -> 0 <= f i) -> 0 <= sum_upto n f.
Proof.
  intros Hf.
  replace 0 with (sum_upto n (fun _ => 0)).
  - now apply sum_upto_le.
  - unfold sum_upto. induction (seq 0 n) as [|k l IH]; cbn; [reflexivity|].
    rewrite IH. lra.
Qed.

Lemma knot_cost_nonneg (fpgm : fpgm_param) (x : list R) (i : nat) :
  positive_semidefinite (fpgm_param.Q fpgm) -> 0 <= fpgm_param.R fpgm ->
  0 <= knot_cost fpgm x i.
Proof.
  intros HQ HR. unfold knot_cost.
  pose proof (HQ (state x i) eq_refl).
  assert (0 <= control x i * fpgm_param.R fpgm * control x i) by nra.
  lra.
Qed.

Lemma positive_semidefinite_unit_glider :
  positive_semidefinite (fpgm_param.Q unit_glider).
Proof.
  intros s Hs.
  do 7 (destruct s as [|? s]; [discriminate|]).
  destruct s; [|discriminate].
  rewrite quadratic_form_diagonal by apply diagonal_unit_glider.
  cbn. nra.
Qed.

(** X10.  The cost is bounded below by the start penalty.  With a weight
    matrix that never gives a negative state term, a non-negative control
    weight and a non-negative timestep, the value returned for [8 N]
    entries is at least [1e6 (|x_0 - ix[0]| + |z_0 - iz[0]|)], hence never
    negative, and the two agree for the zero vector. *)
Theorem control_effort_objective_lower_bound
    (N n : nat) (x : list R) (data : combined_param) :
  well_formed N n x data ->
  positive_semidefinite (fpgm_param.Q (combined_param.fp data)) ->
  0 <= fpgm_param.R (combined_param.fp data) ->
  0 <= fpgm_param.h (combined_param.fp data) ->
  let penalty (x : list R) :=
    1e6 * (Rabs (knot x 0 0
                 - nth 0 (optimization_constrain.ix (combined_param.oc data)) 0)
           + Rabs (knot x 0 1
                   - nth 0 (optimization_constrain.iz (combined_param.oc data)) 0))
  in
  (exists cost : R,
     control_effort_objective n x data = Some cost
     /\ 0 <= penalty x <= cost)
  /\ control_effort_objective n (replicate n 0) data
       = Some (penalty (replicate n 0)).
Proof.
  intros Hwf HQ HR Hh penalty. split.
  - exists (cost_value data N x). split.
    + now apply control_effort_objective_Some.
    + unfold cost_value, penalty. cbv zeta.
      change (nth 0 x 0) with (knot x 0 0).
      change (nth 1 x 0) with (knot x 0 1).
      assert (0 <= sum_upto N (knot_cost (combined_param.fp data) x))
        by (apply sum_upto_nonneg; intros i _; now apply knot_cost_nonneg).
      pose proof (Rabs_pos (knot x 0 0
        - nth 0 (optimization_constrain.ix (combined_param.oc data)) 0)).
      pose proof (Rabs_pos (knot x 0 1
        - nth 0 (optimization_constrain.iz (combined_param.oc data)) 0)).
      split; nra.
  - destruct Hwf as (Hn & HN & H1 & Hix & Hiz).
    rewrite (control_effort_objective_Some N).
    + f_equal. unfold cost_value, penalty. cbv zeta.
      change (nth 0 (replicate n 0) 0) with (knot (replicate n 0) 0 0).
      change (nth 1 (replicate n 0) 0) with (knot (replicate n 0) 0 1).
      assert (Hz : forall k : nat, nth k (replicate n 0) 0 = 0).
      { intros k. destruct (decide (k < n)%nat).
        - apply nth_lookup_Some with (d := 0).
          now apply lookup_replicate_2.
        - apply nth_overflow. rewrite length_replicate. lia. }
      replace (sum_upto N (knot_cost (combined_param.fp data) (replicate n 0)))
        with (sum_upto N (fun _ => 0)).
      * replace (sum_upto N (fun _ : nat => 0)) with 0; [lra|].
        unfold sum_upto. induction (seq 0 N) as [|k l IH]; cbn; [reflexivity|].
        rewrite <- IH. lra.
      * apply sum_upto_ext. intros i _.
        unfold knot_cost, control, state, knot. rewrite !Hz.
        unfold quadratic_form, sum_upto. cbn [seq map fold_right nth]. ring.
    + unfold well_formed. rewrite length_replicate. auto.
Qed.

Lemma control_effort_objective_lower_bound_witness :
  well_formed 1 8 one_knot (combined_param.mk unit_glider (targets [0] [1]))
  /\ (exists cost : R,
        control_effort_objective 8 one_knot
          (combined_param.mk unit_glider (targets [0] [1])) = Some cost
        /\ 0 <= 1e6 * (Rabs (knot one_knot 0 0 - nth 0 [0] 0)
                       + Rabs (knot one_knot 0 1 - nth 0 [1] 0)) <= cost)
  /\ control_effort_objective 8 (replicate 8 0)
       (combined_param.mk unit_glider (targets [0] [1]))
     = Some (1e6 * (Rabs (knot (replicate 8 0) 0 0 - nth 0 [0] 0)
                    + Rabs (knot (replicate 8 0) 0 1 - nth 0 [1] 0))).
Proof.
  assert (Hwf : well_formed 1 8 one_knot
                  (combined_param.mk unit_glider (targets [0] [1])))
    by (apply well_formed_one_knot; discriminate).
  split; [exact Hwf|].
  apply (control_effort_objective_lower_bound 1 8 one_knot
           (combined_param.mk unit_glider (targets [0] [1])) Hwf).
  - apply positive_semidefinite_unit_glider.
  - cbn. lra.
  - cbn. lra.
Defined.

(** ** Accesses out of bounds *)

(** X11.  Both callbacks read [ix[0]] and [iz[0]] without looking at the
    sizes.  With an empty [ix] or an empty [iz] the builder and the cost
    evaluator read out of bounds whatever the decision vector and the array
    are. *)
Theorem empty_targets_read_out_of_bounds
    (m n : nat) (result : list num) (x : list R) (data : combined_param) :
  optimization_constrain.ix (combined_param.oc data) = []
  \/ optimization_constrain.iz (combined_param.oc data) = [] ->
  collocation_eq_constraints m result n x data = None
  /\ control_effort_objective n x data = None.
Proof.
  intros Hempty. split.
  - unfold collocation_eq_constraints. cbv zeta.
    destruct (for_loop 0 (n / 8) _ result) as [r|]; [|reflexivity].
    cbn [mbind option_bind].
    destruct (read x 0) as [x_0|]; [|reflexivity]. cbn [mbind option_bind].
    destruct Hempty as [-> | Hiz]; [reflexivity|].
    destruct (read (optimization_constrain.ix _) 0) as [ix_0|]; [|reflexivity].
    cbn [mbind option_bind].
    destruct (set_bounded_constrains r _ _ _) as [r'|]; [|reflexivity].
    cbn [mbind option_bind].
    destruct (read x 1) as [x_1|]; [|reflexivity]. cbn [mbind option_bind].
    now rewrite Hiz.
  - unfold control_effort_objective. cbv zeta.
    destruct (for_loop 0 (n / 8) _ 0) as [c|]; [|reflexivity].
    cbn [mbind option_bind].
    destruct (read x 0) as [x_0|]; [|reflexivity]. cbn [mbind option_bind].
    destruct Hempty as [-> | Hiz]; [reflexivity|].
    destruct (read (optimization_constrain.ix _) 0) as [ix_0|]; [|reflexivity].
    cbn [mbind option_bind].
    destruct (read x 1) as [x_1|]; [|reflexivity]. cbn [mbind option_bind].
    now rewrite Hiz.
Qed.

Lemma empty_targets_read_out_of_bounds_witness :
  collocation_eq_constraints 30 (blank 30) 8 one_knot
    (combined_param.mk unit_glider (targets [] [1])) = None
  /\ control_effort_objective 8 one_knot
       (combined_param.mk unit_glider (targets [] [1])) = None.
Proof.
  apply (empty_targets_read_out_of_bounds 30 8 (blank 30) one_knot
           (combined_param.mk unit_glider (targets [] [1]))).
  left. reflexivity.
Defined.

(** ** The guess loader and the driver *)

(** X12.  The guess loader, for a guess of any length below [2^31].  The
    guess is always stored and the parameters are never touched; the call
    returns true exactly when the length is a multiple of 8; [N] becomes
    the length over 8 when it does, and keeps its value when it does not. *)
Theorem load_initial_guess_outcome (x : list R) (self : fpgm_collocation) :
  (Z.of_nat (length x) < 2 ^ 31)%Z ->
  let ok := fst (load_initial_guess x self) in
  let self' := snd (load_initial_guess x self) in
  fpgm_collocation.guess self' = x
  /\ fpgm_collocation.param self' = fpgm_collocation.param self
  /\ fpgm_collocation.boundary self' = fpgm_collocation.boundary self
  /\ (ok = true <-> (length x mod 8 = 0)%nat)
  /\ fpgm_collocation.N self'
       = (if ok then Z.of_nat (length x / 8) else fpgm_collocation.N self).
Proof.
  intros Hsmall.
  destruct (decide (length x mod 8 = 0)%nat) as [H8|H8].
  - assert (Hx : length x = (8 * (length x / 8))%nat).
    { pose proof (Nat.div_mod_eq (length x) 8). lia. }
    rewrite (load_initial_guess_accepts (length x / 8) x self Hx Hsmall).
    cbn. repeat split; auto.
  - assert (Hz : (Z.of_nat (length x) mod 8 <> 0)%Z).
    { intros Hz. apply H8.
      apply Nat2Z.inj. rewrite Nat2Z.inj_mod. exact Hz. }
    rewrite (load_initial_guess_rejects x self Hz).
    cbn. repeat split; auto; intros; try discriminate; try contradiction.
Qed.

Lemma load_initial_guess_outcome_witness :
  (Z.of_nat (length one_knot) < 2 ^ 31)%Z
  /\ fpgm_collocation.guess (snd (load_initial_guess one_knot fresh_object))
       = one_knot
  /\ fpgm_collocation.param (snd (load_initial_guess one_knot fresh_object))
       = fpgm_collocation.param fresh_object
  /\ fpgm_collocation.boundary (snd (load_initial_guess one_knot fresh_object))
       = fpgm_collocation.boundary fresh_object
  /\ (fst (load_initial_guess one_knot fresh_object) = true
      <-> (length one_knot mod 8 = 0)%nat)
  /\ fpgm_collocation.N (snd (load_initial_guess one_knot fresh_object))
       = (if fst (load_initial_guess one_knot fresh_object)
          then Z.of_nat (length one_knot / 8)
          else fpgm_collocation.N fresh_object).
Proof.
  assert (H : (Z.of_nat (length one_knot) < 2 ^ 31)%Z) by (cbn; lia).
  split; [exact H|].
  exact (load_initial_guess_outcome one_knot fresh_object H).
Defined.

Lemma for_loop_unit_Some (count : nat) (body : nat -> unit -> option unit) :
  forall lo : nat,
    (forall i, (lo <= i < lo + count)%nat -> body i tt = Some tt) ->
    for_loop lo count body tt = Some tt.
Proof.
  induction count as [|count IH]; intros lo Hb; cbn; [reflexivity|].
  rewrite Hb by lia. cbn. apply IH. intros i Hi. apply Hb. lia.
Qed.

Lemma for_loop_unit_None (count : nat) (body : nat -> unit -> option unit) :
  forall lo i : nat,
    (lo <= i < lo + count)%nat -> body i tt = None ->
    for_loop lo count body tt = None.
Proof.
  induction count as [|count IH]; intros lo i Hi Hb; [lia|]. cbn.
  destruct (decide (i = lo)) as [->|Hne].
  - now rewrite Hb.
  - destruct (body lo tt) as [[]|]; [|reflexivity]. cbn.
    apply (IH (S lo) i); [lia | exact Hb].
Qed.

Lemma decode_loop (x : list R) (count : nat) :
  forall (lo : nat) (cs : control_state),
    (8 * (lo + count) <= length x)%nat ->
    for_loop lo count
      (fun i final_vector =>
         x_0 ← read x (0+i*8);
         x_1 ← read x (1+i*8);
         x_2 ← read x (2+i*8);
         x_3 ← read x (3+i*8);
         x_4 ← read x (4+i*8);
         x_5 ← read x (5+i*8);
         Some (control_state.mk
                 (control_state.x final_vector ++ [x_0])
                 (control_state.z final_vector ++ [x_1])
                 (control_state.theta final_vector ++ [x_2])
                 (control_state.phi final_vector ++ [x_3])
                 (control_state.vx final_vector ++ [x_4])
                 (control_state.vz final_vector ++ [x_5])))
      cs
    = Some (control_state.mk
              (control_state.x cs ++ map (fun i => knot x i 0) (seq lo count))
              (control_state.z cs ++ map (fun i => knot x i 1) (seq lo count))
              (control_state.theta cs
                 ++ map (fun i => knot x i 2) (seq lo count))
              (control_state.phi cs ++ map (fun i => knot x i 3) (seq lo count))
              (control_state.vx cs ++ map (fun i => knot x i 4) (seq lo count))
              (control_state.vz cs
                 ++ map (fun i => knot x i 5) (seq lo count))).
Proof.
  induction count as [|count IH]; intros lo cs Hx.
  - cbn. rewrite !app_nil_r. now destruct cs.
  - cbn [for_loop]. rewrite !(read_Some x) by lia.
    cbn [mbind option_bind]. rewrite IH by lia.
    cbn [control_state.x control_state.z control_state.theta
         control_state.phi control_state.vx control_state.vz seq map].
    rewrite <- !app_assoc. cbn [app]. unfold knot.
    replace (0 + 8 * lo)%nat with (0 + lo * 8)%nat by lia.
    replace (1 + 8 * lo)%nat with (1 + lo * 8)%nat by lia.
    replace (2 + 8 * lo)%nat with (2 + lo * 8)%nat by lia.
    replace (3 + 8 * lo)%nat with (3 + lo * 8)%nat by lia.
    replace (4 + 8 * lo)%nat with (4 + lo * 8)%nat by lia.
    replace (5 + 8 * lo)%nat with (5 + lo * 8)%nat by lia.
    reflexivity.
Qed.

Lemma nlopt_optimization_in_bounds
    (nlopt_optimize : nlopt.nlopt_opt -> list R -> list R)
    (param : fpgm_param) (boundary : optimization_constrain)
    (K : nat) (guess : list R) :
  guess <> [] -> (8 * K <= length guess)%nat ->
  (4 + 26 * Z.of_nat K < 2 ^ 31)%Z ->
  (forall opt : nlopt.nlopt_opt,
     length (nlopt_optimize opt guess) = length guess) ->
  exists opt : nlopt.nlopt_opt,
    nlopt_optimization nlopt_optimize
      (fpgm_collocation.mk param boundary (Z.of_nat K) guess)
    = (Some (decoded (nlopt_optimize opt guess) K), [(opt, guess)]).
Proof.
  intros Hg HK Hcount Hlen. unfold nlopt_optimization. cbv zeta.
  cbn [fpgm_collocation.guess fpgm_collocation.N fpgm_collocation.param
       fpgm_collocation.boundary].
  destruct (decide (guess = [])) as [He|_]; [contradiction|].
  rewrite inequality_dimension_Some by exact Hcount.
  destruct (decide (4 + Z.of_nat K * 26 <= 0)%Z) as [Hneg|_]; [lia|].
  rewrite Nat2Z.id. eexists. f_equal.
  match goal with
  | |- context [for_loop 0 K ?body tt] =>
      rewrite (for_loop_unit_Some K body 0)
  end.
  - cbn [mbind option_bind]. rewrite decode_loop by (rewrite Hlen; lia).
    reflexivity.
  - intros i Hi. apply for_loop_unit_Some. intros j Hj.
    rewrite !read_Some by (rewrite ?Hlen; lia). reflexivity.
Qed.

Lemma nlopt_optimization_out_of_bounds
    (nlopt_optimize : nlopt.nlopt_opt -> list R -> list R)
    (param : fpgm_param) (boundary : optimization_constrain)
    (K : nat) (guess : list R) :
  guess <> [] -> (length guess < 8 * K)%nat ->
  fst (nlopt_optimization nlopt_optimize
         (fpgm_collocation.mk param boundary (Z.of_nat K) guess)) = None.
Proof.
  intros Hg HK.
  destruct (Z_lt_le_dec (4 + 26 * Z.of_nat K) (2 ^ 31)) as [Hcount|Hcount];
    [|now rewrite nlopt_optimization_overflow].
  unfold nlopt_optimization. cbv zeta.
  cbn [fpgm_collocation.guess fpgm_collocation.N fpgm_collocation.param
       fpgm_collocation.boundary].
  destruct (decide (guess = [])) as [He|_]; [contradiction|].
  rewrite inequality_dimension_Some by exact Hcount.
  destruct (decide (4 + Z.of_nat K * 26 <= 0)%Z) as [Hneg|_]; [lia|].
  rewrite Nat2Z.id. cbn [fst].
  match goal with
  | |- context [for_loop 0 K ?body tt] =>
      rewrite (for_loop_unit_None K body 0 (K - 1))
  end.
  - reflexivity.
  - lia.
  - apply (for_loop_unit_None 8 _ 0 7); [lia|].
    destruct (read (nlopt_optimize _ guess) _); [|reflexivity].
    cbn [mbind option_bind]. rewrite read_None by lia. reflexivity.
Qed.

(** X13.  Loading a guess and solving.  After a guess of [8 K] entries,
    [K >= 1], has been loaded, and when an [int] can hold the count
    [4 + 26 K], the driver calls the solver once, on that guess and for
    [8 K] variables, and returns six sequences of [K] values: entries 0..5
    of each knot of the vector the solver leaves (the rates [thetadot] and
    [phidot] are dropped).  The solver is any function that returns as many
    entries as it was given. *)
Theorem load_then_optimize
    (nlopt_optimize : nlopt.nlopt_opt -> list R -> list R)
    (K : nat) (x : list R) (self : fpgm_collocation) :
  length x = (8 * K)%nat -> (1 <= K)%nat ->
  (Z.of_nat (length x) < 2 ^ 31)%Z ->
  (4 + 26 * Z.of_nat K < 2 ^ 31)%Z ->
  (forall opt : nlopt.nlopt_opt, length (nlopt_optimize opt x) = length x) ->
  exists opt : nlopt.nlopt_opt,
    nlopt_optimization nlopt_optimize (snd (load_initial_guess x self))
      = (Some (decoded (nlopt_optimize opt x) K), [(opt, x)])
    /\ nlopt.n opt = (8 * K)%nat
    /\ length (control_state.x (decoded (nlopt_optimize opt x) K)) = K.
Proof.
  intros Hx HK Hsmall Hcount Hlen.
  rewrite (load_initial_guess_accepts K x self Hx Hsmall). cbn [snd].
  assert (Hg : x <> []) by (intros ->; cbn in Hx; lia).
  destruct (nlopt_optimization_in_bounds nlopt_optimize
              (fpgm_collocation.param self) (fpgm_collocation.boundary self)
              K x Hg ltac:(lia) Hcount Hlen) as [opt Hopt].
  destruct (nlopt_optimization_configuration nlopt_optimize
              (fpgm_collocation.param self) (fpgm_collocation.boundary self)
              K x Hg Hcount) as (opt' & tol & Hcall & Hn & _).
  rewrite Hopt in Hcall. cbn [snd] in Hcall.
  assert (opt' = opt) by congruence. subst opt'.
  exists opt. split; [exact Hopt|]. split; [congruence|].
  cbn. now rewrite length_map, length_seq.
Qed.

Lemma load_then_optimize_witness :
  exists opt : nlopt.nlopt_opt,
    nlopt_optimization (fun _ x => x)
      (snd (load_initial_guess two_knots fresh_object))
      = (Some (control_state.mk [0; 0] [0; 0] [0; 0] [0; 0] [1; 1] [0; 0]),
         [(opt, two_knots)])
    /\ nlopt.n opt = 16%nat.
Proof.
  destruct (load_then_optimize (fun _ x => x) 2 two_knots fresh_object)
    as (opt & Hopt & Hn & _).
  - reflexivity.
  - lia.
  - cbn. lia.
  - cbn. lia.
  - reflexivity.
  - exists opt. split; [exact Hopt | exact Hn].
Defined.

(** X14.  A refused guess after an accepted one.  When a guess of [8 K]
    entries has been accepted and a shorter, non-empty guess whose length
    is not a multiple of 8 is then refused, the object holds the short
    guess with the old [N = K]; the driver then reads the solved vector and
    the guess beyond their ends, whatever the solver does. *)
Theorem optimize_after_refused_guess
    (nlopt_optimize : nlopt.nlopt_opt -> list R -> list R)
    (K : nat) (x y : list R) (self : fpgm_collocation) :
  length x = (8 * K)%nat -> (Z.of_nat (length x) < 2 ^ 31)%Z ->
  y <> [] -> (length y < length x)%nat -> (length y mod 8 <> 0)%nat ->
  let self1 := snd (load_initial_guess x self) in
  fst (load_initial_guess x self) = true
  /\ fst (load_initial_guess y self1) = false
  /\ fst (nlopt_optimization nlopt_optimize
            (snd (load_initial_guess y self1))) = None.
Proof.
  intros Hx Hsmall Hy Hlt H8 self1. subst self1.
  rewrite (load_initial_guess_accepts K x self Hx Hsmall). cbn [fst snd].
  assert (Hz : (Z.of_nat (length y) mod 8 <> 0)%Z).
  { intros Hz. apply H8. apply Nat2Z.inj. rewrite Nat2Z.inj_mod. exact Hz. }
  rewrite (load_initial_guess_rejects y _ Hz). cbn [fst snd].
  cbn [fpgm_collocation.param fpgm_collocation.boundary fpgm_collocation.N].
  split; [reflexivity|]. split; [reflexivity|].
  apply nlopt_optimization_out_of_bounds; [exact Hy | lia].
Qed.

Lemma optimize_after_refused_guess_witness :
  fst (load_initial_guess two_knots fresh_object) = true
  /\ fst (load_initial_guess (replicate 9 0)
            (snd (load_initial_guess two_knots fresh_object))) = false
  /\ fst (nlopt_optimization (fun _ x => x)
            (snd (load_initial_guess (replicate 9 0)
                    (snd (load_initial_guess two_knots fresh_object)))))
     = None.
Proof.
  apply (optimize_after_refused_guess (fun _ x => x) 2 two_knots
           (replicate 9 0) fresh_object).
  - reflexivity.
  - cbn. lia.
  - discriminate.
  - cbn. lia.
  - cbn. lia.
Defined.

(** ** The attitude from differential flatness *)

Lemma atan2_pos (y x : R) : 0 < x -> atan2 y x = atan (y / x).
Proof. intros Hx. unfold atan2. destruct (Rlt_dec 0 x); [reflexivity | lra]. Qed.

Lemma atan2_scale (k y x : R) : 0 < k -> atan2 (k * y) (k * x) = atan2 y x.
Proof.
  intros Hk. unfold atan2.
  assert (Hq : x <> 0 -> k * y / (k * x) = y / x) by (intros; field; lra).
  destruct (Rlt_dec 0 x) as [Hx|Hx].
  - destruct (Rlt_dec 0 (k * x)) as [_|Hn]; [now rewrite Hq by lra | nra].
  - destruct (Rlt_dec 0 (k * x)) as [Hp|_]; [nra|].
    destruct (Rlt_dec x 0) as [Hx'|Hx'].
    + destruct (Rlt_dec (k * x) 0) as [_|Hn]; [|nra].
      rewrite Hq by lra.
      destruct (Rle_dec 0 y), (Rle_dec 0 (k * y)); try reflexivity; nra.
    + destruct (Rlt_dec (k * x) 0) as [Hn|_]; [nra|].
      destruct (Rlt_dec 0 y), (Rlt_dec 0 (k * y)); try reflexivity; try nra.
      destruct (Rlt_dec y 0), (Rlt_dec (k * y) 0); try reflexivity; nra.
Qed.

Lemma atan2_sin_cos (y : R) : - PI < y <= PI -> atan2 (sin y) (cos y) = y.
Proof.
  intros Hy. unfold atan2.
  pose proof PI_RGT_0 as Hpi.
  destruct (Rlt_dec 0 (cos y)) as [Hc|Hc].
  - (* |y| < PI/2 *)
    assert (Hr : - (PI / 2) < y < PI / 2).
    { split.
      - destruct (Rlt_le_dec (- (PI / 2)) y) as [H|H]; [exact H|].
        exfalso. assert (cos y <= 0); [|lra].
        rewrite <- cos_neg. apply cos_le_0; lra.
      - destruct (Rlt_le_dec y (PI / 2)) as [H|H]; [exact H|].
        exfalso. assert (cos y <= 0); [|lra]. apply cos_le_0; lra. }
    change (sin y / cos y) with (tan y). apply atan_tan. lra.
  - destruct (Rlt_dec (cos y) 0) as [Hc'|Hc'].
    + destruct (Rle_dec 0 (sin y)) as [Hs|Hs].
      * (* PI/2 < y <= PI *)
        assert (Hr : PI / 2 < y).
        { destruct (Rlt_le_dec (PI / 2) y) as [H|H]; [exact H|]. exfalso.
          destruct (Rle_lt_dec (- (PI / 2)) y) as [H'|H'].
          - assert (0 <= cos y) by (apply cos_ge_0; lra). lra.
          - assert (sin y < 0); [|lra]. apply sin_lt_0_var; lra. }
        replace (sin y / cos y) with (tan (y - PI)).
        -- rewrite atan_tan; lra.
        -- unfold tan. rewrite sin_minus, cos_minus, sin_PI, cos_PI.
           field. lra.
      * (* -PI < y < -PI/2 *)
        assert (Hr : y < - (PI / 2)).
        { destruct (Rlt_le_dec y (- (PI / 2))) as [H|H]; [exact H|]. exfalso.
          destruct (Rle_lt_dec y (PI / 2)) as [H'|H'].
          - assert (0 <= cos y) by (apply cos_ge_0; lra). lra.
          - assert (0 <= sin y); [|lra]. apply sin_ge_0; lra. }
        replace (sin y / cos y) with (tan (y + PI)).
        -- rewrite atan_tan; lra.
        -- unfold tan. rewrite sin_plus, cos_plus, sin_PI, cos_PI.
           field. lra.
    + assert (Hc0 : cos y = 0) by lra.
      destruct (Rlt_dec 0 (sin y)) as [Hs|Hs].
      * (* y = PI/2 *)
        destruct (Rtotal_order y (PI / 2)) as [H|[H|H]]; [|lra|]; exfalso.
        -- destruct (Rlt_le_dec (- (PI / 2)) y) as [H'|H'].
           ++ assert (0 < cos y) by (apply cos_gt_0; lra). lra.
           ++ destruct (Req_dec y (- (PI / 2))) as [->|Hne].
              ** rewrite sin_neg, sin_PI2 in Hs. lra.
              ** assert (cos y < 0); [|lra].
                 rewrite <- cos_neg. apply cos_lt_0; lra.
        -- destruct (Req_dec y PI) as [->|Hne].
           ++ rewrite cos_PI in Hc0. lra.
           ++ assert (cos y < 0); [|lra]. apply cos_lt_0; lra.
      * destruct (Rlt_dec (sin y) 0) as [Hs'|Hs'].
        -- (* y = -PI/2 *)
           destruct (Rtotal_order y (- (PI / 2))) as [H|[H|H]]; [|lra|]; exfalso.
           ++ assert (cos y < 0); [|lra].
              rewrite <- cos_neg. apply cos_lt_0; lra.
           ++ destruct (Rlt_le_dec y (PI / 2)) as [H'|H'].
              ** assert (0 < cos y) by (apply cos_gt_0; lra). lra.
              ** destruct (Req_dec y (PI / 2)) as [->|Hne].
                 --- rewrite sin_PI2 in Hs'. lra.
                 --- destruct (Req_dec y PI) as [->|Hne'].
                     +++ rewrite cos_PI in Hc0. lra.
                     +++ assert (cos y < 0); [|lra]. apply cos_lt_0; lra.
        -- exfalso. assert (Hs0 : sin y = 0) by lra.
           pose proof (sin2_cos2 y) as H. unfold Rsqr in H.
           rewrite Hs0, Hc0 in H. lra.
Qed.

Lemma atan2_opposite (y : R) :
  - PI < y <= PI ->
  atan2 (- sin y) (- cos y) = if Rle_dec y 0 then y + PI else y - PI.
Proof.
  intros Hy. pose proof PI_RGT_0 as Hpi.
  destruct (Rle_dec y 0) as [Hle|Hgt].
  - transitivity (atan2 (sin (y + PI)) (cos (y + PI))).
    + now rewrite neg_sin, neg_cos.
    + apply atan2_sin_cos. lra.
  - transitivity (atan2 (sin (y - PI)) (cos (y - PI))).
    + rewrite sin_minus, cos_minus, sin_PI, cos_PI. f_equal; ring.
    + apply atan2_sin_cos. lra.
Qed.

Lemma normalized_pos (v : Vector3d) :
  0 < squaredNorm v ->
  normalized v =
    (v3_x v / sqrt (squaredNorm v), v3_y v / sqrt (squaredNorm v),
     v3_z v / sqrt (squaredNorm v)).
Proof.
  intros Hv. unfold normalized. cbv zeta.
  destruct (Rlt_dec 0 (squaredNorm v)); [reflexivity | contradiction].
Qed.

Lemma sin2_cos2_one (y : R) : sin y * sin y + cos y * cos y = 1.
Proof. pose proof (sin2_cos2 y) as H. unfold Rsqr in H. exact H. Qed.

Lemma body_x_axis (ax ay az y : R) :
  az <> 0 ->
  let w := ax * cos y + ay * sin y in
  let n := sqrt (az * az + w * w) in
  normalized (cross (Vector3d_ (- sin y) (cos y) 0) (Vector3d_ ax ay az))
    = (az * cos y / n, az * sin y / n, - w / n).
Proof.
  intros Haz w n.
  assert (Hsq : squaredNorm (cross (Vector3d_ (- sin y) (cos y) 0)
                               (Vector3d_ ax ay az)) = az * az + w * w).
  { unfold squaredNorm, cross, Vector3d_, v3_x, v3_y, v3_z. cbn [fst snd].
    subst w. pose proof (sin2_cos2_one y) as H.
    replace (az * az) with (az * az * (sin y * sin y + cos y * cos y))
      by (rewrite H; ring).
    ring. }
  rewrite normalized_pos by (rewrite Hsq; nra).
  rewrite Hsq. fold n.
  unfold cross, Vector3d_, v3_x, v3_y, v3_z. cbn [fst snd].
  subst w. f_equal; [f_equal|]; f_equal; ring.
Qed.

Lemma body_y_axis (ax ay az y : R) :
  az <> 0 ->
  let w := ax * cos y + ay * sin y in
  let q := ax * sin y - ay * cos y in
  let n := sqrt (az * az + w * w) in
  let m := sqrt (ax * ax + ay * ay + az * az) in
  normalized (cross (Vector3d_ ax ay az)
                (az * cos y / n, az * sin y / n, - w / n))
    = ((- ay * w - az * az * sin y) / n / m,
       (az * az * cos y + ax * w) / n / m,
       az * q / n / m).
Proof.
  intros Haz w q n m.
  assert (Hn2 : 0 < az * az + w * w) by nra.
  assert (Hn : 0 < n) by (apply sqrt_lt_R0; exact Hn2).
  assert (Hnn : n * n = az * az + w * w) by (apply sqrt_sqrt; lra).
  assert (Hsq : squaredNorm (cross (Vector3d_ ax ay az)
                               (az * cos y / n, az * sin y / n, - w / n))
                = ax * ax + ay * ay + az * az).
  { unfold squaredNorm, cross, Vector3d_, v3_x, v3_y, v3_z. cbn [fst snd].
    apply (Rmult_eq_reg_r (n * n)); [|nra].
    transitivity
      ((ay * - w - az * (az * sin y)) * (ay * - w - az * (az * sin y))
       + (az * (az * cos y) - ax * - w) * (az * (az * cos y) - ax * - w)
       + (ax * (az * sin y) - ay * (az * cos y))
         * (ax * (az * sin y) - ay * (az * cos y))).
    - field. lra.
    - rewrite Hnn. subst w. pose proof (sin2_cos2_one y) as H.
      assert (Hs : sin y * sin y = 1 - cos y * cos y) by lra.
      ring [Hs]. }
  rewrite normalized_pos by (rewrite Hsq; nra).
  rewrite Hsq. fold m.
  unfold cross, Vector3d_, v3_x, v3_y, v3_z. cbn [fst snd].
  assert (Hm : 0 < m) by (apply sqrt_lt_R0; nra).
  subst q. f_equal; [f_equal|]; field; lra.
Qed.

(** The three angles for a specific thrust [(ax, ay, bz)] off the
    horizontal plane, before the case analysis of [atan2]. *)
Lemma differential_flat_estimated_rotation_angles (ax ay az y : R) :
  az + 9.81 <> 0 ->
  let bz := az + 9.81 in
  let w := ax * cos y + ay * sin y in
  let q := ax * sin y - ay * cos y in
  let n := sqrt (bz * bz + w * w) in
  differential_flat_estimated_rotation (Vector3d_ ax ay az) y =
    Vector3d_ (atan2 (bz * (q / n)) (bz * 1))
              (atan (w / Rabs bz))
              (atan2 (bz * sin y) (bz * cos y)).
Proof.
  intros Hbz bz w q n.
  unfold differential_flat_estimated_rotation. cbv zeta.
  replace (v3_add (Vector3d_ ax ay az) (Vector3d_ 0 0 9.81))
    with (Vector3d_ ax ay bz)
    by (unfold v3_add, Vector3d_, v3_x, v3_y, v3_z; cbn [fst snd];
        now rewrite !Rplus_0_r).
  rewrite body_x_axis by exact Hbz. rewrite body_y_axis by exact Hbz.
  fold w q n.
  set (m := sqrt (ax * ax + ay * ay + bz * bz)).
  assert (Hb2 : 0 < bz * bz).
  { destruct (Rtotal_order bz 0) as [H|[H|H]]; [nra | contradiction | nra]. }
  assert (Hn2 : 0 < bz * bz + w * w) by nra.
  assert (Hn : 0 < n) by (apply sqrt_lt_R0; exact Hn2).
  assert (Hnn : n * n = bz * bz + w * w) by (apply sqrt_sqrt; lra).
  assert (Hm2 : 0 < ax * ax + ay * ay + bz * bz) by nra.
  assert (Hm : 0 < m) by (apply sqrt_lt_R0; exact Hm2).
  assert (Hmm : m * m = ax * ax + ay * ay + bz * bz) by (apply sqrt_sqrt; lra).
  assert (Hqw : q * q + w * w = ax * ax + ay * ay).
  { subst q w. pose proof (sin2_cos2_one y) as H.
    assert (Hs : sin y * sin y = 1 - cos y * cos y) by lra.
    ring [Hs]. }
  unfold Matrix3d_cols, v3_coeff, cross, Vector3d_, v3_x, v3_y, v3_z.
  cbn [fst snd].
  assert (Hzz : bz * cos y / n * ((bz * bz * cos y + ax * w) / n / m)
                - bz * sin y / n * ((- ay * w - bz * bz * sin y) / n / m)
                = bz / m).
  { apply (Rmult_eq_reg_r (n * n * m)); [|nra].
    transitivity (bz * cos y * (bz * bz * cos y + ax * w)
                  - bz * sin y * (- ay * w - bz * bz * sin y)).
    - field. lra.
    - transitivity (bz * (n * n)); [|field; lra].
      rewrite Hnn. pose proof (sin2_cos2_one y) as H.
      assert (Hs : sin y * sin y = 1 - cos y * cos y) by lra.
      subst w. ring [Hs]. }
  rewrite Hzz.
  assert (Hroot : sqrt ((bz * q / n / m) ^ 2 + (bz / m) ^ 2) = Rabs bz / n).
  { replace ((bz * q / n / m) ^ 2 + (bz / m) ^ 2)
      with ((Rabs bz / n) * (Rabs bz / n)).
    - apply sqrt_square. apply Rlt_le, Rdiv_lt_0_compat; [|lra].
      now apply Rabs_pos_lt.
    - assert (Habs : Rabs bz * Rabs bz = bz * bz).
      { rewrite <- Rabs_mult. apply Rabs_pos_eq. nra. }
      apply (Rmult_eq_reg_r (n * n * (m * m))); [|nra].
      transitivity (Rabs bz * Rabs bz * (m * m)); [field; lra|].
      transitivity (bz * bz * (q * q + n * n)); [|field; lra].
      rewrite Habs, Hmm, Hnn. f_equal. lra. }
  rewrite Hroot.
  assert (Habs : 0 < Rabs bz) by now apply Rabs_pos_lt.
  f_equal; [f_equal|].
  - replace (bz * q / n / m) with (/ m * (bz * (q / n))) by (field; lra).
    replace (bz / m) with (/ m * (bz * 1)) by (field; lra).
    apply atan2_scale. now apply Rinv_0_lt_compat.
  - rewrite atan2_pos by (apply Rdiv_lt_0_compat; lra).
    f_equal. field. lra.
  - replace (bz * sin y / n) with (/ n * (bz * sin y)) by (field; lra).
    replace (bz * cos y / n) with (/ n * (bz * cos y)) by (field; lra).
    apply atan2_scale. now apply Rinv_0_lt_compat.
Qed.

(** X15.  The attitude for a thrust that points upwards.  For a yaw [y] in
    (-PI, PI] and an acceleration whose vertical component exceeds -9.81,
    the function returns the yaw it was given, the pitch
    [atan ((ax cos y + ay sin y) / (az + 9.81))] and the roll
    [atan ((ax sin y - ay cos y) / n)], with [n] the norm of
    [(az + 9.81, ax cos y + ay sin y)]; roll and pitch lie strictly
    between -PI/2 and PI/2. *)
Theorem differential_flat_estimated_rotation_upward (ax ay az y : R) :
  - PI < y <= PI -> - 9.81 < az ->
  let w := ax * cos y + ay * sin y in
  let q := ax * sin y - ay * cos y in
  let n := sqrt ((az + 9.81) * (az + 9.81) + w * w) in
  let roll := atan (q / n) in
  let pitch := atan (w / (az + 9.81)) in
  differential_flat_estimated_rotation (Vector3d_ ax ay az) y
    = Vector3d_ roll pitch y
  /\ - PI / 2 < roll < PI / 2
  /\ - PI / 2 < pitch < PI / 2.
Proof.
  intros Hy Haz w q n roll pitch.
  split; [|split; apply atan_bound].
  rewrite differential_flat_estimated_rotation_angles by lra. cbv zeta.
  fold w q n. rewrite !atan2_scale by lra.
  rewrite atan2_pos by lra. rewrite atan2_sin_cos by exact Hy.
  rewrite Rabs_pos_eq by lra. unfold roll.
  replace (q / n / 1) with (q / n) by (field; apply Rgt_not_eq, sqrt_lt_R0; nra).
  reflexivity.
Qed.

Lemma differential_flat_estimated_rotation_upward_witness :
  - PI < 0 <= PI /\ - 9.81 < 0
  /\ differential_flat_estimated_rotation (Vector3d_ 1 0 0) 0
      = Vector3d_
          (atan ((1 * sin 0 - 0 * cos 0)
                 / sqrt ((0 + 9.81) * (0 + 9.81)
                         + (1 * cos 0 + 0 * sin 0) * (1 * cos 0 + 0 * sin 0))))
          (atan ((1 * cos 0 + 0 * sin 0) / (0 + 9.81)))
          0.
Proof.
  assert (H1 : - PI < 0 <= PI) by (pose proof PI_RGT_0; lra).
  assert (H2 : - 9.81 < 0) by lra.
  split; [exact H1 | split; [exact H2|]].
  exact (proj1 (differential_flat_estimated_rotation_upward 1 0 0 0 H1 H2)).
Defined.

(** X16.  The attitude for a thrust that points downwards.  When the
    vertical component of the acceleration is below -9.81, the yaw [y] is
    not zero and [ax sin y - ay cos y] is not zero (so that no [atan2] is
    taken of a zero whose sign would decide), the yaw returned is the yaw
    given turned by half a turn ([y + PI] for [y < 0], [y - PI] for
    [y > 0]), the pitch is [atan ((ax cos y + ay sin y) / -(az + 9.81))],
    and the roll is [atan ((ax sin y - ay cos y) / n)] moved by [PI] towards
    the other half-plane. *)
Theorem differential_flat_estimated_rotation_downward (ax ay az y : R) :
  - PI < y <= PI -> y <> 0 -> az < - 9.81 ->
  ax * sin y - ay * cos y <> 0 ->
  let w := ax * cos y + ay * sin y in
  let q := ax * sin y - ay * cos y in
  let n := sqrt ((az + 9.81) * (az + 9.81) + w * w) in
  differential_flat_estimated_rotation (Vector3d_ ax ay az) y
    = Vector3d_
        (if Rlt_dec q 0 then atan (q / n) + PI else atan (q / n) - PI)
        (atan (w / - (az + 9.81)))
        (if Rlt_dec y 0 then y + PI else y - PI).
Proof.
  intros Hy Hy0 Haz Hq0 w q n.
  rewrite differential_flat_estimated_rotation_angles by lra. cbv zeta.
  fold w q n.
  assert (Hn : 0 < n) by (apply sqrt_lt_R0; nra).
  set (k := - (az + 9.81)). assert (Hk : 0 < k) by (subst k; lra).
  replace (az + 9.81) with (- k) by (subst k; ring).
  replace (- k * (q / n)) with (k * (- (q / n))) by ring.
  replace (- k * 1) with (k * (- 1)) by ring.
  replace (- k * sin y) with (k * (- sin y)) by ring.
  replace (- k * cos y) with (k * (- cos y)) by ring.
  rewrite !atan2_scale by exact Hk.
  rewrite atan2_opposite by exact Hy.
  rewrite Rabs_left by lra. rewrite Ropp_involutive.
  f_equal; [f_equal|].
  - unfold atan2.
    destruct (Rlt_dec 0 (- 1)) as [H|_]; [lra|].
    destruct (Rlt_dec (- 1) 0) as [_|H]; [|lra].
    replace (- (q / n) / - 1) with (q / n) by (field; lra).
    assert (Hq : 0 <= - (q / n) <-> q < 0).
    { split; intros H.
      - assert (q / n <= 0) by lra.
        assert (q <= 0) by (replace q with (q / n * n) by (field; lra); nra).
        fold q in Hq0. lra.
      - assert (q / n <= 0); [|lra].
        unfold Rdiv. assert (0 < / n) by now apply Rinv_0_lt_compat. nra. }
    destruct (Rle_dec 0 (- (q / n))) as [H|H], (Rlt_dec q 0) as [H'|H'];
      try reflexivity; exfalso; tauto.
  - destruct (Rle_dec y 0) as [H|H], (Rlt_dec y 0) as [H'|H'];
      try reflexivity; exfalso; lra.
Qed.

Lemma differential_flat_estimated_rotation_downward_witness :
  - PI < 1 <= PI /\ 1 <> 0 /\ - 20 < - 9.81 /\ 0 * sin 1 - 1 * cos 1 <> 0
  /\ differential_flat_estimated_rotation (Vector3d_ 0 1 (- 20)) 1
      = Vector3d_
          (if Rlt_dec (0 * sin 1 - 1 * cos 1) 0
           then atan ((0 * sin 1 - 1 * cos 1)
                      / sqrt ((- 20 + 9.81) * (- 20 + 9.81)
                              + (0 * cos 1 + 1 * sin 1)
                                * (0 * cos 1 + 1 * sin 1))) + PI
           else atan ((0 * sin 1 - 1 * cos 1)
                      / sqrt ((- 20 + 9.81) * (- 20 + 9.81)
                              + (0 * cos 1 + 1 * sin 1)
                                * (0 * cos 1 + 1 * sin 1))) - PI)
          (atan ((0 * cos 1 + 1 * sin 1) / - (- 20 + 9.81)))
          (if Rlt_dec 1 0 then 1 + PI else 1 - PI).
Proof.
  assert (H1 : - PI < 1 <= PI) by (pose proof PI2_1; lra).
  assert (H2 : 1 <> 0) by lra.
  assert (H3 : - 20 < - 9.81) by lra.
  assert (H4 : 0 * sin 1 - 1 * cos 1 <> 0).
  { assert (0 < cos 1) by (apply cos_gt_0; pose proof PI2_1; lra). lra. }
  split; [exact H1 | split; [exact H2 | split; [exact H3 | split; [exact H4|]]]].
  exact (differential_flat_estimated_rotation_downward 0 1 (- 20) 1
           H1 H2 H3 H4).
Defined.
